(** * fs_emulator: a shallow embedding of [fs_emulator.c]

    The emulator keeps a fixed table of 1024 inode slots in memory, one
    backing file per inode in the storage root (named by the inode's decimal
    id) and the table's own file [inodes_list].  This development embeds the
    C functions as Rocq functions over an explicit world (inode table, files
    of the storage root, output log) and proves the properties of the
    specification about them.

    Modelling conventions:
    - [int] and [uint32_t] values are [Z]; a [char] is a [byte];
    - a C string argument is the [list byte] found at the pointer; the string
      itself is the part before the first NUL ([c_str]);
    - a file is the [list byte] of its content; a stream opened for reading
      is the list of bytes not yet consumed, and [fread] of [n] bytes
      succeeds only when [n] bytes are left;
    - whether an [fopen] succeeds is decided by an oracle
      [ok : mode -> string -> bool] (permissions and the like), over which
      every statement quantifies; a stream can be read only if it exists;
    - [uint32_t] values are stored in host byte order, taken little-endian;
    - the return values of [fwrite] and [fclose] are ignored, as in the
      source. *)

From Stdlib Require Import ZArith Lia List Strings.Ascii Strings.String Strings.Byte.
From stdpp Require Import base option list gmap strings pretty sorting.

Local Open Scope Z_scope.

(** ** Constants and records *)

Definition MAX_INODES : Z := 1024.
Definition NAME_LEN : nat := 32.

#[global] Instance byte_eq_decision : EqDecision byte := Byte.byte_eq_dec.

Record InodeInfo := mkInodeInfo { used : Z; type : byte }.

Record DirEnt := mkDirEnt { inode : Z; name : list byte }.

#[global] Instance InodeInfo_eq_decision : EqDecision InodeInfo.
Proof. solve_decision. Defined.

#[global] Instance DirEnt_eq_decision : EqDecision DirEnt.
Proof. solve_decision. Defined.

(** ['d'] and ['f'] *)
Definition ch_d : byte := x64.
Definition ch_f : byte := x66.
Definition ch_space : byte := x20.
Definition ch_tab : byte := x09.
Definition ch_nl : byte := x0a.

(** ** Bytes and 32-bit words *)

Definition byte_of_Z (z : Z) : byte :=
  default x00 (Byte.of_N (Z.to_N (z mod 256))).

Definition Z_of_byte (b : byte) : Z := Z.of_N (Byte.to_N b).

(** [fwrite(&v, sizeof(uint32_t), 1, f)] *)
Definition u32_bytes (v : Z) : list byte :=
  [byte_of_Z v; byte_of_Z (v / 256); byte_of_Z (v / 65536);
   byte_of_Z (v / 16777216)].

(** the value [fread(&v, sizeof(uint32_t), 1, f)] leaves in [v] *)
Definition u32_of_bytes (bs : list byte) : Z :=
  match bs with
  | [b0; b1; b2; b3] =>
      Z_of_byte b0 + 256 * Z_of_byte b1 + 65536 * Z_of_byte b2
      + 16777216 * Z_of_byte b3
  | _ => 0
  end.

(** ** C strings and [make_name32] *)

(** the string a [const char *] denotes: the bytes before the first NUL *)
Fixpoint c_str (s : list byte) : list byte :=
  match s with
  | [] => []
  | c :: rest => if decide (c = x00) then [] else c :: c_str rest
  end.

(** the [n] bytes [strncpy(dst, src, n)] stores: the string, then NULs *)
Fixpoint strncpy (n : nat) (src : list byte) : list byte :=
  match n with
  | O => []
  | S n' =>
      match src with
      | [] => x00 :: strncpy n' []
      | c :: rest =>
          if decide (c = x00) then x00 :: strncpy n' []
          else c :: strncpy n' rest
      end
  end.

Definition make_name32 (src : list byte) : list byte :=
  let dst := replicate NAME_LEN x00 in          (* memset(dst, 0, NAME_LEN) *)
  strncpy NAME_LEN src ++ drop NAME_LEN dst.    (* strncpy(dst, src, NAME_LEN) *)

Definition bytes (s : string) : list byte := list_byte_of_string s.

(** ** The world and the monad of the program *)

(** what the program writes to its output streams, in order *)
Inductive event :=
  | Stdout (s : string)      (* printf *)
  | Stderr (s : string)      (* fprintf(stderr, ...) *)
  | Perror (tag : string).   (* perror(tag): the tag, then the system's text *)

Record world := mkWorld {
  inode_table : list InodeInfo;        (* static InodeInfo inode_table[MAX_INODES] *)
  files : gmap string (list byte);     (* the regular files of the storage root *)
  out : list event
}.

Definition set_table (t : list InodeInfo) (w : world) : world :=
  mkWorld t (files w) (out w).
Definition set_files (fs : gmap string (list byte)) (w : world) : world :=
  mkWorld (inode_table w) fs (out w).
Definition set_out (o : list event) (w : world) : world :=
  mkWorld (inode_table w) (files w) o.

Definition M (A : Type) : Type := world -> A * world.

Definition ret {A} (a : A) : M A := fun w => (a, w).
Definition bind {A B} (m : M A) (k : A -> M B) : M B :=
  fun w => let (a, w') := m w in k a w'.

Notation "x <- m ;; k" := (bind m (fun x => k))
  (at level 90, m at level 80, right associativity, only parsing).
Notation "m ;;; k" := (bind m (fun _ => k))
  (at level 90, right associativity, only parsing).

Definition nl : string := String "010"%char EmptyString.

Definition emit (e : event) : M unit :=
  fun w => (tt, set_out (out w ++ [e]) w).
Definition eprint (s : string) : M unit := emit (Stderr (s +:+ nl)).
Definition print (s : string) : M unit := emit (Stdout (s +:+ nl)).
Definition perror (tag : string) : M unit := emit (Perror tag).

(** *** The inode table *)

Definition zero_slot : InodeInfo := mkInodeInfo 0 x00.

(** [inode_table[i]], for [0 <= i < MAX_INODES] *)
Definition slot (t : list InodeInfo) (i : Z) : InodeInfo :=
  default zero_slot (t !! Z.to_nat i).

Definition get_slot (i : Z) : M InodeInfo :=
  fun w => (slot (inode_table w) i, w).

(** [inode_table[i].used = v] *)
Definition set_used (i v : Z) : M unit :=
  fun w => (tt, set_table
    (alter (fun s => mkInodeInfo v (type s)) (Z.to_nat i) (inode_table w)) w).

(** [inode_table[i].type = c] *)
Definition set_type (i : Z) (c : byte) : M unit :=
  fun w => (tt, set_table
    (alter (fun s => mkInodeInfo (used s) c) (Z.to_nat i) (inode_table w)) w).

(** [memset(inode_table, 0, sizeof(inode_table))] *)
Definition clear_table : M unit :=
  fun w => (tt, set_table (replicate (Z.to_nat MAX_INODES) zero_slot) w).

(** *** Files *)

Inductive mode := RB | WB | AB.

(** [snprintf(fname, sizeof(fname), "%u", (unsigned)i)] *)
Definition fname_of (i : Z) : string := pretty (Z.to_N i).

Definition inodes_list : string := "inodes_list".

(** the bytes of a file, empty when it does not exist *)
Definition content (fs : gmap string (list byte)) (f : string) : list byte :=
  default [] (fs !! f).

(** [fread]: the next [n] bytes and the rest, when [n] bytes are left *)
Definition fread (n : nat) (s : list byte) : option (list byte * list byte) :=
  if decide (n <= length s)%nat then Some (take n s, drop n s) else None.

Section Program.

(** whether [fopen(f, mode)] succeeds (for [RB], on an existing file) *)
Variable ok : mode -> string -> bool.

(** [fopen(f, "rb")]: the stream, positioned at its start *)
Definition fopen_rb (f : string) : M (option (list byte)) :=
  fun w => (if ok RB f then files w !! f else None, w).

(** [fopen(f, "wb")]: creates the file or truncates it *)
Definition fopen_wb (f : string) : M bool :=
  fun w => if ok WB f then (true, set_files (<[f := []]> (files w)) w)
           else (false, w).

(** [fopen(f, "ab")]: creates the file when it does not exist *)
Definition fopen_ab (f : string) : M bool :=
  fun w => if ok AB f
           then (true, set_files (<[f := content (files w) f]> (files w)) w)
           else (false, w).

(** [fwrite] on a stream opened by [fopen_wb] or [fopen_ab] *)
Definition fwrite (f : string) (bs : list byte) : M unit :=
  fun w => (tt, set_files (<[f := content (files w) f ++ bs]> (files w)) w).

(** *** [load_inodes_list], [save_inodes_list] *)

Fixpoint load_loop (fuel : nat) (s : list byte) : M unit :=
  match fuel with
  | O => ret tt
  | S fuel' =>
      match fread 4 s with
      | None => ret tt
      | Some (ib, s1) =>
          match fread 1 s1 with
          | None => ret tt
          | Some (tb, s2) =>
              let index := u32_of_bytes ib in
              let ty := hd x00 tb in
              if MAX_INODES <=? index then
                eprint ("Invalid inode (out of range): "
                        +:+ pretty (Z.to_N index)) ;;;
                load_loop fuel' s2
              else if negb (bool_decide (ty = ch_d))
                      && negb (bool_decide (ty = ch_f)) then
                eprint ("Invalid inode type for inode "
                        +:+ pretty (Z.to_N index)) ;;;
                load_loop fuel' s2
              else
                set_used index 1 ;;;
                set_type index ty ;;;
                load_loop fuel' s2
          end
      end
  end.

(** [false] stands for [exit(1)] *)
Definition load_inodes_list : M bool :=
  f <- fopen_rb inodes_list ;;
  match f with
  | None => perror "inodes_list" ;;; ret false
  | Some s => load_loop (length s) s ;;; ret true
  end.

(** the body of the [for] loop of [save_inodes_list], from [i], [n] times *)
Fixpoint save_loop (n : nat) (i : Z) : M unit :=
  match n with
  | O => ret tt
  | S n' =>
      s <- get_slot i ;;
      (if negb (used s =? 0) then
         fwrite inodes_list (u32_bytes i) ;;;
         fwrite inodes_list [type s]
       else ret tt) ;;;
      save_loop n' (i + 1)
  end.

Definition save_inodes_list : M unit :=
  f <- fopen_wb inodes_list ;;
  if f then save_loop (Z.to_nat MAX_INODES) 0
  else perror "inodes_list".

(** *** Directories *)

Fixpoint dir_find_loop (fuel : nat) (key s : list byte) : option DirEnt :=
  match fuel with
  | O => None
  | S fuel' =>
      match fread 4 s with
      | None => None
      | Some (ib, s1) =>
          match fread NAME_LEN s1 with
          | None => None
          | Some (nm, s2) =>
              if bool_decide (nm = key)                 (* memcmp == 0 *)
              then Some (mkDirEnt (u32_of_bytes ib) nm)
              else dir_find_loop fuel' key s2
          end
      end
  end.

(** [dir_find(dir_inode, name, &ent)]: [Some ent] when it returns 1 *)
Definition dir_find (dir_inode : Z) (name : list byte) : M (option DirEnt) :=
  f <- fopen_rb (fname_of dir_inode) ;;
  match f with
  | None => ret None
  | Some s => ret (dir_find_loop (length s) (make_name32 name) s)
  end.

Definition dir_append (dir_inode child_inode : Z) (name : list byte) : M bool :=
  f <- fopen_ab (fname_of dir_inode) ;;
  if f then
    fwrite (fname_of dir_inode) (u32_bytes child_inode) ;;;
    fwrite (fname_of dir_inode) (make_name32 name) ;;;
    ret true
  else ret false.

Fixpoint find_free_loop (n : nat) (i : Z) (t : list InodeInfo) : Z :=
  match n with
  | O => -1
  | S n' => if used (slot t i) =? 0 then i else find_free_loop n' (i + 1) t
  end.

Definition find_free_inode : M Z :=
  fun w => (find_free_loop (Z.to_nat MAX_INODES) 0 (inode_table w), w).

Definition create_dir_inode (new_inode parent_inode : Z) : M bool :=
  f <- fopen_wb (fname_of new_inode) ;;
  if f then
    fwrite (fname_of new_inode) (u32_bytes new_inode) ;;;
    fwrite (fname_of new_inode) (make_name32 (bytes ".")) ;;;
    fwrite (fname_of new_inode) (u32_bytes parent_inode) ;;;
    fwrite (fname_of new_inode) (make_name32 (bytes "..")) ;;;
    ret true
  else ret false.

(** [while (n < NAME_LEN && namebuf[n] != '\0') n++;] *)
Fixpoint name_len (fuel : nat) (buf : list byte) : nat :=
  match fuel, buf with
  | S fuel', c :: rest =>
      if decide (c = x00) then O else S (name_len fuel' rest)
  | _, _ => O
  end.

Definition create_file_inode (new_inode : Z) (name : list byte) : M bool :=
  f <- fopen_wb (fname_of new_inode) ;;
  if f then
    let namebuf := make_name32 name in
    let n := name_len NAME_LEN namebuf in
    fwrite (fname_of new_inode) (take n namebuf) ;;;
    ret true
  else ret false.

(** *** Commands *)

Fixpoint ls_loop (fuel : nat) (s : list byte) : M unit :=
  match fuel with
  | O => ret tt
  | S fuel' =>
      match fread 4 s with
      | None => ret tt
      | Some (ib, s1) =>
          match fread NAME_LEN s1 with
          | None => ret tt
          | Some (nm, s2) =>
              let namebuf := nm ++ [x00] in   (* memcpy; namebuf[NAME_LEN] = '\0' *)
              print (pretty (Z.to_N (u32_of_bytes ib)) +:+ " "
                     +:+ string_of_list_byte (c_str namebuf)) ;;;
              ls_loop fuel' s2
          end
      end
  end.

Definition cmd_ls (cwd : Z) : M unit :=
  f <- fopen_rb (fname_of cwd) ;;
  match f with
  | None => perror "ls"
  | Some s => ls_loop (length s) s
  end.

(** [cmd_cd(&cwd, name)]: returns the value of [cwd] afterwards *)
Definition cmd_cd (cwd : Z) (name : list byte) : M Z :=
  r <- dir_find cwd name ;;
  match r with
  | None => eprint "cd: no such directory" ;;; ret cwd
  | Some ent =>
      s <- get_slot (inode ent) ;;
      if (MAX_INODES <=? inode ent) || (used s =? 0)
         || negb (bool_decide (type s = ch_d))
      then eprint "cd: not a directory" ;;; ret cwd
      else ret (inode ent)
  end.

(** [(uint32_t)i] *)
Definition u32 (i : Z) : Z := i mod 4294967296.

(** [a || b] on the two calls, the second made only when the first is 0 *)
Definition lazy_or (a b : M bool) : M bool :=
  x <- a ;; if x then ret true else b.
Definition mnot (a : M bool) : M bool := x <- a ;; ret (negb x).

Definition cmd_mkdir (cwd : Z) (name : list byte) : M unit :=
  r <- dir_find cwd name ;;
  match r with
  | Some _ => eprint "mkdir: already exists"
  | None =>
      free_i <- find_free_inode ;;
      if free_i <? 0 then eprint "mkdir: no free inodes"
      else
        set_used free_i 1 ;;;
        set_type free_i ch_d ;;;
        failed <- lazy_or (mnot (create_dir_inode (u32 free_i) cwd))
                          (mnot (dir_append cwd (u32 free_i) name)) ;;
        if failed then set_used free_i 0 else ret tt
  end.

Definition cmd_touch (cwd : Z) (name : list byte) : M unit :=
  r <- dir_find cwd name ;;
  match r with
  | Some _ => ret tt
  | None =>
      free_i <- find_free_inode ;;
      if free_i <? 0 then eprint "touch: no free inodes"
      else
        set_used free_i 1 ;;;
        set_type free_i ch_f ;;;
        failed <- lazy_or (mnot (create_file_inode (u32 free_i) name))
                          (mnot (dir_append cwd (u32 free_i) name)) ;;
        if failed then set_used free_i 0 else ret tt
  end.

(** *** One iteration of the loop of [main] *)

Definition is_delim (c : byte) : bool :=
  bool_decide (c = ch_space) || bool_decide (c = ch_tab).

(** the tokens successive [strtok(_, " \t")] calls return; [cur] is the
    token being read *)
Fixpoint strtok_all (s cur : list byte) : list (list byte) :=
  match s with
  | [] => match cur with [] => [] | _ => [cur] end
  | c :: rest =>
      if is_delim c
      then match cur with
           | [] => strtok_all rest []
           | _ => cur :: strtok_all rest []
           end
      else strtok_all rest (cur ++ [c])
  end.

(** [line[strcspn(line, "\n")] = '\0'] *)
Fixpoint cut_newline (s : list byte) : list byte :=
  match s with
  | [] => []
  | c :: rest => if decide (c = ch_nl) then [] else c :: cut_newline rest
  end.

Inductive flow := Continue | Break.

(** the body of [while (1)] once [fgets] has returned [line] *)
Definition exec_line (line : list byte) (cwd : Z) : M (flow * Z) :=
  match strtok_all (cut_newline (c_str line)) [] with
  | [] => ret (Continue, cwd)
  | cmd :: args =>
      if bool_decide (cmd = bytes "ls") then
        match args with
        | [] => cmd_ls cwd ;;; ret (Continue, cwd)
        | _ => eprint "Invalid command" ;;; ret (Continue, cwd)
        end
      else if bool_decide (cmd = bytes "cd") then
        match args with
        | [arg] => cwd' <- cmd_cd cwd arg ;; ret (Continue, cwd')
        | _ => eprint "Invalid command" ;;; ret (Continue, cwd)
        end
      else if bool_decide (cmd = bytes "mkdir") then
        match args with
        | [arg] => cmd_mkdir cwd arg ;;; ret (Continue, cwd)
        | _ => eprint "Invalid command" ;;; ret (Continue, cwd)
        end
      else if bool_decide (cmd = bytes "touch") then
        match args with
        | [arg] => cmd_touch cwd arg ;;; ret (Continue, cwd)
        | _ => eprint "Invalid command" ;;; ret (Continue, cwd)
        end
      else if bool_decide (cmd = bytes "exit") then
        match args with
        | [] => save_inodes_list ;;; ret (Break, cwd)
        | _ => eprint "Invalid command" ;;; ret (Continue, cwd)
        end
      else eprint "Invalid command" ;;; ret (Continue, cwd)
  end.

End Program.

(** ** [main]

    [env k] is the [fopen] oracle in force while the [k]-th step of the
    session runs: step 0 is the start-up, step [k] the [k]-th line.  [lines]
    holds what the successive [fgets] calls return until end of input. *)

Fixpoint main_loop (env : nat -> mode -> string -> bool) (k : nat)
    (lines : list (list byte)) (cwd : Z) : M unit :=
  match lines with
  | [] => save_inodes_list (env k)
  | line :: rest =>
      r <- exec_line (env k) line cwd ;;
      match r with
      | (Break, _) => ret tt
      | (Continue, cwd') => main_loop env (S k) rest cwd'
      end
  end.

(** [is_directory] and [chdir] on the real file system are given as
    predicates on the path; the result is the exit status *)
Definition main (env : nat -> mode -> string -> bool)
    (is_directory chdir : list byte -> bool)
    (argv : list (list byte)) (lines : list (list byte)) : M Z :=
  match argv with
  | [prog; root] =>
      if negb (is_directory root) then
        emit (Stderr ("Not a directory: " +:+ string_of_list_byte (c_str root)
                      +:+ nl)) ;;;
        ret 1
      else if negb (chdir root) then perror "chdir" ;;; ret 1
      else
        clear_table ;;;
        loaded <- load_inodes_list (env O) ;;
        if negb loaded then ret 1
        else
          s <- get_slot 0 ;;
          if (used s =? 0) || negb (bool_decide (type s = ch_d))
          then eprint "inode 0 is not a directory" ;;; ret 1
          else main_loop env 1%nat lines 0 ;;; ret 0
  | _ =>
      emit (Stderr ("Usage: " +:+ string_of_list_byte (c_str (hd [] argv))
                    +:+ " <fs_directory>" +:+ nl)) ;;;
      ret 1
  end.

(** ** Notions in which the properties are stated *)

(** *** Directory streams *)

(** one record of a directory stream *)
Definition enc_ent (e : DirEnt) : list byte := u32_bytes (inode e) ++ name e.

Definition ENT_SIZE : nat := 4 + NAME_LEN.

(** the records the read loop of [dir_find] and [cmd_ls] goes through *)
Fixpoint dir_entries_loop (fuel : nat) (s : list byte) : list DirEnt :=
  match fuel with
  | O => []
  | S fuel' =>
      match fread 4 s with
      | None => []
      | Some (ib, s1) =>
          match fread NAME_LEN s1 with
          | None => []
          | Some (nm, s2) =>
              mkDirEnt (u32_of_bytes ib) nm :: dir_entries_loop fuel' s2
          end
      end
  end.

Definition dir_entries (s : list byte) : list DirEnt :=
  dir_entries_loop (length s) s.

(** decoding one record *)
Definition dec_ent (rec : list byte) : DirEnt :=
  mkDirEnt (u32_of_bytes (take 4 rec)) (drop 4 rec).

(** a record as the program writes it *)
Definition wf_ent (e : DirEnt) : Prop :=
  0 <= inode e < 4294967296 /\ length (name e) = NAME_LEN.

(** the stream holds whole records only *)
Definition aligned (s : list byte) : Prop := (length s mod ENT_SIZE = 0)%nat.

(** the entries of a directory as a reader sees them under oracle [ok] *)
Definition dir_listing (ok : mode -> string -> bool) (w : world) (dir : Z)
    : option (list DirEnt) :=
  if ok RB (fname_of dir) then dir_entries <$> files w !! fname_of dir
  else None.

(** [name] is the name of entry [e] *)
Definition named (nm : list byte) (e : DirEnt) : bool :=
  bool_decide (name e = make_name32 nm).

(** no record of the directory's stream carries the name *)
Definition fresh_in (w : world) (dir : Z) (nm : list byte) : bool :=
  forallb (fun e => negb (named nm e))
          (dir_entries (content (files w) (fname_of dir))).

(** the stream [create_dir_inode] writes *)
Definition dir_stream (new parent : Z) : list byte :=
  enc_ent (mkDirEnt new (make_name32 (bytes ".")))
  ++ enc_ent (mkDirEnt parent (make_name32 (bytes ".."))).

(** the stream [create_file_inode] writes *)
Definition file_stream (nm : list byte) : list byte :=
  take (name_len NAME_LEN (make_name32 nm)) (make_name32 nm).

(** the parent's stream once [dir_append] has run *)
Definition appended (fs : gmap string (list byte)) (dir child : Z)
    (nm : list byte) : gmap string (list byte) :=
  <[fname_of dir := content fs (fname_of dir)
                    ++ enc_ent (mkDirEnt child (make_name32 nm))]> fs.

(** the line [cmd_ls] prints for an entry *)
Definition ls_line (e : DirEnt) : event :=
  Stdout ((pretty (Z.to_N (inode e)) +:+ " "
           +:+ string_of_list_byte (c_str (name e ++ [x00]))) +:+ nl).

(** *** Inode tables *)

Definition table_ok (t : list InodeInfo) : Prop :=
  length t = Z.to_nat MAX_INODES.

Definition is_used (s : InodeInfo) : bool := negb (used s =? 0).

(** the [(index, type)] pairs of the used slots, from index [i] on *)
Fixpoint used_from (i : Z) (t : list InodeInfo) : list (Z * byte) :=
  match t with
  | [] => []
  | s :: t' =>
      (if is_used s then [(i, type s)] else []) ++ used_from (i + 1) t'
  end.

Definition used_pairs (t : list InodeInfo) : list (Z * byte) := used_from 0 t.

Definition valid_type (c : byte) : bool :=
  bool_decide (c = ch_d) || bool_decide (c = ch_f).

(** every used slot carries ['d'] or ['f'] *)
Definition typed_table (t : list InodeInfo) : bool :=
  forallb (fun s => negb (is_used s) || valid_type (type s)) t.

(** [inode_table[i].used = 1; inode_table[i].type = c;] *)
Definition mark_used (t : list InodeInfo) (p : Z * byte) : list InodeInfo :=
  alter (fun s => mkInodeInfo (used s) p.2) (Z.to_nat p.1)
    (alter (fun s => mkInodeInfo 1 (type s)) (Z.to_nat p.1) t).

(** [inode_table[i].used = 0] *)
Definition rollback (t : list InodeInfo) (i : Z) : list InodeInfo :=
  alter (fun s => mkInodeInfo 0 (type s)) (Z.to_nat i) t.

Definition fresh_table : list InodeInfo :=
  replicate (Z.to_nat MAX_INODES) zero_slot.

(** the table after marking the pairs of [ps], in this order, in a cleared
    table *)
Definition marked (ps : list (Z * byte)) : list InodeInfo :=
  foldl mark_used fresh_table ps.

Definition valid_mark (p : Z * byte) : bool :=
  (0 <=? p.1) && (p.1 <? MAX_INODES) && valid_type p.2.

(** what a slot looks like once saved and loaded again *)
Definition reloaded (s : InodeInfo) : InodeInfo :=
  if is_used s then mkInodeInfo 1 (type s) else zero_slot.

(** the records [save_inodes_list] writes for the pairs *)
Fixpoint enc_pairs (ps : list (Z * byte)) : list byte :=
  match ps with
  | [] => []
  | (i, c) :: ps' => u32_bytes i ++ c :: enc_pairs ps'
  end.

(** *** Sessions *)

(** the session invariant on the current directory *)
Definition cwd_ok (cwd : Z) (w : world) : Prop :=
  0 <= cwd < MAX_INODES
  /\ used (slot (inode_table w) cwd) <> 0
  /\ type (slot (inode_table w) cwd) = ch_d.

(** the pairs [(cwd, world)] a session started on [w0] goes through: the
    state in which [main] enters its loop, and the state after every line *)
Inductive reachable (w0 : world) : Z -> world -> Prop :=
  | reach_start ok w1 :
      load_inodes_list ok (clear_table w0).2 = (true, w1) ->
      (used (slot (inode_table w1) 0) =? 0)
        || negb (bool_decide (type (slot (inode_table w1) 0) = ch_d)) = false ->
      reachable w0 0 w1
  | reach_line ok line cwd w fl cwd' w' :
      reachable w0 cwd w ->
      exec_line ok line cwd w = ((fl, cwd'), w') ->
      reachable w0 cwd' w'
  | reach_eof ok cwd w :
      reachable w0 cwd w ->
      reachable w0 cwd (save_inodes_list ok w).2.

(** a used slot of [w] is the same slot in [w'] *)
Definition keeps_used (w w' : world) : Prop :=
  forall j, 0 <= j -> used (slot (inode_table w) j) <> 0 ->
            slot (inode_table w') j = slot (inode_table w) j.

(** the stream of every used directory inode holds whole records *)
Definition dirs_aligned (w : world) : Prop :=
  forall j, 0 <= j ->
    used (slot (inode_table w) j) <> 0 ->
    type (slot (inode_table w) j) = ch_d ->
    aligned (content (files w) (fname_of j)).

(** decimal digits only *)
Fixpoint all_digits (s : string) : bool :=
  match s with
  | EmptyString => true
  | String c s' =>
      (48 <=? nat_of_ascii c)%nat && (nat_of_ascii c <=? 57)%nat && all_digits s'
  end.

(** *** Outcomes of a command *)

Definition log (e : event) (w : world) : world := set_out (out w ++ [e]) w.

(** the world after the creation steps of [cmd_mkdir] and [cmd_touch] for
    slot [i], type [c] and new stream [new], under oracle [ok] *)
Definition created (ok : mode -> string -> bool) (w : world) (cwd i : Z)
    (c : byte) (new : list byte) (nm : list byte) : world :=
  let t1 := mark_used (inode_table w) (i, c) in
  if ok WB (fname_of i) then
    let fs1 := <[fname_of i := new]> (files w) in
    if ok AB (fname_of cwd) then mkWorld t1 (appended fs1 cwd i nm) (out w)
    else mkWorld (rollback t1 i) fs1 (out w)
  else mkWorld (rollback t1 i) (files w) (out w).

(** the same when both steps succeed *)
Definition committed (w : world) (cwd i : Z) (c : byte)
    (new : list byte) (nm : list byte) : world :=
  mkWorld (mark_used (inode_table w) (i, c))
          (appended (<[fname_of i := new]> (files w)) cwd i nm) (out w).

(** the diagnostics a run appended to the log *)
Definition is_diagnostic (e : event) : bool :=
  match e with Stdout _ => false | _ => true end.

Definition diagnostics (w w' : world) : list event :=
  List.filter is_diagnostic (drop (length (out w)) (out w')).

(** what the specification asks of a failed command: a diagnostic was
    printed, and cwd, the inode table and the files are as before *)
Definition reported_and_unchanged (cwd : Z) (w : world) (cwd' : Z) (w' : world)
    : Prop :=
  diagnostics w w' <> [] /\ cwd' = cwd
  /\ inode_table w' = inode_table w /\ files w' = files w.

(** a run either appended one diagnostic and changed nothing else, or
    printed no diagnostic *)
Definition diagnosed_or_silent (w w' : world) : Prop :=
  (exists e, w' = log e w /\ is_diagnostic e = true)
  \/ diagnostics w w' = [].

(** *** The table file *)

Definition REC_SIZE : nat := 5.

(** the records the read loop of [load_inodes_list] goes through *)
Fixpoint table_records_loop (fuel : nat) (s : list byte) : list (Z * byte) :=
  match fuel with
  | O => []
  | S fuel' =>
      match fread 4 s with
      | None => []
      | Some (ib, s1) =>
          match fread 1 s1 with
          | None => []
          | Some (tb, s2) =>
              (u32_of_bytes ib, hd x00 tb) :: table_records_loop fuel' s2
          end
      end
  end.

Definition table_records (s : list byte) : list (Z * byte) :=
  table_records_loop (length s) s.

(** what [load_inodes_list] prints for a record *)
Definition load_warning (p : Z * byte) : list event :=
  if MAX_INODES <=? p.1 then
    [Stderr (("Invalid inode (out of range): " +:+ pretty (Z.to_N p.1)) +:+ nl)]
  else if negb (valid_type p.2) then
    [Stderr (("Invalid inode type for inode " +:+ pretty (Z.to_N p.1)) +:+ nl)]
  else [].

(** the slot is free, or used with ['d'] or ['f'] *)
Definition slot_typed (s : InodeInfo) : bool :=
  negb (is_used s) || valid_type (type s).

(** the indexes of the pairs ascend strictly *)
Definition ascending (ps : list (Z * byte)) : Prop :=
  StronglySorted (fun p q : Z * byte => p.1 < q.1) ps.

(** every slot of the table is free, or has [used = 1] with ['d'] or ['f'] *)
Definition table_typed (t : list InodeInfo) : Prop :=
  Forall (fun s => slot_typed s = true /\ (used s = 0 \/ used s = 1)) t.

(** nothing of [w] is lost in [w']: a used slot stays as it is, a file stays
    in place, and the stream of a used inode is only extended *)
Definition extends (w w' : world) : Prop :=
  keeps_used w w'
  /\ (forall f, is_Some (files w !! f) -> is_Some (files w' !! f))
  /\ (forall j, 0 <= j -> used (slot (inode_table w) j) <> 0 ->
        content (files w) (fname_of j)
          `prefix_of` content (files w') (fname_of j)).

(** [(i, c)] is the last record of [ps] for slot [i] that passes the two
    tests of the loader *)
Definition last_valid (ps : list (Z * byte)) (i : Z) (c : byte) : Prop :=
  exists pre post,
    ps = pre ++ (i, c) :: post /\ valid_mark (i, c) = true
    /\ Forall (fun q : Z * byte => q.1 <> i \/ valid_mark q = false) post.

(** *** Command lines *)

(** the tokens [main] gets from a line *)
Definition tokens (line : list byte) : list (list byte) :=
  strtok_all (cut_newline (c_str line)) [].

(** a run of blanks *)
Definition blanks (p : list byte) : bool := forallb is_delim p.

(** a gap between two words *)
Definition gap (p : list byte) : bool :=
  negb (bool_decide (p = [])) && blanks p.

(** a character of a word: no blank, no newline, no NUL *)
Definition word_char (c : byte) : bool :=
  negb (is_delim c) && negb (bool_decide (c = ch_nl))
  && negb (bool_decide (c = x00)).

Definition word (t : list byte) : bool :=
  negb (bool_decide (t = [])) && forallb word_char t.

(** words and blanks in a row: [p0 t1 p1 t2 ... pz] *)
Definition spaced (p0 t1 : list byte) (more : list (list byte * list byte))
    (pz : list byte) : list byte :=
  p0 ++ t1 ++ flat_map (fun pt => pt.1 ++ pt.2) more ++ pz.

(** the shapes of token lists [main] takes for a command *)
Definition well_formed (ts : list (list byte)) : bool :=
  match ts with
  | [] => true
  | [c] => bool_decide (c = bytes "ls") || bool_decide (c = bytes "exit")
  | [c; _] =>
      bool_decide (c = bytes "cd") || bool_decide (c = bytes "mkdir")
      || bool_decide (c = bytes "touch")
  | _ => false
  end.

(** *** Concrete worlds, on which the statements are exercised *)

Definition all_ok : mode -> string -> bool := fun _ _ => true.

(** a storage root holding the root directory only *)
Definition root_only : world :=
  mkWorld (<[O := mkInodeInfo 1 ch_d]> fresh_table)
          {[ fname_of 0 := dir_stream 0 0 ]} [].

(** every slot taken by a directory *)
Definition full_world : world :=
  mkWorld (replicate (Z.to_nat MAX_INODES) (mkInodeInfo 1 ch_d))
          {[ fname_of 0 := dir_stream 0 0 ]} [].

(** the root after [mkdir a] and [touch f] *)
Definition after_mkdir_a : world := (cmd_mkdir all_ok 0 (bytes "a") root_only).2.
Definition demo_tree : world := (cmd_touch all_ok 0 (bytes "f") after_mkdir_a).2.
Definition demo_entries : list DirEnt :=
  dir_entries (content (files demo_tree) (fname_of 0)).

(** oracles under which no stream can be created, resp. appended to *)
Definition no_create : mode -> string -> bool :=
  fun m _ => match m with WB => false | _ => true end.
Definition no_append : mode -> string -> bool :=
  fun m _ => match m with AB => false | _ => true end.

(** a name of 40 characters *)
Definition name40 : list byte :=
  bytes "abcdefghijklmnopqrstuvwxyz0123456789ABCD".

(** another name with the same first 32 characters *)
Definition name40' : list byte :=
  bytes "abcdefghijklmnopqrstuvwxyz012345-other".

(** a storage root on disk: the table file lists the root directory *)
Definition disk0 : world :=
  mkWorld [] {[ inodes_list := enc_pairs [(0, ch_d)];
                fname_of 0 := dir_stream 0 0 ]} [].

Definition line (s : string) : list byte := bytes s ++ [ch_nl].

(** a short session on [disk0]: start-up, [mkdir a], [cd a] *)
Definition booted : world := (load_inodes_list all_ok (clear_table disk0).2).2.
Definition in_root : world := (exec_line all_ok (line "mkdir a") 0 booted).2.
Definition in_a : world := (exec_line all_ok (line "cd a") 0 in_root).2.

(** a table file with an out-of-range record, an ill-typed record, slot 3
    listed twice and a truncated last record *)
Definition messy_records : list (Z * byte) :=
  [(0, ch_d); (5000, ch_d); (3, ch_f); (3, ch_d); (3, x78)].
Definition messy_file : list byte := enc_pairs messy_records ++ [x07; x00].
Definition messy_disk : world :=
  mkWorld [] {[ inodes_list := messy_file ]} [].

(** a directory stream with two entries named [a] and a cut-off record *)
Definition twice_a : list byte :=
  enc_ent (mkDirEnt 7 (make_name32 (bytes "a")))
  ++ enc_ent (mkDirEnt 9 (make_name32 (bytes "a"))) ++ [x01; x02; x03].

(** a storage root whose table lists inode 0 as a file *)
Definition bad_root : world :=
  mkWorld [] {[ inodes_list := enc_pairs [(0, ch_f); (7, x78)] ]} [].

(** * Properties *)

(** closes a statement about concrete worlds by evaluation *)
Ltac by_eval :=
  vm_compute; first [reflexivity | discriminate | lia | done].

(** ** Bytes and words *)

Lemma Z_of_byte_range b : 0 <= Z_of_byte b < 256.
Proof.
  unfold Z_of_byte. pose proof (Byte.to_N_bounded b). lia.
Qed.

Lemma Z_of_byte_of_Z z : Z_of_byte (byte_of_Z z) = z mod 256.
Proof.
  unfold Z_of_byte, byte_of_Z.
  pose proof (Z.mod_pos_bound z 256 eq_refl) as Hr.
  pose proof (Byte.to_of_N_option_map (Z.to_N (z mod 256))) as Hm.
  destruct (Byte.of_N (Z.to_N (z mod 256))) as [b|] eqn:E; simpl in *.
  - destruct (N.leb_spec (Z.to_N (z mod 256)) 255); [|lia].
    injection Hm as ->. lia.
  - destruct (N.leb_spec (Z.to_N (z mod 256)) 255); [discriminate|lia].
Qed.

Lemma u32_bytes_length v : length (u32_bytes v) = 4%nat.
Proof. reflexivity. Qed.

Lemma u32_of_bytes_of v :
  0 <= v < 4294967296 -> u32_of_bytes (u32_bytes v) = v.
Proof.
  intros Hv. unfold u32_bytes, u32_of_bytes. rewrite !Z_of_byte_of_Z.
  Z.to_euclidean_division_equations. lia.
Qed.

Lemma u32_of_bytes_range bs : 0 <= u32_of_bytes bs < 4294967296.
Proof.
  destruct bs as [|b0 [|b1 [|b2 [|b3 [|? ?]]]]]; simpl; try lia.
  pose proof (Z_of_byte_range b0). pose proof (Z_of_byte_range b1).
  pose proof (Z_of_byte_range b2). pose proof (Z_of_byte_range b3). lia.
Qed.

Lemma u32_small i : 0 <= i < MAX_INODES -> u32 i = i.
Proof. unfold u32, MAX_INODES. intros. apply Z.mod_small. lia. Qed.

(** ** C strings and name buffers *)

Lemma c_str_no_nul s : x00 ∉ c_str s.
Proof.
  induction s as [|c s IH]; simpl.
  - apply not_elem_of_nil.
  - destruct (decide (c = x00)); [apply not_elem_of_nil|].
    rewrite not_elem_of_cons. split; [congruence|exact IH].
Qed.

Lemma c_str_id s : x00 ∉ s -> c_str s = s.
Proof.
  induction s as [|c s IH]; simpl; [done|].
  rewrite not_elem_of_cons. intros [Hc Hs].
  destruct (decide (c = x00)); [congruence|]. by rewrite IH.
Qed.

Lemma strncpy_nil n : strncpy n [] = replicate n x00.
Proof. induction n; simpl; congruence. Qed.

Lemma strncpy_spec n s :
  strncpy n s = take n (c_str s) ++ replicate (n - length (c_str s)) x00.
Proof.
  revert s. induction n as [|n IH]; intros s; [by rewrite take_0|].
  destruct s as [|c s]; simpl.
  - by rewrite strncpy_nil.
  - destruct (decide (c = x00)); simpl.
    + by rewrite strncpy_nil.
    + by rewrite IH.
Qed.

Lemma strncpy_length n s : length (strncpy n s) = n.
Proof.
  revert s. induction n as [|n IH]; intros s; [done|].
  destruct s as [|c s]; simpl; [by rewrite IH|].
  destruct (decide (c = x00)); simpl; by rewrite IH.
Qed.

Lemma make_name32_strncpy s : make_name32 s = strncpy NAME_LEN s.
Proof.
  unfold make_name32. rewrite drop_replicate, Nat.sub_diag.
  exact (app_nil_r _).
Qed.

Lemma make_name32_spec s :
  make_name32 s
  = take NAME_LEN (c_str s) ++ replicate (NAME_LEN - length (c_str s)) x00.
Proof. rewrite make_name32_strncpy. apply strncpy_spec. Qed.

Lemma make_name32_length s : length (make_name32 s) = NAME_LEN.
Proof. rewrite make_name32_strncpy. apply strncpy_length. Qed.

Lemma make_name32_long s :
  (NAME_LEN <= length (c_str s))%nat -> make_name32 s = take NAME_LEN (c_str s).
Proof.
  intros H. rewrite make_name32_spec.
  replace (NAME_LEN - length (c_str s))%nat with O by lia.
  apply app_nil_r.
Qed.

Lemma make_name32_short s :
  (length (c_str s) < NAME_LEN)%nat ->
  make_name32 s = c_str s ++ replicate (NAME_LEN - length (c_str s)) x00.
Proof.
  intros H. rewrite make_name32_spec. by rewrite take_ge by lia.
Qed.

(** a full buffer is matched exactly by the names with the same first
    [NAME_LEN] bytes *)
Lemma make_name32_eq_long q s :
  (NAME_LEN <= length (c_str s))%nat ->
  make_name32 q = make_name32 s <->
  take NAME_LEN (c_str q) = take NAME_LEN (c_str s).
Proof.
  intros Hs. rewrite (make_name32_long s Hs). split.
  - intros Hq. destruct (decide (NAME_LEN <= length (c_str q))%nat) as [Hl|Hl].
    + by rewrite <- (make_name32_long q Hl).
    + exfalso. apply (c_str_no_nul s).
      apply (subseteq_take NAME_LEN).
      rewrite <- Hq, make_name32_spec, elem_of_app. right.
      destruct (NAME_LEN - length (c_str q))%nat as [|k] eqn:E; [lia|].
      apply list_elem_of_here.
  - intros Hq. destruct (decide (NAME_LEN <= length (c_str q))%nat) as [Hl|Hl].
    + by rewrite make_name32_long.
    + assert (length (take NAME_LEN (c_str q)) = length (take NAME_LEN (c_str s)))
        as Hlen by by rewrite Hq.
      rewrite !length_take in Hlen. lia.
Qed.

(** ** Streams *)

Lemma fread_app n a r : length a = n -> fread n (a ++ r) = Some (a, r).
Proof.
  intros <-. unfold fread. rewrite length_app.
  destruct (decide _) as [_|H]; [|lia].
  by rewrite take_app_length, drop_app_length.
Qed.

Lemma fread_Some n s a r :
  fread n s = Some (a, r) -> s = a ++ r /\ length a = n.
Proof.
  unfold fread. destruct (decide _) as [H|]; [|done].
  intros [= <- <-]. split; [by rewrite take_drop|].
  rewrite length_take. lia.
Qed.

Lemma fread_None n s : fread n s = None <-> (length s < n)%nat.
Proof. unfold fread. destruct (decide _); split; (done || lia). Qed.

Lemma fread_short n s : (length s < n)%nat -> fread n s = None.
Proof. apply fread_None. Qed.

Lemma enc_ent_length e : length (name e) = NAME_LEN -> length (enc_ent e) = ENT_SIZE.
Proof. intros H. unfold enc_ent. rewrite length_app, H. reflexivity. Qed.

Lemma dir_entries_loop_fuel f1 f2 s :
  (length s <= f1)%nat -> (length s <= f2)%nat ->
  dir_entries_loop f1 s = dir_entries_loop f2 s.
Proof.
  revert f2 s. induction f1 as [|f1 IH]; intros f2 s H1 H2.
  - destruct s; [|simpl in H1; lia]. by destruct f2.
  - destruct f2 as [|f2].
    { destruct s; [done|simpl in H2; lia]. }
    cbn [dir_entries_loop].
    destruct (fread 4 s) as [[ib s1]|] eqn:E1; [|done].
    destruct (fread NAME_LEN s1) as [[nm s2]|] eqn:E2; [|done].
    apply fread_Some in E1 as [-> L1]. apply fread_Some in E2 as [-> L2].
    rewrite !length_app in H1, H2. f_equal. apply IH; lia.
Qed.

Lemma dir_entries_unfold s :
  dir_entries s =
  match fread 4 s with
  | None => []
  | Some (ib, s1) =>
      match fread NAME_LEN s1 with
      | None => []
      | Some (nm, s2) => mkDirEnt (u32_of_bytes ib) nm :: dir_entries s2
      end
  end.
Proof.
  unfold dir_entries at 1. destruct s as [|c s]; [done|].
  cbn [length dir_entries_loop].
  destruct (fread 4 (c :: s)) as [[ib s1]|] eqn:E1; [|done].
  destruct (fread NAME_LEN s1) as [[nm s2]|] eqn:E2; [|done].
  f_equal. apply dir_entries_loop_fuel; [|done].
  apply fread_Some in E1 as [E1 L1]. apply fread_Some in E2 as [-> L2].
  apply (f_equal length) in E1. rewrite !length_app in E1.
  cbn [length] in E1. lia.
Qed.

Lemma dir_entries_short s : (length s < ENT_SIZE)%nat -> dir_entries s = [].
Proof.
  intros H. rewrite dir_entries_unfold.
  destruct (fread 4 s) as [[ib s1]|] eqn:E1; [|done].
  apply fread_Some in E1 as [-> L1]. rewrite length_app in H.
  rewrite fread_short; [done|]. unfold ENT_SIZE in H. lia.
Qed.

Lemma dir_entries_rec rec r :
  length rec = ENT_SIZE ->
  dir_entries (rec ++ r) = dec_ent rec :: dir_entries r.
Proof.
  intros L. rewrite dir_entries_unfold.
  rewrite <- (take_drop 4 rec) at 1. rewrite <- app_assoc.
  rewrite fread_app by (rewrite length_take; unfold ENT_SIZE in L; lia).
  rewrite fread_app; [done|].
  rewrite length_drop, L. reflexivity.
Qed.

Lemma dec_enc_ent e : wf_ent e -> dec_ent (enc_ent e) = e.
Proof.
  intros [Hi Hn]. destruct e as [i nm]. unfold dec_ent, enc_ent. simpl in *.
  f_equal. by apply u32_of_bytes_of.
Qed.

Lemma dir_entries_cons e r :
  wf_ent e -> dir_entries (enc_ent e ++ r) = e :: dir_entries r.
Proof.
  intros H. rewrite dir_entries_rec by (apply enc_ent_length, H).
  by rewrite dec_enc_ent.
Qed.

Lemma aligned_split s :
  aligned s -> s <> [] ->
  length (take ENT_SIZE s) = ENT_SIZE /\ aligned (drop ENT_SIZE s)
  /\ (length (drop ENT_SIZE s) < length s)%nat.
Proof.
  unfold aligned. intros Ha Hs.
  assert (ENT_SIZE <= length s)%nat as Hle.
  { destruct s as [|c s]; [done|].
    destruct (decide (ENT_SIZE <= length (c :: s))%nat) as [|Hn]; [done|].
    rewrite Nat.mod_small in Ha by lia. simpl in Ha. lia. }
  rewrite length_take, length_drop.
  repeat split; [lia| |unfold ENT_SIZE, NAME_LEN in *; lia].
  rewrite <- Ha. replace (length s) with ((length s - ENT_SIZE) + 1 * ENT_SIZE)%nat at 2 by lia.
  by rewrite Nat.Div0.mod_add.
Qed.

Lemma dir_entries_app s t :
  aligned s -> dir_entries (s ++ t) = dir_entries s ++ dir_entries t.
Proof.
  remember (length s) as n eqn:Hn. revert s Hn.
  induction n as [n IH] using lt_wf_ind. intros s -> Ha.
  destruct (decide (s = [])) as [->|Hs]; [done|].
  destruct (aligned_split s Ha Hs) as (L & Ha' & Hlt).
  rewrite <- (take_drop ENT_SIZE s), <- app_assoc.
  rewrite (dir_entries_rec (take ENT_SIZE s) (drop ENT_SIZE s ++ t)) by done.
  rewrite (dir_entries_rec (take ENT_SIZE s) (drop ENT_SIZE s)) by done.
  rewrite (IH _ Hlt _ eq_refl Ha'). done.
Qed.

Lemma aligned_app s t : aligned s -> aligned t -> aligned (s ++ t).
Proof.
  unfold aligned. intros Hs Ht. rewrite length_app.
  rewrite Nat.Div0.add_mod, Hs, Ht. reflexivity.
Qed.

Lemma aligned_enc_ent e : length (name e) = NAME_LEN -> aligned (enc_ent e).
Proof. intros H. unfold aligned. by rewrite enc_ent_length. Qed.

Lemma dir_entries_snoc s e :
  aligned s -> wf_ent e -> dir_entries (s ++ enc_ent e) = dir_entries s ++ [e].
Proof.
  intros Ha He. rewrite dir_entries_app by done. f_equal.
  rewrite <- (app_nil_r (enc_ent e)), dir_entries_cons by done.
  by rewrite dir_entries_short by (unfold ENT_SIZE; simpl; lia).
Qed.

Lemma dir_entries_wf s e : e ∈ dir_entries s -> wf_ent e.
Proof.
  remember (length s) as n eqn:Hn. revert s Hn.
  induction n as [n IH] using lt_wf_ind. intros s ->.
  rewrite dir_entries_unfold.
  destruct (fread 4 s) as [[ib s1]|] eqn:E1; [|by intros ?%elem_of_nil].
  destruct (fread NAME_LEN s1) as [[nm s2]|] eqn:E2; [|by intros ?%elem_of_nil].
  apply fread_Some in E1 as [-> L1]. apply fread_Some in E2 as [-> L2].
  rewrite elem_of_cons. intros [->|H].
  - split; [apply u32_of_bytes_range|done].
  - eapply IH; [|reflexivity|exact H]. rewrite !length_app. lia.
Qed.

(** the search loop returns the first record with the key *)
Lemma dir_find_loop_find fuel key s :
  (length s <= fuel)%nat ->
  dir_find_loop fuel key s
  = find (fun e => bool_decide (name e = key)) (dir_entries s).
Proof.
  revert s. induction fuel as [|fuel IH]; intros s H.
  - destruct s; [done|simpl in H; lia].
  - rewrite dir_entries_unfold. cbn [dir_find_loop].
    destruct (fread 4 s) as [[ib s1]|] eqn:E1; [|done].
    destruct (fread NAME_LEN s1) as [[nm s2]|] eqn:E2; [|done].
    cbn [find name]. destruct (bool_decide (nm = key)); [done|].
    apply IH. apply fread_Some in E1 as [-> L1]. apply fread_Some in E2 as [-> L2].
    rewrite !length_app in H. lia.
Qed.

(** ** The inode table *)

Lemma slot_lookup t i s : t !! Z.to_nat i = Some s -> slot t i = s.
Proof. unfold slot. by intros ->. Qed.

Lemma length_mark_used t p : length (mark_used t p) = length t.
Proof. unfold mark_used. by rewrite !length_alter. Qed.

Lemma length_rollback t i : length (rollback t i) = length t.
Proof. unfold rollback. by rewrite length_alter. Qed.

Lemma mark_used_insert t i c :
  mark_used t (i, c) = <[Z.to_nat i := mkInodeInfo 1 c]> t.
Proof.
  unfold mark_used. cbn [fst snd]. rewrite list_alter_alter_eq.
  rewrite list_insert_alter. by apply list_alter_ext.
Qed.

Lemma slot_mark_used_eq t i c :
  (Z.to_nat i < length t)%nat -> slot (mark_used t (i, c)) i = mkInodeInfo 1 c.
Proof.
  intros H. rewrite mark_used_insert. unfold slot.
  by rewrite list_lookup_insert_eq.
Qed.

Lemma slot_mark_used_ne t i c j :
  Z.to_nat i <> Z.to_nat j -> slot (mark_used t (i, c)) j = slot t j.
Proof.
  intros H. rewrite mark_used_insert. unfold slot.
  by rewrite list_lookup_insert_ne.
Qed.

Lemma slot_rollback_eq t i :
  slot (rollback t i) i = mkInodeInfo 0 (type (slot t i)).
Proof.
  unfold slot, rollback. rewrite list_lookup_alter_eq.
  by destruct (t !! Z.to_nat i).
Qed.

Lemma slot_rollback_ne t i j :
  Z.to_nat i <> Z.to_nat j -> slot (rollback t i) j = slot t j.
Proof.
  intros H. unfold slot, rollback. by rewrite list_lookup_alter_ne.
Qed.

(** the scan of [find_free_inode] *)
Lemma find_free_loop_spec n i t :
  0 <= i ->
  let r := find_free_loop n i t in
  (r = -1 /\ forall j, i <= j < i + Z.of_nat n -> used (slot t j) <> 0)
  \/ (i <= r < i + Z.of_nat n /\ used (slot t r) = 0
      /\ forall j, i <= j < r -> used (slot t j) <> 0).
Proof.
  revert i. induction n as [|n IH]; intros i Hi; cbn [find_free_loop].
  - left. split; [done|]. intros j Hj. lia.
  - destruct (Z.eqb_spec (used (slot t i)) 0) as [E|E].
    + right. split; [lia|]. split; [done|]. intros j Hj. lia.
    + destruct (IH (i + 1) ltac:(lia)) as [[Hr Hall]|(Hr & Hfree & Hall)].
      * left. split; [done|]. intros j Hj.
        destruct (decide (j = i)) as [->|]; [done|]. apply Hall. lia.
      * right. split; [lia|]. split; [done|]. intros j Hj.
        destruct (decide (j = i)) as [->|]; [done|]. apply Hall. lia.
Qed.

Lemma find_free_range t :
  let r := find_free_loop (Z.to_nat MAX_INODES) 0 t in
  r = -1 \/ (0 <= r < MAX_INODES /\ used (slot t r) = 0).
Proof.
  destruct (find_free_loop_spec (Z.to_nat MAX_INODES) 0 t ltac:(lia))
    as [[Hr _]|(Hr & Hfree & _)]; [by left|right].
  split; [|done]. rewrite Z2Nat.id in Hr by (unfold MAX_INODES; lia). lia.
Qed.

(** *** Used pairs *)

Lemma used_from_reloaded k t : used_from k (map reloaded t) = used_from k t.
Proof.
  revert k. induction t as [|s t IH]; intros k; [done|].
  cbn [map used_from]. rewrite IH. f_equal.
  unfold reloaded, is_used. destruct (used s =? 0); reflexivity.
Qed.

Lemma used_pairs_reloaded t t' :
  map reloaded t = map reloaded t' -> used_pairs t = used_pairs t'.
Proof.
  intros H. unfold used_pairs.
  by rewrite <- (used_from_reloaded 0 t), H, used_from_reloaded.
Qed.

Lemma used_from_app k t1 t2 :
  used_from k (t1 ++ t2) = used_from k t1 ++ used_from (k + Z.of_nat (length t1)) t2.
Proof.
  revert k. induction t1 as [|s t1 IH]; intros k.
  - cbn [app used_from length]. by rewrite Z.add_0_r.
  - cbn [app used_from length]. rewrite IH, <- app_assoc. do 3 f_equal. lia.
Qed.

Lemma elem_of_used_from k t i c :
  (i, c) ∈ used_from k t <->
  exists n s, t !! n = Some s /\ i = k + Z.of_nat n /\ is_used s = true /\ type s = c.
Proof.
  revert k. induction t as [|s t IH]; intros k; cbn [used_from].
  - split; [by intros ?%elem_of_nil|]. by intros (n & s & ? & _).
  - rewrite elem_of_app, IH. split.
    + intros [H|(n & s' & Hn & -> & Hu & Hc)].
      * destruct (is_used s) eqn:E; [|by apply elem_of_nil in H].
        apply list_elem_of_singleton in H as [= -> ->].
        exists O, s. repeat split; [lia|done].
      * exists (S n), s'. repeat split; [done|lia|done|done].
    + intros (n & s' & Hn & -> & Hu & Hc). destruct n as [|n].
      * injection Hn as ->. left. rewrite Hu, Hc, Z.add_0_r.
        apply list_elem_of_here.
      * right. exists n, s'. repeat split; [done|lia|done|done].
Qed.

Lemma elem_of_used_pairs t i c :
  (i, c) ∈ used_pairs t <->
  0 <= i /\ exists s, t !! Z.to_nat i = Some s /\ is_used s = true /\ type s = c.
Proof.
  unfold used_pairs. rewrite elem_of_used_from. split.
  - intros (n & s & Hn & -> & Hu & Hc). split; [lia|].
    exists s. rewrite Z.add_0_l, Nat2Z.id. done.
  - intros (Hi & s & Hn & Hu & Hc). exists (Z.to_nat i), s.
    repeat split; [done|lia|done|done].
Qed.

Lemma used_from_bound k t i c : (i, c) ∈ used_from k t -> k <= i.
Proof. rewrite elem_of_used_from. intros (n & s & _ & -> & _). lia. Qed.

Lemma NoDup_used_from k t : NoDup (used_from k t).*1.
Proof.
  revert k. induction t as [|s t IH]; intros k; cbn [used_from].
  - constructor.
  - destruct (is_used s); cbn [app fmap list_fmap fst]; [|apply IH].
    constructor; [|apply IH].
    rewrite list_elem_of_fmap. intros ([i c] & Hk & Hin). simpl in Hk. subst i.
    apply used_from_bound in Hin. lia.
Qed.

(** ** Files and the operations on them *)

Lemma content_insert_eq fs f x : content (<[f := x]> fs) f = x.
Proof. unfold content. by rewrite lookup_insert_eq. Qed.

Lemma content_insert_ne fs f g x : f <> g -> content (<[f := x]> fs) g = content fs g.
Proof. intros H. unfold content. by rewrite lookup_insert_ne. Qed.

Lemma fname_of_inj i j : 0 <= i -> 0 <= j -> fname_of i = fname_of j -> i = j.
Proof.
  unfold fname_of. intros Hi Hj H. apply (inj pretty) in H. lia.
Qed.

Section Operations.

Variable ok : mode -> string -> bool.

Lemma dir_find_eq dir nm w :
  dir_find ok dir nm w = (dir_listing ok w dir ≫= find (named nm), w).
Proof.
  unfold dir_find, dir_listing, bind, ret, fopen_rb.
  destruct (ok RB (fname_of dir)); [|done].
  destruct (files w !! fname_of dir) as [s|]; [|done].
  cbn. by rewrite dir_find_loop_find.
Qed.

Lemma dir_append_eq dir child nm w :
  dir_append ok dir child nm w =
  if ok AB (fname_of dir)
  then (true, set_files (<[fname_of dir :=
          content (files w) (fname_of dir)
          ++ enc_ent (mkDirEnt child (make_name32 nm))]> (files w)) w)
  else (false, w).
Proof.
  unfold dir_append, bind, ret, fopen_ab, fwrite.
  destruct (ok AB (fname_of dir)); [|done].
  cbn. unfold set_files. cbn. rewrite !content_insert_eq, !insert_insert_eq.
  unfold enc_ent. cbn. by rewrite <- app_assoc.
Qed.

Lemma create_dir_inode_eq new parent w :
  create_dir_inode ok new parent w =
  if ok WB (fname_of new)
  then (true, set_files (<[fname_of new :=
          enc_ent (mkDirEnt new (make_name32 (bytes ".")))
          ++ enc_ent (mkDirEnt parent (make_name32 (bytes "..")))]> (files w)) w)
  else (false, w).
Proof.
  unfold create_dir_inode, bind, ret, fopen_wb, fwrite.
  destruct (ok WB (fname_of new)); [|done].
  cbn. unfold set_files. cbn. rewrite !content_insert_eq, !insert_insert_eq.
  unfold enc_ent. cbn [inode name]. by rewrite <- !app_assoc.
Qed.

Lemma create_file_inode_eq new nm w :
  create_file_inode ok new nm w =
  if ok WB (fname_of new)
  then (true, set_files (<[fname_of new :=
          take (name_len NAME_LEN (make_name32 nm)) (make_name32 nm)]>
          (files w)) w)
  else (false, w).
Proof.
  unfold create_file_inode, bind, ret, fopen_wb, fwrite.
  destruct (ok WB (fname_of new)); [|done].
  cbn. unfold set_files. cbn. by rewrite !content_insert_eq, !insert_insert_eq.
Qed.


End Operations.

Ltac creation_steps :=
  unfold lazy_or, mnot, bind, ret;
  first [rewrite create_dir_inode_eq | rewrite create_file_inode_eq];
  match goal with |- context [if ?o WB ?f then _ else _] => destruct (o WB f) end;
  cbv beta iota delta [negb];
  [rewrite dir_append_eq;
   match goal with |- context [if ?o AB ?f then _ else _] => destruct (o AB f) end|];
  reflexivity.

Section Commands.

Variable ok : mode -> string -> bool.

Lemma find_free_inode_eq w :
  find_free_inode w
  = (find_free_loop (Z.to_nat MAX_INODES) 0 (inode_table w), w).
Proof. reflexivity. Qed.

Lemma mark_steps i c w :
  (set_used i 1 ;;; set_type i c) w
  = (tt, set_table (mark_used (inode_table w) (i, c)) w).
Proof. reflexivity. Qed.

Lemma cmd_mkdir_eq cwd nm w :
  cmd_mkdir ok cwd nm w =
  match dir_listing ok w cwd ≫= find (named nm) with
  | Some _ => (tt, log (Stderr ("mkdir: already exists" +:+ nl)) w)
  | None =>
      let i := find_free_loop (Z.to_nat MAX_INODES) 0 (inode_table w) in
      if i <? 0 then (tt, log (Stderr ("mkdir: no free inodes" +:+ nl)) w)
      else (tt, created ok w cwd i ch_d (dir_stream i cwd) nm)
  end.
Proof.
  unfold cmd_mkdir. unfold bind at 1. rewrite dir_find_eq.
  destruct (dir_listing ok w cwd ≫= find (named nm)); [done|].
  unfold bind at 1. rewrite find_free_inode_eq. cbv zeta.
  pose proof (find_free_range (inode_table w)) as Hr. cbv zeta in Hr.
  destruct (Z.ltb_spec (find_free_loop (Z.to_nat MAX_INODES) 0 (inode_table w)) 0)
    as [Hneg|Hpos]; [done|].
  destruct Hr as [Hr|[Hr _]]; [lia|]. rewrite (u32_small _ Hr).
  generalize dependent (find_free_loop (Z.to_nat MAX_INODES) 0 (inode_table w)).
  intros i _ _.
  unfold bind at 1. unfold set_used at 1. unfold bind at 1. unfold set_type at 1.
  unfold created. fold (mark_used (inode_table w) (i, ch_d)).
  creation_steps.
Qed.

Lemma cmd_touch_eq cwd nm w :
  cmd_touch ok cwd nm w =
  match dir_listing ok w cwd ≫= find (named nm) with
  | Some _ => (tt, w)
  | None =>
      let i := find_free_loop (Z.to_nat MAX_INODES) 0 (inode_table w) in
      if i <? 0 then (tt, log (Stderr ("touch: no free inodes" +:+ nl)) w)
      else (tt, created ok w cwd i ch_f (file_stream nm) nm)
  end.
Proof.
  unfold cmd_touch. unfold bind at 1. rewrite dir_find_eq.
  destruct (dir_listing ok w cwd ≫= find (named nm)); [done|].
  unfold bind at 1. rewrite find_free_inode_eq. cbv zeta.
  pose proof (find_free_range (inode_table w)) as Hr. cbv zeta in Hr.
  destruct (Z.ltb_spec (find_free_loop (Z.to_nat MAX_INODES) 0 (inode_table w)) 0)
    as [Hneg|Hpos]; [done|].
  destruct Hr as [Hr|[Hr _]]; [lia|]. rewrite (u32_small _ Hr).
  generalize dependent (find_free_loop (Z.to_nat MAX_INODES) 0 (inode_table w)).
  intros i _ _.
  unfold bind at 1. unfold set_used at 1. unfold bind at 1. unfold set_type at 1.
  unfold created. fold (mark_used (inode_table w) (i, ch_f)).
  creation_steps.
Qed.

Lemma cmd_cd_eq cwd nm w :
  cmd_cd ok cwd nm w =
  match dir_listing ok w cwd ≫= find (named nm) with
  | None => (cwd, log (Stderr ("cd: no such directory" +:+ nl)) w)
  | Some ent =>
      let s := slot (inode_table w) (inode ent) in
      if (MAX_INODES <=? inode ent) || (used s =? 0)
         || negb (bool_decide (type s = ch_d))
      then (cwd, log (Stderr ("cd: not a directory" +:+ nl)) w)
      else (inode ent, w)
  end.
Proof.
  unfold cmd_cd. unfold bind at 1. rewrite dir_find_eq.
  destruct (dir_listing ok w cwd ≫= find (named nm)) as [ent|]; [|done].
  unfold bind, get_slot. cbv zeta.
  by destruct (_ || _ || _).
Qed.

Lemma set_out_id w : set_out (out w) w = w.
Proof. by destruct w. Qed.

Lemma ls_loop_eq fuel s w :
  (length s <= fuel)%nat ->
  ls_loop fuel s w = (tt, set_out (out w ++ map ls_line (dir_entries s)) w).
Proof.
  revert s w. induction fuel as [|fuel IH]; intros s w H.
  - destruct s; [|simpl in H; lia]. cbn. by rewrite app_nil_r, set_out_id.
  - rewrite dir_entries_unfold. cbn [ls_loop].
    destruct (fread 4 s) as [[ib s1]|] eqn:E1;
      [|cbn; by rewrite app_nil_r, set_out_id].
    destruct (fread NAME_LEN s1) as [[nm s2]|] eqn:E2;
      [|cbn; by rewrite app_nil_r, set_out_id].
    apply fread_Some in E1 as [-> L1]. apply fread_Some in E2 as [-> L2].
    rewrite !length_app in H.
    unfold bind, print, emit. cbv beta iota. rewrite IH by lia.
    unfold set_out. cbn [out inode_table files map].
    by rewrite <- app_assoc.
Qed.

Lemma cmd_ls_eq cwd w :
  cmd_ls ok cwd w =
  match dir_listing ok w cwd with
  | None => (tt, log (Perror "ls") w)
  | Some es => (tt, set_out (out w ++ map ls_line es) w)
  end.
Proof.
  unfold cmd_ls, dir_listing, bind, fopen_rb.
  destruct (ok RB (fname_of cwd)); [|done].
  destruct (files w !! fname_of cwd) as [s|]; [|done].
  cbn [fmap option_fmap option_map]. by apply ls_loop_eq.
Qed.

End Commands.

(** ** Allocation *)

Lemma forallb_is_used_slot t j :
  (Z.to_nat j < length t)%nat -> forallb is_used t = true ->
  used (slot t j) <> 0.
Proof.
  intros Hj Hall. destruct (lookup_lt_is_Some_2 t _ Hj) as [s Hs].
  rewrite (slot_lookup _ _ _ Hs).
  rewrite forallb_forall in Hall.
  specialize (Hall s). unfold is_used in Hall.
  destruct (Z.eqb_spec (used s) 0) as [E|E]; [|done].
  exfalso. enough (false = true) by done. apply Hall.
  apply list_elem_of_In. by eapply list_elem_of_lookup_2.
Qed.

Lemma find_free_full t :
  table_ok t -> forallb is_used t = true ->
  find_free_loop (Z.to_nat MAX_INODES) 0 t = -1.
Proof.
  intros Hlen Hall.
  destruct (find_free_loop_spec (Z.to_nat MAX_INODES) 0 t ltac:(lia))
    as [[Hr _]|(Hr & Hfree & _)]; [done|].
  exfalso. revert Hfree. apply forallb_is_used_slot; [|done].
  rewrite Hlen. lia.
Qed.

Lemma fresh_in_find ok w dir nm :
  fresh_in w dir nm = true -> dir_listing ok w dir ≫= find (named nm) = None.
Proof.
  unfold fresh_in, dir_listing, content. intros H.
  destruct (ok RB (fname_of dir)); [|done].
  destruct (files w !! fname_of dir) as [s|]; [|done].
  cbn [default from_option id fmap option_fmap option_map mbind option_bind] in *.
  induction (dir_entries s) as [|e es IH]; [done|].
  cbn [forallb find] in *. apply andb_true_iff in H as [He Hes].
  destruct (named nm e); [done|]. by apply IH.
Qed.

(** C8: [find_free_inode] scans the table from index 0 and returns the first
    free slot, and -1 (none) when no slot below 1024 is free; with all 1024
    slots used, [mkdir] of a fresh name prints "mkdir: no free inodes" and
    leaves the table, hence its used slots, and the files as they were. *)
Theorem find_free_first_fit ok cwd nm w :
  let t := inode_table w in
  let r := (find_free_inode w).1 in
  ((r = -1 /\ forall j, 0 <= j < MAX_INODES -> used (slot t j) <> 0)
   \/ (0 <= r < MAX_INODES /\ used (slot t r) = 0
       /\ forall j, 0 <= j < r -> used (slot t j) <> 0))
  /\ (table_ok t -> forallb is_used t = true ->
      r = -1
      /\ (fresh_in w cwd nm = true ->
          let w' := (cmd_mkdir ok cwd nm w).2 in
          out w' = out w ++ [Stderr ("mkdir: no free inodes" +:+ nl)]
          /\ inode_table w' = inode_table w
          /\ used_pairs (inode_table w') = used_pairs (inode_table w)
          /\ files w' = files w)).
Proof.
  cbv zeta. rewrite find_free_inode_eq. cbn [fst]. split.
  - destruct (find_free_loop_spec (Z.to_nat MAX_INODES) 0 (inode_table w)
                ltac:(lia)) as [[Hr Hall]|(Hr & Hfree & Hall)].
    + left. split; [done|]. intros j Hj. apply Hall.
      rewrite Z2Nat.id by (unfold MAX_INODES; lia). lia.
    + right. rewrite Z2Nat.id in Hr by (unfold MAX_INODES; lia).
      split; [lia|]. by split.
  - intros Hlen Hall. pose proof (find_free_full _ Hlen Hall) as Hfull.
    split; [done|]. intros Hfresh.
    rewrite cmd_mkdir_eq, (fresh_in_find _ _ _ _ Hfresh). cbv zeta.
    rewrite Hfull. done.
Qed.

Lemma find_free_first_fit_witness :
  (find_free_inode full_world).1 = -1
  /\ out (cmd_mkdir all_ok 0 (bytes "x") full_world).2
     = [Stderr ("mkdir: no free inodes" +:+ nl)]
  /\ (find_free_inode root_only).1 = 1.
Proof.
  pose proof (find_free_first_fit all_ok 0 (bytes "x") full_world) as [_ H].
  destruct H as [Hr Hm]; [reflexivity|vm_compute; reflexivity|].
  split; [exact Hr|]. split.
  - destruct Hm as [Ho _]; [vm_compute; reflexivity|exact Ho].
  - pose proof (find_free_first_fit all_ok 0 (bytes "x") root_only) as [H _].
    destruct H as [[H _]|(_ & _ & H)]; [vm_compute in H; discriminate H|].
    vm_compute. reflexivity.
Defined.

(** ** Changing directory *)

Lemma find_first {A} (P : A -> bool) pre e post :
  Forall (fun x => P x = false) pre -> P e = true ->
  find P (pre ++ e :: post) = Some e.
Proof.
  intros Hpre He. induction Hpre as [|x pre Hx _ IH]; cbn [app find].
  - by rewrite He.
  - by rewrite Hx.
Qed.

Lemma find_absent {A} (P : A -> bool) es :
  Forall (fun x => P x = false) es -> find P es = None.
Proof.
  intros H. induction H as [|x es Hx _ IH]; cbn [find]; [done|].
  by rewrite Hx.
Qed.

(** C2: [cd] on a name that the search of the current directory's stream
    does not find prints "cd: no such directory"; on a name whose first
    matching entry has an inode id of 1024 or more, a free slot or a slot
    whose type is not ['d'], it prints "cd: not a directory"; in both cases
    cwd and the rest of the world stay as they were; otherwise cwd becomes
    the entry's inode id. *)
Theorem cd_outcomes ok cwd nm w :
  let key := make_name32 nm in
  let t := inode_table w in
  let r := cmd_cd ok cwd nm w in
  ((forall es, dir_listing ok w cwd = Some es ->
               Forall (fun e => name e <> key) es) ->
   r = (cwd, log (Stderr ("cd: no such directory" +:+ nl)) w))
  /\ (forall pre e post,
        dir_listing ok w cwd = Some (pre ++ e :: post) ->
        Forall (fun e' => name e' <> key) pre -> name e = key ->
        (MAX_INODES <= inode e \/ used (slot t (inode e)) = 0
         \/ type (slot t (inode e)) <> ch_d ->
         r = (cwd, log (Stderr ("cd: not a directory" +:+ nl)) w))
        /\ (inode e < MAX_INODES -> used (slot t (inode e)) <> 0 ->
            type (slot t (inode e)) = ch_d ->
            r = (inode e, w))).
Proof.
  cbv zeta. rewrite cmd_cd_eq. split.
  - intros Hnone. destruct (dir_listing ok w cwd) as [es|]; [|done].
    cbn [mbind option_bind]. rewrite find_absent; [done|].
    eapply Forall_impl; [by apply Hnone|]. intros e He. unfold named.
    by apply bool_decide_eq_false.
  - intros pre e post -> Hpre He. cbn [mbind option_bind].
    rewrite (find_first (named nm) pre e post); cycle 1.
    { eapply Forall_impl; [exact Hpre|]. intros e' He'. unfold named.
      by apply bool_decide_eq_false. }
    { unfold named. by apply bool_decide_eq_true. }
    cbv zeta. split.
    + intros Hbad.
      destruct (Z.leb_spec MAX_INODES (inode e)) as [|Hlt]; [done|].
      destruct (Z.eqb_spec (used (slot (inode_table w) (inode e))) 0)
        as [|Hu]; [done|].
      destruct Hbad as [?|[?|Hty]]; [lia|done|].
      by rewrite (bool_decide_eq_false_2 _ Hty).
    + intros Hlt Hu Hty.
      destruct (Z.leb_spec MAX_INODES (inode e)); [lia|].
      destruct (Z.eqb_spec (used (slot (inode_table w) (inode e))) 0); [done|].
      by rewrite (bool_decide_eq_true_2 _ Hty).
Qed.

Lemma cd_outcomes_witness :
  cmd_cd all_ok 0 (bytes "nope") demo_tree
  = (0, log (Stderr ("cd: no such directory" +:+ nl)) demo_tree)
  /\ cmd_cd all_ok 0 (bytes "f") demo_tree
     = (0, log (Stderr ("cd: not a directory" +:+ nl)) demo_tree)
  /\ cmd_cd all_ok 0 (bytes "a") demo_tree = (1, demo_tree).
Proof.
  split; [|split].
  - apply (proj1 (cd_outcomes all_ok 0 (bytes "nope") demo_tree)).
    intros es H. vm_compute in H. injection H as <-.
    repeat constructor; discriminate.
  - refine (proj1 (proj2 (cd_outcomes all_ok 0 (bytes "f") demo_tree)
              (take 3 demo_entries) (mkDirEnt 2 (make_name32 (bytes "f")))
              (drop 4 demo_entries) _ _ _) _).
    + vm_compute. reflexivity.
    + vm_compute. repeat constructor; discriminate.
    + reflexivity.
    + right. right. vm_compute. discriminate.
  - refine (proj2 (proj2 (cd_outcomes all_ok 0 (bytes "a") demo_tree)
              (take 2 demo_entries) (mkDirEnt 1 (make_name32 (bytes "a")))
              (drop 3 demo_entries) _ _ _) _ _ _).
    + vm_compute. reflexivity.
    + vm_compute. repeat constructor; discriminate.
    + reflexivity.
    + reflexivity.
    + vm_compute. discriminate.
    + vm_compute. reflexivity.
Defined.

(** ** Creation and its rollback *)

Section Creation.

Variable ok : mode -> string -> bool.
Variables (w : world) (cwd i : Z) (c : byte) (new nm : list byte).

Lemma created_table_fail :
  ok WB (fname_of i) = false \/ ok AB (fname_of cwd) = false ->
  inode_table (created ok w cwd i c new nm)
  = rollback (mark_used (inode_table w) (i, c)) i.
Proof.
  unfold created.
  destruct (ok WB (fname_of i)), (ok AB (fname_of cwd)); intros [?|?]; done.
Qed.

Lemma created_files_nocreate :
  ok WB (fname_of i) = false -> files (created ok w cwd i c new nm) = files w.
Proof. unfold created. by intros ->. Qed.

Lemma created_out : out (created ok w cwd i c new nm) = out w.
Proof.
  unfold created. by destruct (ok WB (fname_of i)), (ok AB (fname_of cwd)).
Qed.

Lemma created_ok :
  ok WB (fname_of i) = true -> ok AB (fname_of cwd) = true ->
  created ok w cwd i c new nm = committed w cwd i c new nm.
Proof. unfold created, committed. by intros -> ->. Qed.

End Creation.

Lemma rollback_mark_reloaded t i c :
  used (slot t i) = 0 ->
  map reloaded (rollback (mark_used t (i, c)) i) = map reloaded t.
Proof.
  intros Hfree. apply list_eq. intros n.
  change (map reloaded) with (fmap (M:=list) reloaded).
  rewrite !list_lookup_fmap. unfold rollback. rewrite mark_used_insert.
  destruct (decide (n = Z.to_nat i)) as [->|Hn].
  - rewrite list_lookup_alter_eq. unfold slot in Hfree.
    destruct (t !! Z.to_nat i) as [s|] eqn:E.
    + rewrite list_lookup_insert_eq by (by eapply lookup_lt_Some).
      cbn in *. unfold reloaded, is_used. cbn. by rewrite Hfree.
    + rewrite list_insert_ge by (by apply lookup_ge_None). by rewrite E.
  - rewrite list_lookup_alter_ne by done. by rewrite list_lookup_insert_ne.
Qed.

Lemma rollback_mark_slot_ne t i c j :
  0 <= i -> 0 <= j -> j <> i ->
  slot (rollback (mark_used t (i, c)) i) j = slot t j.
Proof.
  intros Hi Hj Hne. rewrite slot_rollback_ne, slot_mark_used_ne by lia. done.
Qed.

Lemma rollback_mark_slot_eq t i c :
  used (slot (rollback (mark_used t (i, c)) i) i) = 0.
Proof. by rewrite slot_rollback_eq. Qed.

(** C5: when [mkdir] or [touch] has allocated slot [i] and the creation of
    the new backing stream or the append to the parent's stream fails, slot
    [i] is free again when the command returns, every other slot is as it
    was, and so are the used [(index, type)] pairs; when it is the creation
    of the backing stream that fails, no file of the storage root has
    changed, so nothing was appended to the parent. *)
Theorem failed_creation_rolls_back ok cwd nm w :
  let t := inode_table w in
  let i := (find_free_inode w).1 in
  (dir_find ok cwd nm w).1 = None ->
  0 <= i ->
  ok WB (fname_of i) = false \/ ok AB (fname_of cwd) = false ->
  forall w',
    w' = (cmd_mkdir ok cwd nm w).2 \/ w' = (cmd_touch ok cwd nm w).2 ->
    used (slot (inode_table w') i) = 0
    /\ (forall j, 0 <= j -> j <> i -> slot (inode_table w') j = slot t j)
    /\ used_pairs (inode_table w') = used_pairs t
    /\ (ok WB (fname_of i) = false -> files w' = files w).
Proof.
  cbv zeta. rewrite find_free_inode_eq, dir_find_eq. cbn [fst].
  intros Hnone Hi Hfail w' Hw'.
  pose proof (find_free_range (inode_table w)) as Hr. cbv zeta in Hr.
  destruct Hr as [Hr|[_ Hfree]]; [lia|].
  assert (exists c new, w' = created ok w cwd
            (find_free_loop (Z.to_nat MAX_INODES) 0 (inode_table w)) c new nm)
    as (c & new & ->).
  { destruct Hw' as [->| ->].
    - rewrite cmd_mkdir_eq, Hnone. cbv zeta.
      destruct (Z.ltb_spec (find_free_loop (Z.to_nat MAX_INODES) 0 (inode_table w)) 0);
        [lia|]. by eexists _, _.
    - rewrite cmd_touch_eq, Hnone. cbv zeta.
      destruct (Z.ltb_spec (find_free_loop (Z.to_nat MAX_INODES) 0 (inode_table w)) 0);
        [lia|]. by eexists _, _. }
  rewrite created_table_fail by done.
  split; [apply rollback_mark_slot_eq|].
  split; [intros j Hj Hne; by apply rollback_mark_slot_ne|].
  split; [by apply used_pairs_reloaded, rollback_mark_reloaded|].
  apply created_files_nocreate.
Qed.

Lemma failed_creation_rolls_back_witness :
  used_pairs (inode_table (cmd_mkdir no_create 0 (bytes "a") root_only).2)
  = used_pairs (inode_table root_only)
  /\ files (cmd_mkdir no_create 0 (bytes "a") root_only).2 = files root_only
  /\ used (slot (inode_table (cmd_touch no_append 0 (bytes "a") root_only).2) 1) = 0.
Proof.
  split; [|split].
  - refine (proj1 (proj2 (proj2 (failed_creation_rolls_back no_create 0
              (bytes "a") root_only _ _ _ _ (or_introl eq_refl))))).
    + vm_compute. reflexivity.
    + vm_compute. discriminate.
    + left. reflexivity.
  - refine (proj2 (proj2 (proj2 (failed_creation_rolls_back no_create 0
              (bytes "a") root_only _ _ _ _ (or_introl eq_refl)))) _).
    + vm_compute. reflexivity.
    + vm_compute. discriminate.
    + left. reflexivity.
    + reflexivity.
  - refine (proj1 (failed_creation_rolls_back no_append 0
              (bytes "a") root_only _ _ _ _ (or_intror eq_refl))).
    + vm_compute. reflexivity.
    + vm_compute. discriminate.
    + right. reflexivity.
Defined.

(** ** Creating a directory *)

Lemma dir_entries_dir_stream new parent :
  0 <= new < 4294967296 -> 0 <= parent < 4294967296 ->
  dir_entries (dir_stream new parent)
  = [mkDirEnt new (make_name32 (bytes "."));
     mkDirEnt parent (make_name32 (bytes ".."))].
Proof.
  intros Hn Hp. unfold dir_stream.
  rewrite dir_entries_cons by (split; [done|apply make_name32_length]).
  rewrite <- (app_nil_r (enc_ent (mkDirEnt parent _))).
  rewrite dir_entries_cons by (split; [done|apply make_name32_length]).
  by rewrite dir_entries_short by (unfold ENT_SIZE; simpl; lia).
Qed.

Lemma used_slot_in_range t j :
  table_ok t -> 0 <= j -> used (slot t j) <> 0 -> j < MAX_INODES.
Proof.
  unfold table_ok, slot. intros Hlen Hj Hu.
  destruct (t !! Z.to_nat j) as [s|] eqn:E; [|done].
  apply lookup_lt_Some in E. unfold MAX_INODES in *. lia.
Qed.

Lemma fresh_in_Forall w dir nm :
  fresh_in w dir nm = true ->
  Forall (fun e => named nm e = false)
         (dir_entries (content (files w) (fname_of dir))).
Proof.
  unfold fresh_in. rewrite forallb_forall, Forall_forall.
  intros H e He. apply negb_true_iff, H. by apply list_elem_of_In.
Qed.

Section AfterCreation.

Variables (w : world) (cwd i : Z) (c : byte) (new nm : list byte).
Hypothesis Hcwd : 0 <= cwd.
Hypothesis Hi : 0 <= i < MAX_INODES.
Hypothesis Hne : i <> cwd.


Lemma fname_ne : fname_of i <> fname_of cwd.
Proof. intros H. apply fname_of_inj in H; lia. Qed.

Lemma after_creation_new : files (committed w cwd i c new nm) !! fname_of i = Some new.
Proof.
  unfold committed, appended. cbn [files].
  rewrite lookup_insert_ne by (apply not_eq_sym, fname_ne).
  apply lookup_insert_eq.
Qed.

Lemma after_creation_parent :
  files (committed w cwd i c new nm) !! fname_of cwd
  = Some (content (files w) (fname_of cwd)
          ++ enc_ent (mkDirEnt i (make_name32 nm))).
Proof.
  unfold committed, appended. cbn [files]. rewrite lookup_insert_eq.
  by rewrite content_insert_ne by apply fname_ne.
Qed.

Lemma after_creation_other f :
  f <> fname_of i -> f <> fname_of cwd -> files (committed w cwd i c new nm) !! f = files w !! f.
Proof.
  intros H1 H2. unfold committed, appended. cbn [files].
  by rewrite !lookup_insert_ne.
Qed.

Lemma after_creation_entries :
  aligned (content (files w) (fname_of cwd)) ->
  dir_entries (content (files (committed w cwd i c new nm)) (fname_of cwd))
  = dir_entries (content (files w) (fname_of cwd))
    ++ [mkDirEnt i (make_name32 nm)].
Proof.
  intros Ha. unfold content at 1. rewrite after_creation_parent.
  cbn [default from_option id]. apply dir_entries_snoc; [done|].
  split; [cbn; unfold MAX_INODES in Hi; lia|apply make_name32_length].
Qed.

Lemma after_creation_find ok :
  aligned (content (files w) (fname_of cwd)) ->
  fresh_in w cwd nm = true ->
  ok RB (fname_of cwd) = true ->
  dir_listing ok (committed w cwd i c new nm) cwd ≫= find (named nm)
  = Some (mkDirEnt i (make_name32 nm)).
Proof.
  intros Ha Hfresh Hok. unfold dir_listing. rewrite Hok.
  pose proof (after_creation_entries Ha) as He. unfold content at 1 in He.
  destruct (files (committed w cwd i c new nm) !! fname_of cwd) as [s|] eqn:E;
    [|by rewrite after_creation_parent in E].
  cbn [default from_option id fmap option_fmap option_map mbind option_bind] in *.
  rewrite He. apply find_first; [by apply fresh_in_Forall|].
  unfold named. by apply bool_decide_eq_true.
Qed.

Lemma after_creation_slot :
  table_ok (inode_table w) -> slot (inode_table (committed w cwd i c new nm)) i = mkInodeInfo 1 c.
Proof.
  intros Hlen. unfold committed. cbn [inode_table]. apply slot_mark_used_eq.
  rewrite Hlen. unfold MAX_INODES in *. lia.
Qed.

End AfterCreation.

(** what a successful creation leaves: the allocated slot is in range,
    differs from a used [cwd], and the world is the one of [created_ok] *)
Lemma creation_succeeds cwd w :
  let i := find_free_loop (Z.to_nat MAX_INODES) 0 (inode_table w) in
  0 <= cwd -> used (slot (inode_table w) cwd) <> 0 ->
  0 <= i ->
  0 <= i < MAX_INODES /\ i <> cwd /\ (i <? 0) = false.
Proof.
  cbv zeta. intros Hcwd Hused Hi.
  pose proof (find_free_range (inode_table w)) as Hr. cbv zeta in Hr.
  destruct Hr as [Hr|[Hr Hfree]]; [lia|].
  split; [done|]. split; [congruence|]. lia.
Qed.

(** C3: a successful [mkdir] of a fresh name from a used directory [cwd]
    leaves in the new inode's backing stream exactly the two records
    [(new id, ".")] and [(cwd, "..")], in this order; when the stream of
    [cwd] holds whole records and can be read, [cd] to the name then moves
    to the new inode and [ls] there prints exactly these two entries. *)
Theorem mkdir_self_links ok1 ok2 ok3 cwd nm w :
  let i := (find_free_inode w).1 in
  let dot := mkDirEnt i (make_name32 (bytes ".")) in
  let dotdot := mkDirEnt cwd (make_name32 (bytes "..")) in
  table_ok (inode_table w) ->
  0 <= cwd -> used (slot (inode_table w) cwd) <> 0 ->
  fresh_in w cwd nm = true ->
  0 <= i ->
  ok1 WB (fname_of i) = true -> ok1 AB (fname_of cwd) = true ->
  let w1 := (cmd_mkdir ok1 cwd nm w).2 in
  files w1 !! fname_of i = Some (enc_ent dot ++ enc_ent dotdot)
  /\ dir_entries (content (files w1) (fname_of i)) = [dot; dotdot]
  /\ (aligned (content (files w) (fname_of cwd)) ->
      ok2 RB (fname_of cwd) = true -> ok3 RB (fname_of i) = true ->
      let r2 := cmd_cd ok2 cwd nm w1 in
      let w3 := (cmd_ls ok3 r2.1 r2.2).2 in
      r2 = (i, w1)
      /\ out w3 = out w ++ [Stdout ((pretty (Z.to_N i) +:+ " .") +:+ nl);
                            Stdout ((pretty (Z.to_N cwd) +:+ " ..") +:+ nl)]).
Proof.
  cbv zeta. rewrite find_free_inode_eq. cbn [fst].
  intros Hlen Hcwd Hused Hfresh Hi Hwb Hab.
  destruct (creation_succeeds cwd w Hcwd Hused Hi) as (Hr & Hne & Hlt).
  pose proof (used_slot_in_range _ _ Hlen Hcwd Hused) as Hcwdlt.
  rewrite cmd_mkdir_eq, (fresh_in_find _ _ _ _ Hfresh). cbv zeta.
  rewrite Hlt. cbn [snd]. rewrite created_ok by done.
  generalize dependent (find_free_loop (Z.to_nat MAX_INODES) 0 (inode_table w)).
  intros i Hi Hwb Hr Hne _.
  assert (0 <= i < 4294967296) as Hi32 by (unfold MAX_INODES in Hr; lia).
  assert (0 <= cwd < 4294967296) as Hc32 by (unfold MAX_INODES in Hcwdlt; lia).
  pose proof (after_creation_new w cwd i ch_d (dir_stream i cwd) nm Hcwd Hr Hne)
    as Hnew.
  split; [exact Hnew|]. split.
  { unfold content. rewrite Hnew. by apply dir_entries_dir_stream. }
  intros Ha Hrb2 Hrb3.
  rewrite cmd_cd_eq.
  rewrite (after_creation_find w cwd i ch_d (dir_stream i cwd) nm Hcwd Hr Hne ok2)
    by done.
  cbv zeta. cbn [inode].
  rewrite (after_creation_slot w cwd i ch_d (dir_stream i cwd) nm Hr Hlen).
  cbn [used type].
  destruct (Z.leb_spec MAX_INODES i) as [|_]; [lia|].
  cbn [orb negb Z.eqb]. rewrite bool_decide_eq_true_2 by done. cbn [negb].
  split; [done|]. cbn [fst snd].
  rewrite cmd_ls_eq. unfold dir_listing. rewrite Hrb3, Hnew.
  cbn [fmap option_fmap option_map snd out].
  by rewrite dir_entries_dir_stream.
Qed.

Lemma mkdir_self_links_witness :
  let w1 := (cmd_mkdir all_ok 0 (bytes "d") root_only).2 in
  dir_entries (content (files w1) (fname_of 1))
  = [mkDirEnt 1 (make_name32 (bytes ".")); mkDirEnt 0 (make_name32 (bytes ".."))]
  /\ cmd_cd all_ok 0 (bytes "d") w1 = (1, w1)
  /\ out (cmd_ls all_ok 1 w1).2 = [Stdout ("1 ." +:+ nl); Stdout ("0 .." +:+ nl)].
Proof.
  pose proof (mkdir_self_links all_ok all_ok all_ok 0 (bytes "d") root_only
                ltac:(by_eval) ltac:(by_eval) ltac:(by_eval) ltac:(by_eval)
                ltac:(by_eval) ltac:(by_eval) ltac:(by_eval)) as (_ & He & H).
  pose proof (H ltac:(by_eval) ltac:(by_eval) ltac:(by_eval)) as [Hcd Hls].
  cbv zeta. split; [exact He|]. split; [exact Hcd|].
  rewrite Hcd in Hls. exact Hls.
Defined.

(** ** Creating a file *)

Lemma find_existsb {A} (P : A -> bool) es :
  existsb P es = true -> exists e, find P es = Some e.
Proof.
  induction es as [|x es IH]; cbn [existsb find]; [done|].
  destruct (P x); [by eexists|]. exact IH.
Qed.

Lemma filter_fresh {A} (P : A -> bool) es :
  Forall (fun x => P x = false) es -> List.filter P es = [].
Proof.
  intros H. induction H as [|x es Hx _ IH]; cbn [List.filter]; [done|].
  by rewrite Hx.
Qed.

(** C4: [touch] of a name that the search of the current directory finds
    returns without any output and leaves the inode table and every file as
    they were; hence after a successful [touch f] of a fresh name, a second
    [touch f] changes nothing and the directory holds exactly one entry
    named [f]. *)
Theorem touch_existing_noop :
  (forall ok cwd nm w es,
      dir_listing ok w cwd = Some es -> existsb (named nm) es = true ->
      cmd_touch ok cwd nm w = (tt, w))
  /\ (forall ok1 ok2 cwd nm w,
        let i := (find_free_inode w).1 in
        0 <= cwd -> used (slot (inode_table w) cwd) <> 0 ->
        aligned (content (files w) (fname_of cwd)) ->
        fresh_in w cwd nm = true ->
        0 <= i ->
        ok1 WB (fname_of i) = true -> ok1 AB (fname_of cwd) = true ->
        ok2 RB (fname_of cwd) = true ->
        let w1 := (cmd_touch ok1 cwd nm w).2 in
        let w2 := (cmd_touch ok2 cwd nm w1).2 in
        w2 = w1
        /\ List.filter (named nm)
             (dir_entries (content (files w2) (fname_of cwd)))
           = [mkDirEnt i (make_name32 nm)]).
Proof.
  split.
  - intros ok cwd nm w es Hes Hex. rewrite cmd_touch_eq, Hes.
    cbn [mbind option_bind].
    by destruct (find_existsb _ _ Hex) as [e ->].
  - intros ok1 ok2 cwd nm w. cbv zeta. rewrite find_free_inode_eq. cbn [fst].
    intros Hcwd Hused Ha Hfresh Hi Hwb Hab Hrb.
    destruct (creation_succeeds cwd w Hcwd Hused Hi) as (Hr & Hne & Hlt).
    rewrite (cmd_touch_eq ok1 cwd nm w), (fresh_in_find _ _ _ _ Hfresh).
    cbv zeta. rewrite Hlt. cbn [snd]. rewrite created_ok by done.
    generalize dependent (find_free_loop (Z.to_nat MAX_INODES) 0 (inode_table w)).
    intros i Hi Hwb Hr Hne _.
    rewrite cmd_touch_eq.
    rewrite (after_creation_find w cwd i ch_f (file_stream nm) nm Hcwd Hr Hne ok2)
      by done.
    cbn [snd]. split; [done|].
    rewrite (after_creation_entries w cwd i ch_f (file_stream nm) nm Hcwd Hr Hne)
      by done.
    rewrite List.filter_app, filter_fresh by (by apply fresh_in_Forall).
    cbn [app List.filter]. unfold named at 1. cbn [name].
    by rewrite bool_decide_eq_true_2.
Qed.

Lemma touch_existing_noop_witness :
  let w1 := (cmd_touch all_ok 0 (bytes "f") root_only).2 in
  cmd_touch all_ok 0 (bytes "f") w1 = (tt, w1)
  /\ List.filter (named (bytes "f"))
       (dir_entries (content (files (cmd_touch all_ok 0 (bytes "f") w1).2)
                             (fname_of 0)))
     = [mkDirEnt 1 (make_name32 (bytes "f"))].
Proof.
  cbv zeta. split.
  - refine (proj1 touch_existing_noop all_ok 0 (bytes "f") _
              (dir_entries (content (files (cmd_touch all_ok 0 (bytes "f")
                                              root_only).2) (fname_of 0))) _ _).
    + by_eval.
    + by_eval.
  - refine (proj2 (proj2 touch_existing_noop all_ok all_ok 0 (bytes "f")
                     root_only _ _ _ _ _ _ _ _));
      by_eval.
Defined.

(** ** Name buffers *)

Lemma named_same q nm e :
  make_name32 q = make_name32 nm -> named q e = named nm e.
Proof. unfold named. by intros ->. Qed.

Lemma find_ext {A} (P Q : A -> bool) es :
  (forall e, P e = Q e) -> find P es = find Q es.
Proof.
  intros H. induction es as [|e es IH]; cbn [find]; [done|].
  by rewrite H, IH.
Qed.

Lemma find_holds {A} (P : A -> bool) es e : find P es = Some e -> P e = true.
Proof.
  induction es as [|x es IH]; cbn [find]; [done|].
  destruct (P x) eqn:E; [by intros [= <-]|exact IH].
Qed.

Lemma name_len_bound fuel buf : (name_len fuel buf <= fuel)%nat.
Proof.
  revert buf. induction fuel as [|fuel IH]; intros [|c buf]; cbn; try lia.
  destruct (decide (c = x00)); [lia|]. specialize (IH buf). lia.
Qed.

(** C7: the encoding of a name always has exactly 32 bytes: the bytes of
    the name followed by NULs; a name of 32 bytes or more is cut to its
    first 32 bytes, and no NUL is left in the buffer.  The search returns
    the first record whose 32 name bytes equal the 32 bytes of the encoded
    query.  So once a name of 32 bytes or more (40, say) has been stored by
    a successful [touch], a query finds the new entry exactly when its
    first 32 bytes are those of the stored name. *)
Theorem name_buffer_encoding :
  (forall s,
      length (make_name32 s) = NAME_LEN
      /\ make_name32 s = take NAME_LEN (c_str s)
                         ++ replicate (NAME_LEN - length (c_str s)) x00
      /\ ((NAME_LEN <= length (c_str s))%nat ->
          make_name32 s = take NAME_LEN (c_str s) /\ x00 ∉ make_name32 s)
      /\ (name_len NAME_LEN (make_name32 s) <= NAME_LEN)%nat)
  /\ (forall ok dir q w,
        (dir_find ok dir q w).1
        = dir_listing ok w dir
          ≫= find (fun e => bool_decide (name e = make_name32 q)))
  /\ (forall ok1 ok2 cwd nm w,
        let i := (find_free_inode w).1 in
        (NAME_LEN <= length (c_str nm))%nat ->
        0 <= cwd -> used (slot (inode_table w) cwd) <> 0 ->
        aligned (content (files w) (fname_of cwd)) ->
        fresh_in w cwd nm = true ->
        0 <= i ->
        ok1 WB (fname_of i) = true -> ok1 AB (fname_of cwd) = true ->
        ok2 RB (fname_of cwd) = true ->
        let w1 := (cmd_touch ok1 cwd nm w).2 in
        forall q,
          (dir_find ok2 cwd q w1).1
          = Some (mkDirEnt i (take NAME_LEN (c_str nm)))
          <-> take NAME_LEN (c_str q) = take NAME_LEN (c_str nm)).
Proof.
  split; [|split].
  - intros s. split; [apply make_name32_length|].
    split; [apply make_name32_spec|]. split.
    + intros Hlen. split; [by apply make_name32_long|].
      rewrite make_name32_long by done. intros Hin.
      apply (c_str_no_nul s). by apply (subseteq_take NAME_LEN).
    + apply name_len_bound.
  - intros ok dir q w. by rewrite dir_find_eq.
  - intros ok1 ok2 cwd nm w. cbv zeta. rewrite find_free_inode_eq. cbn [fst].
    intros Hlong Hcwd Hused Ha Hfresh Hi Hwb Hab Hrb q.
    destruct (creation_succeeds cwd w Hcwd Hused Hi) as (Hr & Hne & Hlt).
    rewrite (cmd_touch_eq ok1 cwd nm w), (fresh_in_find _ _ _ _ Hfresh).
    cbv zeta. rewrite Hlt. cbn [snd]. rewrite created_ok by done.
    generalize dependent (find_free_loop (Z.to_nat MAX_INODES) 0 (inode_table w)).
    intros i Hi Hwb Hr Hne _.
    rewrite dir_find_eq. cbn [fst].
    pose proof (after_creation_find w cwd i ch_f (file_stream nm) nm Hcwd Hr
                  Hne ok2 Ha Hfresh Hrb) as Hfind.
    rewrite (make_name32_long nm Hlong) in Hfind.
    rewrite <- (make_name32_eq_long q nm Hlong). split.
    + intros Hq. unfold dir_listing in Hq. rewrite Hrb in Hq.
      destruct (files _ !! fname_of cwd) as [s|]; [|done].
      cbn [fmap option_fmap option_map mbind option_bind] in Hq.
      apply find_holds in Hq. unfold named in Hq.
      apply bool_decide_eq_true in Hq. cbn [name] in Hq.
      by rewrite <- Hq, <- make_name32_long.
    + intros Hq. rewrite <- Hfind. unfold dir_listing.
      destruct (ok2 RB (fname_of cwd)); [|done].
      destruct (files _ !! fname_of cwd) as [s|]; [|done].
      cbn [fmap option_fmap option_map mbind option_bind].
      apply find_ext. intros e. by apply named_same.
Qed.

Lemma name_buffer_encoding_witness :
  let w1 := (cmd_touch all_ok 0 name40 root_only).2 in
  (dir_find all_ok 0 (take 32 name40) w1).1
  = Some (mkDirEnt 1 (take 32 name40))
  /\ (dir_find all_ok 0 (take 31 name40) w1).1
     <> Some (mkDirEnt 1 (take 32 name40)).
Proof.
  pose proof (proj2 (proj2 name_buffer_encoding) all_ok all_ok 0 name40
                root_only ltac:(by_eval) ltac:(by_eval) ltac:(by_eval)
                ltac:(by_eval) ltac:(by_eval) ltac:(by_eval) ltac:(by_eval)
                ltac:(by_eval) ltac:(by_eval)) as H.
  cbv zeta. split.
  - apply (proj2 (H (take 32 name40))). by_eval.
  - intros Hq. apply (proj1 (H (take 31 name40))) in Hq. revert Hq. by_eval.
Defined.

(** ** Names with a common 32-byte prefix *)

(** C10: when two names have the same 32-byte encoding and the first has
    been created in a directory by a successful [mkdir] or [touch], [mkdir]
    of the second in that directory prints "mkdir: already exists" and
    changes neither the table nor any file, and [touch] of the second
    changes nothing at all. *)
Theorem same_encoding_same_name ok1 ok2 cwd n1 n2 w :
  let i := (find_free_inode w).1 in
  make_name32 n1 = make_name32 n2 ->
  0 <= cwd -> used (slot (inode_table w) cwd) <> 0 ->
  aligned (content (files w) (fname_of cwd)) ->
  fresh_in w cwd n1 = true ->
  0 <= i ->
  ok1 WB (fname_of i) = true -> ok1 AB (fname_of cwd) = true ->
  ok2 RB (fname_of cwd) = true ->
  forall w1,
    w1 = (cmd_mkdir ok1 cwd n1 w).2 \/ w1 = (cmd_touch ok1 cwd n1 w).2 ->
    cmd_mkdir ok2 cwd n2 w1
    = (tt, mkWorld (inode_table w1) (files w1)
                   (out w1 ++ [Stderr ("mkdir: already exists" +:+ nl)]))
    /\ cmd_touch ok2 cwd n2 w1 = (tt, w1).
Proof.
  cbv zeta. rewrite find_free_inode_eq. cbn [fst].
  intros Henc Hcwd Hused Ha Hfresh Hi Hwb Hab Hrb w1 Hw1.
  destruct (creation_succeeds cwd w Hcwd Hused Hi) as (Hr & Hne & Hlt).
  assert (exists c new, w1 = committed w cwd
            (find_free_loop (Z.to_nat MAX_INODES) 0 (inode_table w)) c new n1)
    as (c & new & ->).
  { destruct Hw1 as [-> | ->].
    - rewrite cmd_mkdir_eq, (fresh_in_find _ _ _ _ Hfresh). cbv zeta.
      rewrite Hlt. cbn [snd]. rewrite created_ok by done. by eexists _, _.
    - rewrite cmd_touch_eq, (fresh_in_find _ _ _ _ Hfresh). cbv zeta.
      rewrite Hlt. cbn [snd]. rewrite created_ok by done. by eexists _, _. }
  clear Hw1.
  generalize dependent (find_free_loop (Z.to_nat MAX_INODES) 0 (inode_table w)).
  intros i Hi Hwb Hr Hne _.
  pose proof (after_creation_find w cwd i c new n1 Hcwd Hr Hne ok2 Ha Hfresh Hrb)
    as Hfind.
  match type of Hfind with
  | dir_listing ok2 ?w1 cwd ≫= _ = _ =>
      assert (dir_listing ok2 w1 cwd ≫= find (named n2)
              = Some (mkDirEnt i (make_name32 n1))) as Hfind2
  end.
  { rewrite <- Hfind. destruct (dir_listing ok2 _ cwd) as [es|]; [|done].
    cbn [mbind option_bind]. apply find_ext. intros e.
    by apply named_same. }
  rewrite cmd_mkdir_eq, cmd_touch_eq, Hfind2. done.
Qed.

Lemma same_encoding_same_name_witness :
  name40 <> name40'
  /\ let w1 := (cmd_touch all_ok 0 name40 root_only).2 in
     out (cmd_mkdir all_ok 0 name40' w1).2
     = [Stderr ("mkdir: already exists" +:+ nl)]
     /\ cmd_touch all_ok 0 name40' w1 = (tt, w1).
Proof.
  split; [by_eval|].
  pose proof (same_encoding_same_name all_ok all_ok 0 name40 name40' root_only
                ltac:(by_eval) ltac:(by_eval) ltac:(by_eval) ltac:(by_eval)
                ltac:(by_eval) ltac:(by_eval) ltac:(by_eval) ltac:(by_eval)
                ltac:(by_eval) _ (or_intror eq_refl)) as [Hm Ht].
  cbv zeta. split; [|exact Ht]. by rewrite Hm.
Defined.

(** ** The session invariant *)

Lemma keeps_used_refl w : keeps_used w w.
Proof. by intros j _ _. Qed.

Lemma keeps_used_table w w' :
  inode_table w' = inode_table w -> keeps_used w w'.
Proof. intros H j _ _. by rewrite H. Qed.

Lemma keeps_used_cwd_ok cwd w w' :
  keeps_used w w' -> cwd_ok cwd w -> cwd_ok cwd w'.
Proof.
  intros Hk (Hr & Hu & Hty). unfold cwd_ok.
  rewrite (Hk cwd) by (done || lia). done.
Qed.

Lemma created_keeps_used ok w cwd i c new nm :
  0 <= i -> used (slot (inode_table w) i) = 0 ->
  keeps_used w (created ok w cwd i c new nm).
Proof.
  intros Hi Hfree j Hj Hu.
  assert (j <> i) as Hne by congruence.
  unfold created.
  destruct (ok WB (fname_of i)); [destruct (ok AB (fname_of cwd))|];
    cbn [inode_table];
    rewrite ?slot_rollback_ne, ?slot_mark_used_ne by lia; done.
Qed.

Lemma dir_listing_find_wf ok w dir P e :
  dir_listing ok w dir ≫= find P = Some e -> wf_ent e.
Proof.
  unfold dir_listing. destruct (ok RB (fname_of dir)); [|done].
  destruct (files w !! fname_of dir) as [s|]; [|done].
  cbn [fmap option_fmap option_map mbind option_bind].
  intros [Hin _]%find_some. apply (dir_entries_wf s). by apply list_elem_of_In.
Qed.

Section Preservation.

Variable ok : mode -> string -> bool.

Lemma cmd_mkdir_keeps_used cwd nm w :
  keeps_used w (cmd_mkdir ok cwd nm w).2.
Proof.
  rewrite cmd_mkdir_eq.
  destruct (dir_listing ok w cwd ≫= find (named nm));
    [by apply keeps_used_table|].
  cbv zeta. pose proof (find_free_range (inode_table w)) as Hr. cbv zeta in Hr.
  destruct (Z.ltb_spec (find_free_loop (Z.to_nat MAX_INODES) 0 (inode_table w)) 0);
    [by apply keeps_used_table|].
  destruct Hr as [Hr|[Hr Hfree]]; [lia|].
  apply created_keeps_used; [lia|done].
Qed.

Lemma cmd_touch_keeps_used cwd nm w :
  keeps_used w (cmd_touch ok cwd nm w).2.
Proof.
  rewrite cmd_touch_eq.
  destruct (dir_listing ok w cwd ≫= find (named nm));
    [by apply keeps_used_table|].
  cbv zeta. pose proof (find_free_range (inode_table w)) as Hr. cbv zeta in Hr.
  destruct (Z.ltb_spec (find_free_loop (Z.to_nat MAX_INODES) 0 (inode_table w)) 0);
    [by apply keeps_used_table|].
  destruct Hr as [Hr|[Hr Hfree]]; [lia|].
  apply created_keeps_used; [lia|done].
Qed.

Lemma cmd_ls_table cwd w : inode_table (cmd_ls ok cwd w).2 = inode_table w.
Proof. rewrite cmd_ls_eq. by destruct (dir_listing ok w cwd). Qed.

Lemma cmd_ls_files cwd w : files (cmd_ls ok cwd w).2 = files w.
Proof. rewrite cmd_ls_eq. by destruct (dir_listing ok w cwd). Qed.

Lemma cmd_cd_table cwd nm w : inode_table (cmd_cd ok cwd nm w).2 = inode_table w.
Proof.
  rewrite cmd_cd_eq. destruct (dir_listing ok w cwd ≫= find (named nm)); [|done].
  cbv zeta. by destruct (_ || _ || _).
Qed.

Lemma cmd_cd_files cwd nm w : files (cmd_cd ok cwd nm w).2 = files w.
Proof.
  rewrite cmd_cd_eq. destruct (dir_listing ok w cwd ≫= find (named nm)); [|done].
  cbv zeta. by destruct (_ || _ || _).
Qed.

Lemma cmd_cd_cwd_ok cwd nm w :
  cwd_ok cwd w -> cwd_ok (cmd_cd ok cwd nm w).1 (cmd_cd ok cwd nm w).2.
Proof.
  intros Hcwd. rewrite cmd_cd_eq.
  destruct (dir_listing ok w cwd ≫= find (named nm)) as [e|] eqn:E; [|done].
  apply dir_listing_find_wf in E as [He _].
  cbv zeta.
  destruct (Z.leb_spec MAX_INODES (inode e)) as [|Hlt]; [done|].
  destruct (Z.eqb_spec (used (slot (inode_table w) (inode e))) 0) as [|Hu];
    [done|].
  destruct (bool_decide_reflect (type (slot (inode_table w) (inode e)) = ch_d))
    as [Hty|]; [|done].
  cbn [orb negb fst snd]. split; [lia|done].
Qed.

End Preservation.

(** ** Saving and loading the table *)

Lemma enc_pairs_app ps qs : enc_pairs (ps ++ qs) = enc_pairs ps ++ enc_pairs qs.
Proof.
  induction ps as [|[i c] ps IH]; [done|].
  cbn [app enc_pairs]. by rewrite IH, <- app_assoc.
Qed.

Lemma set_files_id w : set_files (files w) w = w.
Proof. by destruct w. Qed.

Lemma save_loop_eq n i w cur :
  0 <= i -> files w !! inodes_list = Some cur ->
  save_loop n i w
  = (tt, set_files
           (<[inodes_list :=
                cur ++ enc_pairs (used_from i
                         (take n (drop (Z.to_nat i) (inode_table w))))]>
              (files w)) w).
Proof.
  revert i w cur. induction n as [|n IH]; intros i [t fs o] cur Hi Hcur;
    cbn [files inode_table out] in *.
  - cbn [save_loop take used_from enc_pairs]. rewrite app_nil_r.
    unfold ret, set_files. cbn [files inode_table out]. by rewrite insert_id.
  - cbn [save_loop]. unfold bind at 1. unfold get_slot, slot.
    cbn [files inode_table out].
    destruct (t !! Z.to_nat i) as [s|] eqn:E.
    + rewrite (drop_S _ _ _ E). cbn [default from_option id take used_from].
      unfold is_used. destruct (negb (used s =? 0)).
      * unfold bind, fwrite, set_files. cbn [files inode_table out].
        rewrite !content_insert_eq. unfold content. rewrite Hcur.
        cbn [default from_option id]. rewrite insert_insert_eq.
        erewrite IH; [|lia|apply lookup_insert_eq].
        unfold set_files. cbn [files inode_table out].
        rewrite insert_insert_eq. cbn [app enc_pairs].
        replace (Z.to_nat (i + 1)) with (S (Z.to_nat i)) by lia.
        by rewrite <- !app_assoc.
      * unfold bind, ret. cbv beta iota.
        erewrite IH; [|lia|done].
        replace (Z.to_nat (i + 1)) with (S (Z.to_nat i)) by lia. done.
    + cbn [default from_option id]. unfold zero_slot at 1. cbn [used Z.eqb negb].
      unfold bind, ret. cbv beta iota. erewrite IH; [|lia|done].
      apply lookup_ge_None in E. cbn [files inode_table out].
      rewrite !drop_ge by lia. by rewrite !take_nil.
Qed.

Section SaveLoad.

Variable ok : mode -> string -> bool.

Lemma save_inodes_list_eq w :
  save_inodes_list ok w =
  if ok WB inodes_list
  then (tt, set_files
              (<[inodes_list :=
                   enc_pairs (used_pairs (take (Z.to_nat MAX_INODES)
                                               (inode_table w)))]>
                 (files w)) w)
  else (tt, log (Perror "inodes_list") w).
Proof.
  unfold save_inodes_list, bind, fopen_wb.
  destruct (ok WB inodes_list); [|done].
  erewrite save_loop_eq; [|lia|apply lookup_insert_eq].
  unfold set_files. cbn [files inode_table out]. rewrite insert_insert_eq.
  done.
Qed.

Lemma save_inodes_list_table w :
  inode_table (save_inodes_list ok w).2 = inode_table w.
Proof. rewrite save_inodes_list_eq. by destruct (ok WB inodes_list). Qed.

End SaveLoad.

(** ** Sessions *)

Lemma bind_eq {A B} (m : M A) (k : A -> M B) w :
  bind m k w = k (m w).1 (m w).2.
Proof. unfold bind. by destruct (m w). Qed.

Lemma eprint_table s w : inode_table (eprint s w).2 = inode_table w.
Proof. reflexivity. Qed.

Ltac exec_cases :=
  unfold exec_line;
  destruct (strtok_all _ _) as [|cmd args]; [|
    repeat (destruct (bool_decide _));
    try (destruct args as [|arg [|arg' args]])];
  rewrite ?bind_eq; unfold ret; cbn [fst snd].

Lemma exec_line_cwd_ok ok line cwd w :
  cwd_ok cwd w ->
  cwd_ok (exec_line ok line cwd w).1.2 (exec_line ok line cwd w).2.
Proof.
  intros Hcwd. exec_cases; try exact Hcwd;
    try (apply cmd_cd_cwd_ok; exact Hcwd);
    (eapply keeps_used_cwd_ok; [|exact Hcwd]).
  - apply keeps_used_table, cmd_ls_table.
  - apply cmd_mkdir_keeps_used.
  - apply cmd_touch_keeps_used.
  - apply keeps_used_table, save_inodes_list_table.
Qed.

Lemma exec_line_cwd ok line cwd w :
  (exec_line ok line cwd w).1.2 = cwd
  \/ exists arg,
       strtok_all (cut_newline (c_str line)) [] = [bytes "cd"; arg]
       /\ (exec_line ok line cwd w).1.2 = (cmd_cd ok cwd arg w).1.
Proof.
  unfold exec_line.
  destruct (strtok_all _ _) as [|cmd args]; [by left|].
  destruct (bool_decide (cmd = bytes "ls")).
  { destruct args; rewrite ?bind_eq; by left. }
  destruct (bool_decide_reflect (cmd = bytes "cd")) as [->|].
  { destruct args as [|arg [|arg' args]]; rewrite ?bind_eq; try by left.
    right. by exists arg. }
  repeat (destruct (bool_decide _));
    try (destruct args as [|arg [|arg' args]]); rewrite ?bind_eq; by left.
Qed.

Lemma main_loop_reachable env w0 lines :
  forall k cwd w, reachable w0 cwd w ->
  exists cwd', reachable w0 cwd' (main_loop env k lines cwd w).2.
Proof.
  induction lines as [|l lines IH]; intros k cwd w Hreach; cbn [main_loop].
  - exists cwd. by apply reach_eof.
  - rewrite bind_eq.
    destruct (exec_line (env k) l cwd w) as [[fl cwd'] w'] eqn:E.
    cbn [fst snd]. pose proof (reach_line _ _ _ _ _ _ _ _ Hreach E) as Hnext.
    destruct fl; [by apply IH|]. by exists cwd'.
Qed.

(** C9: every state a session goes through, from the entry into the loop
    of [main] on, has [cwd] below 1024 with a used slot of type ['d']; a
    line changes [cwd] only when it is a [cd] with one argument, and then to
    the value [cmd_cd] returns; and a run of [main] that exits with status
    0 ends in such a state. *)
Theorem cwd_invariant :
  (forall w0 cwd w, reachable w0 cwd w -> cwd_ok cwd w)
  /\ (forall ok line cwd w,
        (exec_line ok line cwd w).1.2 = cwd
        \/ exists arg,
             strtok_all (cut_newline (c_str line)) [] = [bytes "cd"; arg]
             /\ (exec_line ok line cwd w).1.2 = (cmd_cd ok cwd arg w).1)
  /\ (forall env is_directory chdir argv lines w0,
        (main env is_directory chdir argv lines w0).1 = 0 ->
        exists cwd,
          reachable w0 cwd (main env is_directory chdir argv lines w0).2).
Proof.
  split; [|split].
  - intros w0 cwd w H. induction H as [ok w1 Hload Hroot|
      ok line cwd w fl cwd' w' _ IH Hstep|ok cwd w _ IH].
    + apply orb_false_iff in Hroot as [Hu Hty].
      apply Z.eqb_neq in Hu. apply negb_false_iff, bool_decide_eq_true in Hty.
      split; [unfold MAX_INODES; lia|done].
    + pose proof (exec_line_cwd_ok ok line cwd w IH) as Hok.
      by rewrite Hstep in Hok.
    + eapply keeps_used_cwd_ok; [|exact IH].
      apply keeps_used_table, save_inodes_list_table.
  - apply exec_line_cwd.
  - intros env is_directory chdir argv lines w0.
    unfold main.
    destruct argv as [|prog [|root [|extra argv]]]; rewrite ?bind_eq;
      try (unfold ret; cbn [fst snd]; discriminate).
    destruct (negb (is_directory root));
      [rewrite bind_eq; unfold ret; cbn [fst snd]; discriminate|].
    destruct (negb (chdir root));
      [rewrite bind_eq; unfold ret; cbn [fst snd]; discriminate|].
    rewrite !bind_eq.
    destruct (load_inodes_list (env O) (clear_table w0).2) as [loaded w1] eqn:E.
    cbn [fst snd]. destruct loaded; cbn [negb]; [|unfold ret; discriminate].
    rewrite bind_eq.
    change (get_slot 0 w1) with (slot (inode_table w1) 0, w1). cbn [fst snd].
    destruct ((used (slot (inode_table w1) 0) =? 0)
              || negb (bool_decide (type (slot (inode_table w1) 0) = ch_d)))
      eqn:Hroot; [rewrite bind_eq; unfold ret; cbn [fst snd]; discriminate|].
    rewrite bind_eq. unfold ret. cbn [fst snd]. intros _.
    apply main_loop_reachable. by eapply reach_start.
Qed.

Lemma cwd_invariant_witness :
  reachable disk0 1 in_a /\ cwd_ok 1 in_a.
Proof.
  assert (reachable disk0 1 in_a) as H.
  { refine (reach_line disk0 all_ok (line "cd a") 0 in_root Continue 1 in_a _ _).
    - refine (reach_line disk0 all_ok (line "mkdir a") 0 booted Continue 0
                in_root _ _).
      + refine (reach_start disk0 all_ok booted _ _); by_eval.
      + by_eval.
    - by_eval. }
  split; [exact H|]. exact (proj1 cwd_invariant disk0 1 in_a H).
Defined.

(** ** Failures *)

Lemma diagnostics_same_out w w' : out w' = out w -> diagnostics w w' = [].
Proof. intros H. unfold diagnostics. by rewrite H, drop_all. Qed.

Lemma diagnostics_log e w :
  diagnostics w (log e w) = if is_diagnostic e then [e] else [].
Proof.
  unfold diagnostics, log, set_out. cbn [out].
  by rewrite drop_app_length.
Qed.

Lemma diagnostics_ls es w :
  diagnostics w (set_out (out w ++ map ls_line es) w) = [].
Proof.
  unfold diagnostics, set_out. cbn [out]. rewrite drop_app_length.
  induction es as [|e es IH]; [done|]. exact IH.
Qed.

Lemma diagnosed_log e w : is_diagnostic e = true -> diagnosed_or_silent w (log e w).
Proof. intros H. left. by exists e. Qed.

Lemma silent_same_out w w' : out w' = out w -> diagnosed_or_silent w w'.
Proof. intros H. right. by apply diagnostics_same_out. Qed.

Lemma diagnosed_inv w w' :
  diagnosed_or_silent w w' -> diagnostics w w' <> [] ->
  exists e, w' = log e w /\ is_diagnostic e = true.
Proof. by intros [H|H] Hne. Qed.

Section Reporting.

Variable ok : mode -> string -> bool.

Lemma cmd_ls_diagnosed cwd w : diagnosed_or_silent w (cmd_ls ok cwd w).2.
Proof.
  rewrite cmd_ls_eq. destruct (dir_listing ok w cwd) as [es|].
  - right. apply diagnostics_ls.
  - by apply diagnosed_log.
Qed.

Lemma cmd_cd_diagnosed cwd nm w :
  (cmd_cd ok cwd nm w).2 = w
  \/ (exists e, (cmd_cd ok cwd nm w).2 = log e w /\ is_diagnostic e = true)
     /\ (cmd_cd ok cwd nm w).1 = cwd.
Proof.
  rewrite cmd_cd_eq.
  destruct (dir_listing ok w cwd ≫= find (named nm)) as [e|].
  - cbv zeta. destruct (_ || _ || _); [right|by left].
    split; [by eexists|done].
  - right. split; [by eexists|done].
Qed.

Lemma cmd_mkdir_diagnosed cwd nm w :
  diagnosed_or_silent w (cmd_mkdir ok cwd nm w).2.
Proof.
  rewrite cmd_mkdir_eq.
  destruct (dir_listing ok w cwd ≫= find (named nm)); [by apply diagnosed_log|].
  cbv zeta. destruct (_ <? 0); [by apply diagnosed_log|].
  apply silent_same_out, created_out.
Qed.

Lemma cmd_touch_diagnosed cwd nm w :
  diagnosed_or_silent w (cmd_touch ok cwd nm w).2.
Proof.
  rewrite cmd_touch_eq.
  destruct (dir_listing ok w cwd ≫= find (named nm)); [by apply silent_same_out|].
  cbv zeta. destruct (_ <? 0); [by apply diagnosed_log|].
  apply silent_same_out, created_out.
Qed.

Lemma save_inodes_list_diagnosed w :
  diagnosed_or_silent w (save_inodes_list ok w).2.
Proof.
  rewrite save_inodes_list_eq. destruct (ok WB inodes_list).
  - by apply silent_same_out.
  - by apply diagnosed_log.
Qed.

Lemma exec_line_diagnosed line cwd w :
  diagnostics w (exec_line ok line cwd w).2 <> [] ->
  exists e, (exec_line ok line cwd w).2 = log e w
            /\ is_diagnostic e = true
            /\ (exec_line ok line cwd w).1.2 = cwd.
Proof.
  exec_cases.
  all: try (intros _; eexists; split; [reflexivity|by split]).
  all: try (intros H; by rewrite diagnostics_same_out in H).
  - intros H.
    destruct (diagnosed_inv _ _ (cmd_ls_diagnosed cwd w) H) as (e & He & Hd).
    by exists e.
  - intros H. destruct (cmd_cd_diagnosed cwd arg w) as [Hw|[(e & He & Hd) Hc]].
    + rewrite Hw in H. by rewrite diagnostics_same_out in H.
    + by exists e.
  - intros H.
    destruct (diagnosed_inv _ _ (cmd_mkdir_diagnosed cwd arg w) H) as (e & He & Hd).
    by exists e.
  - intros H.
    destruct (diagnosed_inv _ _ (cmd_touch_diagnosed cwd arg w) H) as (e & He & Hd).
    by exists e.
  - intros H.
    destruct (diagnosed_inv _ _ (save_inodes_list_diagnosed w) H) as (e & He & Hd).
    by exists e.
Qed.

End Reporting.

(** C6, as the code has it: a command that prints a diagnostic prints
    exactly that one event and leaves cwd, the inode table and every file
    as they were; [mkdir] of an existing name and [mkdir] or [touch] on a
    full table are such commands.  A failure to create the new backing
    stream or to append to the parent's stream prints nothing: the log is
    as before, the used [(index, type)] pairs of the table are as before,
    no file has changed when the creation failed, and only the new stream
    has been written when the append failed; a [mkdir] or [touch] line
    leaves cwd as it was. *)
Theorem failures_diagnosed_or_rolled_back :
  (forall ok line cwd w,
      diagnostics w (exec_line ok line cwd w).2 <> [] ->
      exists e, (exec_line ok line cwd w).2 = log e w
                /\ is_diagnostic e = true
                /\ diagnostics w (exec_line ok line cwd w).2 = [e]
                /\ (exec_line ok line cwd w).1.2 = cwd)
  /\ (forall ok cwd nm w,
        (is_Some (dir_find ok cwd nm w).1 ->
         cmd_mkdir ok cwd nm w
         = (tt, log (Stderr ("mkdir: already exists" +:+ nl)) w))
        /\ ((dir_find ok cwd nm w).1 = None -> (find_free_inode w).1 < 0 ->
            cmd_mkdir ok cwd nm w
            = (tt, log (Stderr ("mkdir: no free inodes" +:+ nl)) w)
            /\ cmd_touch ok cwd nm w
               = (tt, log (Stderr ("touch: no free inodes" +:+ nl)) w)))
  /\ (forall ok cwd nm w,
        let i := (find_free_inode w).1 in
        (dir_find ok cwd nm w).1 = None ->
        0 <= i ->
        ok WB (fname_of i) = false \/ ok AB (fname_of cwd) = false ->
        forall w' new,
          (w' = (cmd_mkdir ok cwd nm w).2 /\ new = dir_stream i cwd)
          \/ (w' = (cmd_touch ok cwd nm w).2 /\ new = file_stream nm) ->
          out w' = out w
          /\ used_pairs (inode_table w') = used_pairs (inode_table w)
          /\ (ok WB (fname_of i) = false -> files w' = files w)
          /\ (ok WB (fname_of i) = true ->
              files w' = <[fname_of i := new]> (files w)))
  /\ (forall ok line cwd w arg,
        (strtok_all (cut_newline (c_str line)) [] = [bytes "mkdir"; arg] ->
         exec_line ok line cwd w = (Continue, cwd, (cmd_mkdir ok cwd arg w).2))
        /\ (strtok_all (cut_newline (c_str line)) [] = [bytes "touch"; arg] ->
            exec_line ok line cwd w
            = (Continue, cwd, (cmd_touch ok cwd arg w).2))).
Proof.
  split; [|split; [|split]].
  - intros ok line cwd w H.
    destruct (exec_line_diagnosed ok line cwd w H) as (e & He & Hd & Hc).
    exists e. split; [done|]. split; [done|]. split; [|done].
    by rewrite He, diagnostics_log, Hd.
  - intros ok cwd nm w. rewrite dir_find_eq, find_free_inode_eq. cbn [fst].
    rewrite cmd_mkdir_eq, cmd_touch_eq. split.
    + by intros [e ->].
    + intros -> Hneg. cbv zeta.
      destruct (Z.ltb_spec (find_free_loop (Z.to_nat MAX_INODES) 0 (inode_table w)) 0);
        [done|lia].
  - intros ok cwd nm w. cbv zeta. rewrite dir_find_eq, find_free_inode_eq.
    cbn [fst]. intros Hnone Hi Hfail w' new Hw'.
    pose proof (find_free_range (inode_table w)) as Hr. cbv zeta in Hr.
    destruct Hr as [Hr|[_ Hfree]]; [lia|].
    assert (exists c, w' = created ok w cwd
              (find_free_loop (Z.to_nat MAX_INODES) 0 (inode_table w)) c new nm)
      as (c & ->).
    { destruct Hw' as [[-> ->]|[-> ->]].
      - rewrite cmd_mkdir_eq, Hnone. cbv zeta.
        destruct (Z.ltb_spec (find_free_loop (Z.to_nat MAX_INODES) 0 (inode_table w)) 0);
          [lia|]. by eexists.
      - rewrite cmd_touch_eq, Hnone. cbv zeta.
        destruct (Z.ltb_spec (find_free_loop (Z.to_nat MAX_INODES) 0 (inode_table w)) 0);
          [lia|]. by eexists. }
    split; [apply created_out|].
    split.
    { rewrite created_table_fail by done.
      by apply used_pairs_reloaded, rollback_mark_reloaded. }
    split; [apply created_files_nocreate|].
    intros Hwb. destruct Hfail as [Hf|Hf]; [congruence|].
    unfold created. by rewrite Hwb, Hf.
  - intros ok line cwd w arg. unfold exec_line.
    split; intros ->;
      repeat first [ rewrite bool_decide_eq_true_2 by reflexivity
                   | rewrite bool_decide_eq_false_2 by (vm_compute; discriminate) ];
      rewrite bind_eq; reflexivity.
Qed.

Lemma failures_diagnosed_or_rolled_back_witness :
  (exists e, (exec_line all_ok (line "rmdir a") 0 root_only).2 = log e root_only)
  /\ cmd_mkdir all_ok 0 (bytes "a") demo_tree
     = (tt, log (Stderr ("mkdir: already exists" +:+ nl)) demo_tree)
  /\ out (cmd_touch no_append 0 (bytes "a") root_only).2 = out root_only.
Proof.
  split; [|split].
  - destruct (proj1 failures_diagnosed_or_rolled_back all_ok (line "rmdir a")
                0 root_only ltac:(by_eval)) as (e & He & _).
    by exists e.
  - apply (proj1 (proj1 (proj2 failures_diagnosed_or_rolled_back) all_ok 0
                    (bytes "a") demo_tree)).
    vm_compute. by eexists.
  - apply (proj1 (proj1 (proj2 (proj2 failures_diagnosed_or_rolled_back))
                    no_append 0
                    (bytes "a") root_only ltac:(by_eval) ltac:(by_eval)
                    (or_intror eq_refl) _ (file_stream (bytes "a"))
                    (or_intror (conj eq_refl eq_refl)))).
Defined.

(** C6 as stated fails: [mkdir a] in a root whose stream cannot be appended
    to is a failed creation, yet nothing is printed and the stream of the
    new inode stays behind. *)
Lemma stream_failure_counterexample :
  let w' := (cmd_mkdir no_append 0 (bytes "a") root_only).2 in
  (dir_find no_append 0 (bytes "a") root_only).1 = None
  /\ (find_free_inode root_only).1 = 1
  /\ no_append AB (fname_of 0) = false
  /\ used_pairs (inode_table w') = used_pairs (inode_table root_only)
  /\ diagnostics root_only w' = []
  /\ files w' !! fname_of 1 = Some (dir_stream 1 0)
  /\ files root_only !! fname_of 1 = None
  /\ ~ reported_and_unchanged 0 root_only 0 w'.
Proof.
  cbv zeta. repeat (split; [by_eval|]).
  intros [H _]. apply H. by_eval.
Qed.

(** ** The table file: saving, then loading *)

Lemma valid_mark_inv i c :
  valid_mark (i, c) = true ->
  0 <= i < MAX_INODES /\ (c = ch_d \/ c = ch_f).
Proof.
  unfold valid_mark, valid_type. cbn [fst snd].
  rewrite !andb_true_iff, orb_true_iff, !bool_decide_eq_true.
  intros [[H1 H2] H3]. split; [lia|done].
Qed.

Lemma set_table_id w : set_table (inode_table w) w = w.
Proof. by destruct w. Qed.

Lemma load_loop_eq ps : forall fuel w,
  forallb valid_mark ps = true ->
  (length (enc_pairs ps) <= fuel)%nat ->
  load_loop fuel (enc_pairs ps) w
  = (tt, set_table (foldl mark_used (inode_table w) ps) w).
Proof.
  induction ps as [|[i c] ps IH]; intros fuel w Hv Hfuel.
  - cbn [enc_pairs foldl]. rewrite set_table_id. by destruct fuel.
  - cbn [forallb] in Hv. apply andb_true_iff in Hv as [Hic Hv].
    apply valid_mark_inv in Hic as [Hi Hc].
    cbn [enc_pairs] in *. rewrite length_app in Hfuel. cbn [length] in Hfuel.
    destruct fuel as [|fuel]; [lia|]. cbn [load_loop].
    rewrite fread_app by done.
    change (fread 1 (c :: enc_pairs ps)) with (Some ([c], enc_pairs ps)).
    cbn [hd]. rewrite u32_of_bytes_of by (unfold MAX_INODES in Hi; lia).
    destruct (Z.leb_spec MAX_INODES i) as [|_]; [lia|].
    replace (negb (bool_decide (c = ch_d)) && negb (bool_decide (c = ch_f)))
      with false; cycle 1.
    { destruct Hc as [-> | ->]; reflexivity. }
    transitivity (load_loop fuel (enc_pairs ps)
                    (set_table (mark_used (inode_table w) (i, c)) w));
      [by destruct w|].
    rewrite IH by (done || lia). done.
Qed.

Lemma load_inodes_list_eq ok ps w :
  ok RB inodes_list = true ->
  files w !! inodes_list = Some (enc_pairs ps) ->
  forallb valid_mark ps = true ->
  load_inodes_list ok w
  = (true, set_table (foldl mark_used (inode_table w) ps) w).
Proof.
  intros Hok Hf Hv. unfold load_inodes_list, fopen_rb.
  rewrite bind_eq. cbn [fst snd]. rewrite Hok, Hf.
  rewrite bind_eq, load_loop_eq by done. done.
Qed.

(** marking the used pairs of [t] in a cleared table rebuilds [t], slot by
    slot as [reloaded] *)
Lemma reload_marks t : forall k,
  foldl mark_used (replicate (length t + k) zero_slot) (used_pairs t)
  = map reloaded t ++ replicate k zero_slot.
Proof.
  induction t as [|s t IH] using rev_ind; intros k; [done|].
  unfold used_pairs in *. rewrite used_from_app, foldl_app, length_app.
  cbn [length]. rewrite <- Nat.add_assoc. cbn [Nat.add].
  rewrite IH, map_app. cbn [map replicate used_from].
  rewrite <- app_assoc. cbn [app].
  unfold reloaded. destruct (is_used s); cbn [app foldl]; [|done].
  rewrite mark_used_insert, Z.add_0_l, Nat2Z.id.
  rewrite insert_app_r_alt by (rewrite length_map; lia).
  by rewrite length_map, Nat.sub_diag.
Qed.

Lemma reload_table t :
  table_ok t -> foldl mark_used fresh_table (used_pairs t) = map reloaded t.
Proof.
  intros Hlen. unfold fresh_table. rewrite <- Hlen.
  rewrite <- (Nat.add_0_r (length t)), reload_marks. apply app_nil_r.
Qed.

Lemma used_pairs_valid t :
  table_ok t -> typed_table t = true -> forallb valid_mark (used_pairs t) = true.
Proof.
  intros Hlen Hty. apply forallb_forall. intros [i c] Hin.
  apply list_elem_of_In, elem_of_used_pairs in Hin as (Hi & s & Hs & Hu & Hc).
  unfold typed_table in Hty. rewrite forallb_forall in Hty.
  specialize (Hty s). rewrite Hu, Hc in Hty. cbn [negb orb] in Hty.
  unfold valid_mark. cbn [fst snd]. rewrite Hty.
  - apply lookup_lt_Some in Hs. rewrite Hlen in Hs.
    rewrite !andb_true_iff. repeat split; lia.
  - apply list_elem_of_In. by eapply list_elem_of_lookup_2.
Qed.

(** *** Marking in any order *)

Lemma mark_used_comm t p q :
  Z.to_nat p.1 <> Z.to_nat q.1 ->
  mark_used (mark_used t p) q = mark_used (mark_used t q) p.
Proof.
  destruct p as [i c], q as [j d]. cbn [fst]. intros Hne.
  rewrite !mark_used_insert. by apply list_insert_insert_ne.
Qed.

Lemma valid_marks_distinct p q :
  valid_mark p = true -> valid_mark q = true -> p.1 <> q.1 ->
  Z.to_nat p.1 <> Z.to_nat q.1.
Proof.
  destruct p as [i c], q as [j d]. cbn [fst].
  intros [Hi _]%valid_mark_inv [Hj _]%valid_mark_inv Hne. lia.
Qed.

Lemma foldl_mark_perm ps ps' :
  ps ≡ₚ ps' -> NoDup ps.*1 -> Forall (fun p => valid_mark p = true) ps ->
  forall t, foldl mark_used t ps = foldl mark_used t ps'.
Proof.
  induction 1 as [|x l l' Hperm IH|x y l|l l' l'' H1 IH1 H2 IH2];
    intros Hnd Hv t.
  - done.
  - cbn [foldl]. apply IH.
    + by apply NoDup_cons in Hnd as [_ ?].
    + by apply Forall_cons in Hv as [_ ?].
  - cbn [foldl]. f_equal. apply mark_used_comm.
    apply Forall_cons in Hv as [Hy Hv]. apply Forall_cons in Hv as [Hx _].
    apply valid_marks_distinct; [done|done|].
    cbn [fmap list_fmap] in Hnd. apply NoDup_cons in Hnd as [Hnd _].
    rewrite not_elem_of_cons in Hnd. by destruct Hnd.
  - rewrite IH1 by done. apply IH2.
    + by rewrite <- H1.
    + by rewrite <- H1.
Qed.

Lemma length_marks ps t : length (foldl mark_used t ps) = length t.
Proof.
  revert t. induction ps as [|p ps IH]; intros t; [done|].
  cbn [foldl]. by rewrite IH, length_mark_used.
Qed.

Lemma marks_slot_other ps : forall t j,
  0 <= j -> j ∉ ps.*1 -> Forall (fun p => valid_mark p = true) ps ->
  slot (foldl mark_used t ps) j = slot t j.
Proof.
  induction ps as [|[i c] ps IH]; intros t j Hj Hnot Hv; [done|].
  cbn [foldl fmap list_fmap fst] in *.
  apply not_elem_of_cons in Hnot as [Hne Hnot].
  apply Forall_cons in Hv as [[Hi _]%valid_mark_inv Hv].
  rewrite IH by done. apply slot_mark_used_ne. lia.
Qed.

Lemma marks_slot_in ps : forall t i c,
  NoDup ps.*1 -> Forall (fun p => valid_mark p = true) ps ->
  (i, c) ∈ ps -> (Z.to_nat i < length t)%nat ->
  slot (foldl mark_used t ps) i = mkInodeInfo 1 c.
Proof.
  induction ps as [|[j d] ps IH]; intros t i c Hnd Hv Hin Hlt.
  - by apply elem_of_nil in Hin.
  - cbn [foldl fmap list_fmap fst] in *.
    apply NoDup_cons in Hnd as [Hnot Hnd].
    pose proof Hv as Hv'. apply Forall_cons in Hv' as [Hjd Hv'].
    apply elem_of_cons in Hin as [[= -> ->]|Hin].
    + apply valid_mark_inv in Hjd as [Hj _].
      rewrite marks_slot_other by (done || lia).
      by apply slot_mark_used_eq.
    + apply IH; [done|done|done|by rewrite length_mark_used].
Qed.

Lemma slot_fresh_table j : slot fresh_table j = zero_slot.
Proof.
  unfold slot, fresh_table.
  destruct (replicate _ _ !! _) as [s|] eqn:E; [|done].
  by apply lookup_replicate in E as [-> _].
Qed.

Section Marks.

Variable ps : list (Z * byte).
Hypothesis Hnd : NoDup ps.*1.
Hypothesis Hv : Forall (fun p => valid_mark p = true) ps.


Lemma marks_table_ok : table_ok (marked ps).
Proof. unfold marked, table_ok. rewrite length_marks. apply length_replicate. Qed.

Lemma marks_slot j :
  0 <= j ->
  (exists c, (j, c) ∈ ps /\ slot (marked ps) j = mkInodeInfo 1 c)
  \/ ((j ∉ ps.*1) /\ slot (marked ps) j = zero_slot).
Proof.
  intros Hj. destruct (decide (j ∈ ps.*1)) as [Hin|Hnot].
  - left. apply list_elem_of_fmap in Hin as ([i c] & -> & Hin). cbn [fst] in *.
    exists c. split; [done|]. apply marks_slot_in; [done|done|done|].
    rewrite Forall_forall in Hv. apply Hv, valid_mark_inv in Hin as [Hi _].
    unfold fresh_table. rewrite length_replicate.
    unfold MAX_INODES in *. lia.
  - right. split; [done|]. unfold marked.
    rewrite marks_slot_other by done. apply slot_fresh_table.
Qed.

Lemma marks_elem i c : (i, c) ∈ used_pairs (marked ps) <-> (i, c) ∈ ps.
Proof.
  rewrite elem_of_used_pairs. split.
  - intros (Hi & s & Hs & Hu & Hc). apply slot_lookup in Hs.
    destruct (marks_slot i Hi) as [(c' & Hin & Hslot)|[_ Hslot]];
      rewrite Hslot in Hs; subst s; [by cbn in *; subst|done].
  - intros Hin. pose proof Hin as Hin'.
    rewrite Forall_forall in Hv. apply Hv, valid_mark_inv in Hin' as [Hi _].
    split; [lia|].
    assert (Z.to_nat i < length (marked ps))%nat as Hlt.
    { rewrite marks_table_ok. unfold MAX_INODES in *. lia. }
    destruct (lookup_lt_is_Some_2 _ _ Hlt) as [s Hs]. exists s.
    split; [done|]. apply slot_lookup in Hs.
    unfold marked in Hs.
    rewrite (marks_slot_in ps fresh_table i c) in Hs; [by subst s|done| |done|].
    + by apply Forall_forall.
    + by rewrite <- (length_marks ps).
Qed.

Lemma used_pairs_marks : used_pairs (marked ps) ≡ₚ ps.
Proof.
  apply NoDup_Permutation.
  - apply (NoDup_fmap_1 fst). apply NoDup_used_from.
  - by apply (NoDup_fmap_1 fst).
  - intros [i c]. apply marks_elem.
Qed.

Lemma marks_typed : typed_table (marked ps) = true.
Proof.
  unfold typed_table. apply forallb_forall. intros s Hin.
  apply list_elem_of_In, list_elem_of_lookup in Hin as [n Hn].
  assert (slot (marked ps) (Z.of_nat n) = s) as Hs.
  { apply slot_lookup. by rewrite Nat2Z.id. }
  destruct (marks_slot (Z.of_nat n) ltac:(lia)) as [(c & Hin & Hslot)|[_ Hslot]];
    rewrite Hslot in Hs; subst s; [|done].
  rewrite Forall_forall in Hv. apply Hv, valid_mark_inv in Hin as [_ Hc].
  cbn. unfold valid_type. by destruct Hc as [-> | ->].
Qed.

End Marks.

(** C1: for a table of 1024 slots whose used slots carry ['d'] or ['f'],
    [save_inodes_list] writes one record per used slot in ascending index
    order, and [load_inodes_list] of that file into a cleared table returns
    normally, prints nothing and yields a table with the same used
    [(index, type)] pairs (each used slot comes back as [used = 1] with its
    type, each free slot as the zero slot).  The table built by marking
    distinct valid slots does not depend on the order of the marks, and its
    used pairs are exactly the marks; so the round trip reproduces them
    whatever the insertion order. *)
Theorem save_load_roundtrip :
  (forall ok1 ok2 w,
      table_ok (inode_table w) -> typed_table (inode_table w) = true ->
      ok1 WB inodes_list = true -> ok2 RB inodes_list = true ->
      let w1 := (save_inodes_list ok1 w).2 in
      let r := load_inodes_list ok2 (clear_table w1).2 in
      files w1 !! inodes_list = Some (enc_pairs (used_pairs (inode_table w)))
      /\ r.1 = true /\ out r.2 = out w
      /\ inode_table r.2 = map reloaded (inode_table w)
      /\ used_pairs (inode_table r.2) = used_pairs (inode_table w))
  /\ (forall ps ps',
        ps ≡ₚ ps' -> NoDup ps.*1 -> forallb valid_mark ps = true ->
        let t := marked ps in
        t = marked ps'
        /\ table_ok t /\ typed_table t = true
        /\ used_pairs t ≡ₚ ps').
Proof.
  split.
  - intros ok1 ok2 w Hlen Hty Hwb Hrb. cbv zeta.
    rewrite save_inodes_list_eq, Hwb. cbn [snd].
    rewrite take_ge by (rewrite Hlen; lia).
    split; [apply lookup_insert_eq|].
    erewrite load_inodes_list_eq;
      [|done|apply lookup_insert_eq|by apply used_pairs_valid].
    cbn [fst snd out inode_table clear_table set_table set_files].
    fold fresh_table. rewrite reload_table by done.
    split; [done|]. split; [done|]. split; [done|].
    unfold used_pairs. apply used_from_reloaded.
  - intros ps ps' Hperm Hnd Hv. cbv zeta.
    assert (Forall (fun p => valid_mark p = true) ps) as Hv'.
    { apply Forall_forall. intros p Hp. rewrite forallb_forall in Hv.
      by apply Hv, list_elem_of_In. }
    split; [by apply foldl_mark_perm|].
    split; [apply marks_table_ok|].
    split; [by apply marks_typed|].
    rewrite <- Hperm. by apply used_pairs_marks.
Qed.

Lemma save_load_roundtrip_witness :
  let r := load_inodes_list all_ok
             (clear_table (save_inodes_list all_ok demo_tree).2).2 in
  r.1 = true
  /\ used_pairs (inode_table r.2) = [(0, ch_d); (1, ch_d); (2, ch_f)]
  /\ marked [(2, ch_f); (0, ch_d); (1, ch_d)]
     = marked [(0, ch_d); (1, ch_d); (2, ch_f)].
Proof.
  pose proof (proj1 save_load_roundtrip all_ok all_ok demo_tree
                ltac:(by_eval) ltac:(by_eval) ltac:(by_eval) ltac:(by_eval))
    as (_ & Hr & _ & _ & Hp).
  cbv zeta. split; [exact Hr|]. split; [by rewrite Hp|].
  refine (proj1 (proj2 save_load_roundtrip
                   [(2, ch_f); (0, ch_d); (1, ch_d)]
                   [(0, ch_d); (1, ch_d); (2, ch_f)] _ _ _)).
  - change ([(2, ch_f)] ++ [(0, ch_d); (1, ch_d)]
            ≡ₚ [(0, ch_d); (1, ch_d)] ++ [(2, ch_f)]).
    apply Permutation_app_comm.
  - cbn. repeat constructor; rewrite ?elem_of_cons, ?elem_of_nil; intuition lia.
  - by_eval.
Defined.

(** ** Directory streams stay well formed *)

Lemma pretty_N_go_digits x : forall s,
  all_digits s = true -> all_digits (pretty_N_go x s) = true.
Proof.
  induction (N.lt_wf_0 x) as [x _ IH]; intros s Hs.
  destruct (decide (x = 0)%N) as [->|Hx]; [by rewrite pretty_N_go_0|].
  rewrite pretty_N_go_step by lia. apply IH.
  - apply N.div_lt; lia.
  - cbn [all_digits]. rewrite Hs, andb_true_r.
    unfold pretty_N_char. by repeat case_match.
Qed.

Lemma fname_of_digits j : all_digits (fname_of j) = true.
Proof.
  unfold fname_of, pretty, pretty_N. case_decide; [done|].
  by apply pretty_N_go_digits.
Qed.

Lemma fname_of_not_table j : fname_of j <> inodes_list.
Proof.
  intros H. pose proof (fname_of_digits j) as Hd. rewrite H in Hd.
  discriminate Hd.
Qed.

Lemma aligned_dir_stream new parent : aligned (dir_stream new parent).
Proof.
  unfold dir_stream. apply aligned_app; apply aligned_enc_ent, make_name32_length.
Qed.

Lemma created_dirs_aligned ok w cwd i c new nm :
  0 <= i -> used (slot (inode_table w) i) = 0 ->
  (Z.to_nat i < length (inode_table w))%nat ->
  cwd_ok cwd w ->
  (c = ch_d -> aligned new) ->
  dirs_aligned w -> dirs_aligned (created ok w cwd i c new nm).
Proof.
  intros Hi Hfree Hlt (Hcwd & Hcu & Hct) Hnew Hal j Hj Hu Ht.
  assert (i <> cwd) as Hne by congruence.
  unfold created in *.
  destruct (ok WB (fname_of i)); [destruct (ok AB (fname_of cwd))|];
    cbn [inode_table files] in *.
  - destruct (decide (j = i)) as [->|Hji].
    + rewrite slot_mark_used_eq in Ht by done. cbn [type] in Ht.
      unfold appended.
      rewrite content_insert_ne by (intros H; apply fname_of_inj in H; lia).
      rewrite content_insert_eq. by apply Hnew.
    + rewrite slot_mark_used_ne in Hu, Ht by lia.
      unfold appended. destruct (decide (j = cwd)) as [->|Hjc].
      * rewrite content_insert_eq.
        rewrite content_insert_ne by (intros H; apply fname_of_inj in H; lia).
        apply aligned_app; [by apply Hal|].
        apply aligned_enc_ent, make_name32_length.
      * rewrite !content_insert_ne
          by (intros H; apply fname_of_inj in H; lia).
        by apply Hal.
  - destruct (decide (j = i)) as [->|Hji].
    + by rewrite slot_rollback_eq in Hu.
    + rewrite slot_rollback_ne, slot_mark_used_ne in Hu, Ht by lia.
      rewrite content_insert_ne by (intros H; apply fname_of_inj in H; lia).
      by apply Hal.
  - destruct (decide (j = i)) as [->|Hji].
    + by rewrite slot_rollback_eq in Hu.
    + rewrite slot_rollback_ne, slot_mark_used_ne in Hu, Ht by lia.
      by apply Hal.
Qed.

Lemma dirs_aligned_same w w' :
  inode_table w' = inode_table w -> files w' = files w ->
  dirs_aligned w -> dirs_aligned w'.
Proof. intros Ht Hf H j. rewrite Ht, Hf. apply H. Qed.

Section Alignment.

Variable ok : mode -> string -> bool.

Lemma cmd_mkdir_table_ok cwd nm w :
  table_ok (inode_table w) -> table_ok (inode_table (cmd_mkdir ok cwd nm w).2).
Proof.
  unfold table_ok. intros H. rewrite cmd_mkdir_eq.
  destruct (dir_listing ok w cwd ≫= find (named nm)); [done|]. cbv zeta.
  destruct (_ <? 0); [done|]. unfold created.
  destruct (ok WB _); [destruct (ok AB _)|]; cbn [snd inode_table];
    by rewrite ?length_rollback, length_mark_used.
Qed.

Lemma cmd_touch_table_ok cwd nm w :
  table_ok (inode_table w) -> table_ok (inode_table (cmd_touch ok cwd nm w).2).
Proof.
  unfold table_ok. intros H. rewrite cmd_touch_eq.
  destruct (dir_listing ok w cwd ≫= find (named nm)); [done|]. cbv zeta.
  destruct (_ <? 0); [done|]. unfold created.
  destruct (ok WB _); [destruct (ok AB _)|]; cbn [snd inode_table];
    by rewrite ?length_rollback, length_mark_used.
Qed.

Lemma cmd_mkdir_dirs_aligned cwd nm w :
  table_ok (inode_table w) -> cwd_ok cwd w ->
  dirs_aligned w -> dirs_aligned (cmd_mkdir ok cwd nm w).2.
Proof.
  intros Hlen Hcwd Hal. rewrite cmd_mkdir_eq.
  destruct (dir_listing ok w cwd ≫= find (named nm));
    [by apply (dirs_aligned_same w)|]. cbv zeta.
  pose proof (find_free_range (inode_table w)) as Hr. cbv zeta in Hr.
  destruct (Z.ltb_spec (find_free_loop (Z.to_nat MAX_INODES) 0 (inode_table w)) 0);
    [by apply (dirs_aligned_same w)|].
  destruct Hr as [Hr|[Hr Hfree]]; [lia|]. cbn [snd].
  apply created_dirs_aligned; try done;
    try (intros _; apply aligned_dir_stream).
  rewrite Hlen. unfold MAX_INODES in *. lia.
Qed.

Lemma cmd_touch_dirs_aligned cwd nm w :
  table_ok (inode_table w) -> cwd_ok cwd w ->
  dirs_aligned w -> dirs_aligned (cmd_touch ok cwd nm w).2.
Proof.
  intros Hlen Hcwd Hal. rewrite cmd_touch_eq.
  destruct (dir_listing ok w cwd ≫= find (named nm)); [done|]. cbv zeta.
  pose proof (find_free_range (inode_table w)) as Hr. cbv zeta in Hr.
  destruct (Z.ltb_spec (find_free_loop (Z.to_nat MAX_INODES) 0 (inode_table w)) 0);
    [by apply (dirs_aligned_same w)|].
  destruct Hr as [Hr|[Hr Hfree]]; [lia|]. cbn [snd].
  apply created_dirs_aligned; try done.
  rewrite Hlen. unfold MAX_INODES in *. lia.
Qed.

Lemma save_dirs_aligned w :
  dirs_aligned w -> dirs_aligned (save_inodes_list ok w).2.
Proof.
  intros Hal. rewrite save_inodes_list_eq.
  destruct (ok WB inodes_list); [|by apply (dirs_aligned_same w)].
  intros j Hj Hu Ht. cbn [snd set_files files inode_table] in *.
  rewrite content_insert_ne by (apply not_eq_sym, fname_of_not_table).
  by apply Hal.
Qed.

Lemma exec_line_table_ok line cwd w :
  table_ok (inode_table w) ->
  table_ok (inode_table (exec_line ok line cwd w).2).
Proof.
  intros Hlen. exec_cases; try exact Hlen.
  - by rewrite cmd_ls_table.
  - by rewrite cmd_cd_table.
  - by apply cmd_mkdir_table_ok.
  - by apply cmd_touch_table_ok.
  - by rewrite save_inodes_list_table.
Qed.

Lemma exec_line_dirs_aligned line cwd w :
  table_ok (inode_table w) -> cwd_ok cwd w ->
  dirs_aligned w -> dirs_aligned (exec_line ok line cwd w).2.
Proof.
  intros Hlen Hcwd Hal. exec_cases; try exact Hal.
  - apply (dirs_aligned_same w); [apply cmd_ls_table|apply cmd_ls_files|done].
  - apply (dirs_aligned_same w); [apply cmd_cd_table|apply cmd_cd_files|done].
  - by apply cmd_mkdir_dirs_aligned.
  - by apply cmd_touch_dirs_aligned.
  - by apply save_dirs_aligned.
Qed.

End Alignment.

(** in a session whose storage root has well-formed directory streams when
    the loop is entered, the table keeps its 1024 slots and the directory
    streams stay well formed *)
Lemma reachable_well_formed w0 :
  (forall ok w1, load_inodes_list ok (clear_table w0).2 = (true, w1) ->
                 table_ok (inode_table w1) /\ dirs_aligned w1) ->
  forall cwd w, reachable w0 cwd w ->
                cwd_ok cwd w /\ table_ok (inode_table w) /\ dirs_aligned w.
Proof.
  intros Hstart cwd w H.
  induction H as [ok w1 Hload Hroot|
    ok line cwd w fl cwd' w' Hr IH Hstep|ok cwd w Hr IH].
  - split; [|by eapply Hstart].
    apply orb_false_iff in Hroot as [Hu Hty].
    apply Z.eqb_neq in Hu. apply negb_false_iff, bool_decide_eq_true in Hty.
    split; [unfold MAX_INODES; lia|done].
  - destruct IH as (Hc & Hl & Ha).
    pose proof (exec_line_cwd_ok ok line cwd w Hc) as H1.
    pose proof (exec_line_table_ok ok line cwd w Hl) as H2.
    pose proof (exec_line_dirs_aligned ok line cwd w Hl Hc Ha) as H3.
    by rewrite Hstep in H1, H2, H3.
  - destruct IH as (Hc & Hl & Ha). split; [|split].
    + eapply keeps_used_cwd_ok; [|exact Hc].
      apply keeps_used_table, save_inodes_list_table.
    + by rewrite save_inodes_list_table.
    + by apply save_dirs_aligned.
Qed.

(** ** A session, run *)

(** [mkdir a], [cd a], [touch b], [ls], [exit] on a root that holds the root
    directory only: [ls] prints the two self links and the new file, and the
    table file written on exit lists three inodes *)
Example session_run :
  let r := main (fun _ => all_ok) (fun _ => true) (fun _ => true)
             [bytes "fs_emulator"; bytes "fs"]
             [line "mkdir a"; line "cd a"; line "touch b"; line "ls";
              line "exit"] disk0 in
  r.1 = 0
  /\ out r.2 = [Stdout ("1 ." +:+ nl); Stdout ("0 .." +:+ nl);
                Stdout ("2 b" +:+ nl)]
  /\ files r.2 !! inodes_list
     = Some (enc_pairs [(0, ch_d); (1, ch_d); (2, ch_f)])
  /\ files r.2 !! fname_of 2 = Some (bytes "b").
Proof. by_eval. Qed.

(** a command line with a missing or an extra argument is rejected *)
Example invalid_lines :
  out (main (fun _ => all_ok) (fun _ => true) (fun _ => true)
         [bytes "fs_emulator"; bytes "fs"]
         [line "cd"; line "ls x"; line "mkdir a b"; line ""; line "frob"]
         disk0).2
  = replicate 4 (Stderr ("Invalid command" +:+ nl)).
Proof. by_eval. Qed.

(** start-up fails on a root whose table does not list inode 0 *)
Example no_root_inode :
  let r := main (fun _ => all_ok) (fun _ => true) (fun _ => true)
             [bytes "fs_emulator"; bytes "fs"] []
             (mkWorld [] {[ inodes_list := enc_pairs [(1, ch_d)] ]} []) in
  r.1 = 1 /\ out r.2 = [Stderr ("inode 0 is not a directory" +:+ nl)].
Proof. by_eval. Qed.

(** * Further properties of the code *)

(** [by_eval] on a closed statement, whatever the context holds *)
Ltac closed_eval := clear; by_eval.

(** ** Loading any table file *)

Lemma table_records_loop_fuel f1 f2 s :
  (length s <= f1)%nat -> (length s <= f2)%nat ->
  table_records_loop f1 s = table_records_loop f2 s.
Proof.
  revert f2 s. induction f1 as [|f1 IH]; intros f2 s H1 H2.
  - destruct s; [|simpl in H1; lia]. by destruct f2.
  - destruct f2 as [|f2].
    { destruct s; [done|simpl in H2; lia]. }
    cbn [table_records_loop].
    destruct (fread 4 s) as [[ib s1]|] eqn:E1; [|done].
    destruct (fread 1 s1) as [[tb s2]|] eqn:E2; [|done].
    apply fread_Some in E1 as [-> L1]. apply fread_Some in E2 as [-> L2].
    rewrite !length_app in H1, H2. f_equal. apply IH; lia.
Qed.

Lemma table_records_unfold s :
  table_records s =
  match fread 4 s with
  | None => []
  | Some (ib, s1) =>
      match fread 1 s1 with
      | None => []
      | Some (tb, s2) => (u32_of_bytes ib, hd x00 tb) :: table_records s2
      end
  end.
Proof.
  unfold table_records at 1. destruct s as [|c s]; [done|].
  cbn [length table_records_loop].
  destruct (fread 4 (c :: s)) as [[ib s1]|] eqn:E1; [|done].
  destruct (fread 1 s1) as [[tb s2]|] eqn:E2; [|done].
  f_equal. apply table_records_loop_fuel; [|done].
  apply fread_Some in E1 as [E1 L1]. apply fread_Some in E2 as [-> L2].
  apply (f_equal length) in E1. rewrite !length_app in E1.
  cbn [length] in E1. lia.
Qed.

Lemma table_records_short s : (length s < REC_SIZE)%nat -> table_records s = [].
Proof.
  intros H. rewrite table_records_unfold.
  destruct (fread 4 s) as [[ib s1]|] eqn:E1; [|done].
  apply fread_Some in E1 as [-> L1]. rewrite length_app in H.
  rewrite fread_short; [done|]. unfold REC_SIZE in H. lia.
Qed.

Lemma table_records_cons i c r :
  0 <= i < 4294967296 ->
  table_records (u32_bytes i ++ c :: r) = (i, c) :: table_records r.
Proof.
  intros Hi. rewrite table_records_unfold, fread_app by done.
  change (fread 1 (c :: r)) with (Some ([c], r)). cbn [hd].
  by rewrite u32_of_bytes_of.
Qed.

Lemma table_records_enc ps r :
  Forall (fun p : Z * byte => 0 <= p.1 < 4294967296) ps ->
  table_records (enc_pairs ps ++ r) = ps ++ table_records r.
Proof.
  induction 1 as [|[i c] ps Hi _ IH]; [done|].
  cbn [enc_pairs app]. rewrite <- app_assoc. cbn [app].
  by rewrite table_records_cons, IH.
Qed.

Lemma table_records_range s p : p ∈ table_records s -> 0 <= p.1 < 4294967296.
Proof.
  remember (length s) as n eqn:Hn. revert s Hn.
  induction n as [n IH] using lt_wf_ind. intros s ->.
  rewrite table_records_unfold.
  destruct (fread 4 s) as [[ib s1]|] eqn:E1; [|by intros ?%elem_of_nil].
  destruct (fread 1 s1) as [[tb s2]|] eqn:E2; [|by intros ?%elem_of_nil].
  apply fread_Some in E1 as [-> L1]. apply fread_Some in E2 as [-> L2].
  rewrite elem_of_cons. intros [->|H].
  - apply u32_of_bytes_range.
  - eapply IH; [|reflexivity|exact H]. rewrite !length_app. lia.
Qed.

(** a record passes the two tests of the loop exactly when it is a valid mark *)
Lemma load_warning_valid p :
  0 <= p.1 -> load_warning p = [] <-> valid_mark p = true.
Proof.
  destruct p as [i c]. unfold load_warning, valid_mark. cbn [fst snd].
  intros Hi. destruct (Z.leb_spec MAX_INODES i), (Z.leb_spec 0 i),
    (Z.ltb_spec i MAX_INODES), (valid_type c); cbn; split; (done || lia).
Qed.

Lemma load_loop_records fuel : forall s w,
  (length s <= fuel)%nat ->
  load_loop fuel s w
  = (tt, mkWorld
           (foldl mark_used (inode_table w)
              (List.filter valid_mark (table_records s)))
           (files w)
           (out w ++ flat_map load_warning (table_records s))).
Proof.
  induction fuel as [|fuel IH]; intros s [t fs o] Hfuel.
  - destruct s; [|simpl in Hfuel; lia]. cbn. by rewrite app_nil_r.
  - rewrite table_records_unfold. cbn [load_loop].
    destruct (fread 4 s) as [[ib s1]|] eqn:E1;
      [|cbn; by rewrite app_nil_r].
    destruct (fread 1 s1) as [[tb s2]|] eqn:E2;
      [|cbn; by rewrite app_nil_r].
    apply fread_Some in E1 as [-> L1]. apply fread_Some in E2 as [-> L2].
    rewrite !length_app in Hfuel.
    pose proof (u32_of_bytes_range ib) as Hib.
    set (i := u32_of_bytes ib) in *. set (c := hd x00 tb).
    cbn [List.filter flat_map]. unfold load_warning at 1, valid_mark at 1.
    cbn [fst snd].
    destruct (Z.leb_spec MAX_INODES i) as [Hbig|Hsmall].
    + replace (i <? MAX_INODES) with false by (symmetry; apply Z.ltb_ge; lia).
      rewrite andb_false_r. cbn [andb].
      rewrite bind_eq. unfold eprint, emit at 1. cbn [fst snd].
      rewrite IH by lia. unfold set_out. cbn [inode_table files out].
      by rewrite <- app_assoc.
    + replace (0 <=? i) with true by (symmetry; apply Z.leb_le; lia).
      replace (i <? MAX_INODES) with true by (symmetry; apply Z.ltb_lt; lia).
      cbn [andb]. unfold valid_type.
      destruct (bool_decide (c = ch_d)), (bool_decide (c = ch_f));
        cbn [negb andb orb app].
      1-3: transitivity (load_loop fuel s2
                           (set_table (mark_used t (i, c)) (mkWorld t fs o)));
        [reflexivity|rewrite IH by lia; reflexivity].
      rewrite bind_eq. unfold eprint, emit at 1. cbn [fst snd].
      rewrite IH by lia. unfold set_out. cbn [inode_table files out].
      by rewrite <- app_assoc.
Qed.

Lemma mark_used_typed t p :
  valid_mark p = true ->
  Forall (fun s => slot_typed s = true /\ (used s = 0 \/ used s = 1)) t ->
  Forall (fun s => slot_typed s = true /\ (used s = 0 \/ used s = 1))
         (mark_used t p).
Proof.
  destruct p as [i c]. intros [_ Hc]%valid_mark_inv Ht.
  rewrite mark_used_insert. apply Forall_insert; [done|].
  split; [|by right]. unfold slot_typed, valid_type. cbn.
  by destruct Hc as [-> | ->].
Qed.

Lemma marks_typed_any ps : forall t,
  Forall (fun p => valid_mark p = true) ps ->
  Forall (fun s => slot_typed s = true /\ (used s = 0 \/ used s = 1)) t ->
  Forall (fun s => slot_typed s = true /\ (used s = 0 \/ used s = 1))
         (foldl mark_used t ps).
Proof.
  induction ps as [|p ps IH]; intros t Hv Ht; [done|].
  apply Forall_cons in Hv as [Hp Hv]. cbn [foldl].
  apply IH; [done|]. by apply mark_used_typed.
Qed.

Lemma fresh_table_typed :
  Forall (fun s => slot_typed s = true /\ (used s = 0 \/ used s = 1))
         fresh_table.
Proof. apply Forall_replicate. split; [done|by left]. Qed.

Lemma filter_valid_Forall ps :
  Forall (fun p => valid_mark p = true) (List.filter valid_mark ps).
Proof.
  apply Forall_forall. intros p Hp.
  by apply list_elem_of_In, filter_In in Hp as [_ ?].
Qed.

Lemma typed_table_Forall t :
  Forall (fun s => slot_typed s = true /\ (used s = 0 \/ used s = 1)) t ->
  typed_table t = true.
Proof.
  intros H. unfold typed_table. apply forallb_forall. intros s Hs.
  rewrite Forall_forall in H. by apply H, list_elem_of_In.
Qed.

(** what [load_inodes_list] does on the world [w] whose table has been
    cleared, when the table file holds [s] and can be opened *)
Lemma load_cleared ok w s :
  ok RB inodes_list = true -> files w !! inodes_list = Some s ->
  load_inodes_list ok (clear_table w).2
  = (true, mkWorld (marked (List.filter valid_mark (table_records s)))
                   (files w)
                   (out w ++ flat_map load_warning (table_records s))).
Proof.
  intros Hok Hs. unfold load_inodes_list, fopen_rb. rewrite bind_eq.
  cbn [fst snd clear_table set_table files]. rewrite Hok, Hs.
  rewrite bind_eq, load_loop_records by done. reflexivity.
Qed.

Lemma load_failed ok w :
  ok RB inodes_list = false \/ files w !! inodes_list = None ->
  load_inodes_list ok w = (false, log (Perror "inodes_list") w).
Proof.
  intros H. unfold load_inodes_list, fopen_rb. rewrite bind_eq. cbn [fst snd].
  destruct H as [-> | ->]; [done|]. by destruct (ok RB inodes_list).
Qed.

(** X1: whatever bytes the table file holds, clearing the table and loading
    the file returns normally, leaves every file as it was and yields a
    table of 1024 slots in which every slot is free or has [used = 1] with
    type ['d'] or ['f']. *)
Theorem load_any_file_typed ok w s :
  ok RB inodes_list = true -> files w !! inodes_list = Some s ->
  let r := load_inodes_list ok (clear_table w).2 in
  r.1 = true
  /\ files r.2 = files w
  /\ table_ok (inode_table r.2)
  /\ typed_table (inode_table r.2) = true
  /\ (forall j, used (slot (inode_table r.2) j) = 0
                \/ used (slot (inode_table r.2) j) = 1).
Proof.
  intros Hok Hs. cbv zeta. rewrite (load_cleared ok w s Hok Hs).
  cbn [fst snd files inode_table].
  pose proof (marks_typed_any _ _ (filter_valid_Forall (table_records s))
                fresh_table_typed) as HT.
  split; [done|]. split; [done|]. split.
  { unfold table_ok, marked. rewrite length_marks. apply length_replicate. }
  split; [by apply typed_table_Forall|].
  intros j. unfold slot.
  destruct (marked _ !! Z.to_nat j) as [x|] eqn:E; [|by left].
  rewrite Forall_forall in HT.
  by apply (HT x (list_elem_of_lookup_2 _ _ _ E)).
Qed.

Lemma load_any_file_typed_witness :
  let r := load_inodes_list all_ok (clear_table messy_disk).2 in
  r.1 = true /\ typed_table (inode_table r.2) = true.
Proof.
  pose proof (load_any_file_typed all_ok messy_disk messy_file
                ltac:(closed_eval) ltac:(closed_eval)) as (H1 & _ & _ & H2 & _).
  by split.
Defined.

Lemma filter_valid_twice ps :
  List.filter valid_mark (List.filter valid_mark ps) = List.filter valid_mark ps.
Proof.
  induction ps as [|p ps IH]; [done|]. cbn [List.filter].
  destruct (valid_mark p) eqn:E; [|done]. cbn [List.filter]. by rewrite E, IH.
Qed.

Lemma flat_map_warning_valid ps :
  Forall (fun p => valid_mark p = true) ps -> flat_map load_warning ps = [].
Proof.
  induction 1 as [|p ps Hp _ IH]; [done|]. cbn [flat_map]. rewrite IH.
  pose proof Hp as Hp'. destruct p as [i c].
  apply valid_mark_inv in Hp' as [Hi _].
  by rewrite (proj2 (load_warning_valid (i, c) ltac:(cbn; lia)) Hp).
Qed.

Lemma load_warning_cases p :
  0 <= p.1 ->
  (valid_mark p = true /\ load_warning p = [])
  \/ (valid_mark p = false
      /\ exists e, load_warning p = [e] /\ is_diagnostic e = true).
Proof.
  intros Hi. destruct (valid_mark p) eqn:E.
  - left. split; [done|]. by apply load_warning_valid.
  - right. split; [done|].
    assert (load_warning p <> []) as Hne.
    { intros H. apply load_warning_valid in H; [congruence|done]. }
    unfold load_warning in *.
    destruct (MAX_INODES <=? p.1); [by eexists|].
    destruct (negb (valid_type p.2)); [by eexists|done].
Qed.

Lemma diagnostics_count ps :
  (forall p, p ∈ ps -> 0 <= p.1 < 4294967296) ->
  length (List.filter is_diagnostic (flat_map load_warning ps))
  = length (List.filter (fun p => negb (valid_mark p)) ps).
Proof.
  induction ps as [|p ps IH]; intros Hr; [done|].
  cbn [flat_map List.filter]. rewrite List.filter_app, length_app.
  rewrite IH by (intros q Hq; apply Hr; by right).
  destruct (load_warning_cases p) as [[Hv ->]|(Hv & e & -> & He)].
  - apply Hr. by left.
  - by rewrite Hv.
  - rewrite Hv. cbn [List.filter negb]. by rewrite He.
Qed.

Lemma warnings_are_diagnostics ps :
  List.filter is_diagnostic (flat_map load_warning ps)
  = flat_map load_warning ps.
Proof.
  induction ps as [|p ps IH]; [done|].
  cbn [flat_map]. rewrite List.filter_app, IH. f_equal.
  unfold load_warning. destruct (MAX_INODES <=? p.1); [done|].
  by destruct (negb (valid_type p.2)).
Qed.

(** X2: [load_inodes_list] skips the records whose index is 1024 or more and
    those whose type is neither ['d'] nor ['f']: the table it builds is the
    one built from the remaining records alone, and it prints exactly one
    diagnostic for each skipped record and nothing else. *)
Theorem load_skips_invalid_records ok w s :
  ok RB inodes_list = true -> files w !! inodes_list = Some s ->
  let r := load_inodes_list ok (clear_table w).2 in
  let kept := List.filter valid_mark (table_records s) in
  inode_table r.2 = marked kept
  /\ (forall ok' w', ok' RB inodes_list = true ->
        files w' !! inodes_list = Some (enc_pairs kept) ->
        inode_table (load_inodes_list ok' (clear_table w').2).2
        = inode_table r.2
        /\ diagnostics w' (load_inodes_list ok' (clear_table w').2).2 = [])
  /\ length (diagnostics w r.2)
     = length (List.filter (fun p => negb (valid_mark p)) (table_records s))
  /\ diagnostics w r.2 = drop (length (out w)) (out r.2).
Proof.
  intros Hok Hs. cbv zeta. rewrite (load_cleared ok w s Hok Hs).
  cbn [snd inode_table]. split; [done|]. split; [|split].
  - intros ok' w' Hok' Hs'. rewrite (load_cleared ok' w' _ Hok' Hs').
    cbn [snd inode_table]. rewrite <- (app_nil_r (enc_pairs _)).
    rewrite table_records_enc; cycle 1.
    { eapply Forall_impl; [apply filter_valid_Forall|].
      intros [i c] [Hi _]%valid_mark_inv. cbn. unfold MAX_INODES in Hi. lia. }
    rewrite (table_records_short []) by (cbn; unfold REC_SIZE; lia).
    rewrite app_nil_r, filter_valid_twice. split; [done|].
    unfold diagnostics. cbn [out]. rewrite drop_app_length.
    by rewrite flat_map_warning_valid by apply filter_valid_Forall.
  - unfold diagnostics. cbn [out]. rewrite drop_app_length.
    apply diagnostics_count. intros p Hp. by apply (table_records_range s).
  - unfold diagnostics. cbn [out]. rewrite drop_app_length.
    apply warnings_are_diagnostics.
Qed.

Lemma load_skips_invalid_records_witness :
  let r := load_inodes_list all_ok (clear_table messy_disk).2 in
  used_pairs (inode_table r.2) = [(0, ch_d); (3, ch_d)]
  /\ length (diagnostics messy_disk r.2) = 2%nat.
Proof.
  pose proof (load_skips_invalid_records all_ok messy_disk messy_file
                ltac:(closed_eval) ltac:(closed_eval)) as (Ht & _ & Hn & _).
  cbv zeta in *. split; [by rewrite Ht|by rewrite Hn].
Defined.

Lemma filter_not_in_fst i ps :
  Forall (fun q : Z * byte => q.1 <> i \/ valid_mark q = false) ps ->
  i ∉ (List.filter valid_mark ps).*1.
Proof.
  induction 1 as [|q ps Hq _ IH]; cbn [List.filter].
  - apply not_elem_of_nil.
  - destruct (valid_mark q) eqn:E; [|done].
    cbn [fmap list_fmap]. apply not_elem_of_cons. split; [|done].
    destruct Hq as [?|?]; congruence.
Qed.

(** X3: when the table file lists a slot more than once, the last record
    that passes the two tests decides: the slot is loaded as used with the
    type of that record. *)
Theorem load_last_record_wins ok w s pre i c post :
  ok RB inodes_list = true -> files w !! inodes_list = Some s ->
  table_records s = pre ++ (i, c) :: post ->
  valid_mark (i, c) = true ->
  Forall (fun q : Z * byte => q.1 <> i \/ valid_mark q = false) post ->
  slot (inode_table (load_inodes_list ok (clear_table w).2).2) i
  = mkInodeInfo 1 c.
Proof.
  intros Hok Hs Hrec Hv Hpost. rewrite (load_cleared ok w s Hok Hs).
  cbn [snd inode_table]. rewrite Hrec, List.filter_app.
  cbn [List.filter]. rewrite Hv. unfold marked.
  rewrite foldl_app. cbn [foldl].
  pose proof Hv as [Hi _]%valid_mark_inv.
  rewrite marks_slot_other;
    [|lia|by apply filter_not_in_fst|apply filter_valid_Forall].
  apply slot_mark_used_eq. rewrite length_marks.
  unfold fresh_table. rewrite length_replicate. unfold MAX_INODES in *. lia.
Qed.

Lemma load_last_record_wins_witness :
  slot (inode_table (load_inodes_list all_ok (clear_table messy_disk).2).2) 3
  = mkInodeInfo 1 ch_d.
Proof.
  apply (load_last_record_wins all_ok messy_disk messy_file
           [(0, ch_d); (5000, ch_d); (3, ch_f)] 3 ch_d [(3, x78)]);
    try closed_eval.
  constructor; [right; closed_eval|constructor].
Defined.

Lemma table_records_rec rec r :
  length rec = REC_SIZE ->
  table_records (rec ++ r)
  = (u32_of_bytes (take 4 rec), hd x00 (drop 4 rec)) :: table_records r.
Proof.
  intros L. rewrite table_records_unfold.
  rewrite <- (take_drop 4 rec) at 1. rewrite <- app_assoc.
  rewrite fread_app by (rewrite length_take; unfold REC_SIZE in L; lia).
  destruct (drop 4 rec) as [|b [|b' l]] eqn:E;
    apply (f_equal length) in E; rewrite length_drop, L in E;
    try discriminate E.
  reflexivity.
Qed.

Lemma table_records_app s t :
  (length s mod REC_SIZE = 0)%nat ->
  table_records (s ++ t) = table_records s ++ table_records t.
Proof.
  remember (length s) as n eqn:Hn. revert s Hn.
  induction n as [n IH] using lt_wf_ind. intros s -> Ha.
  destruct (decide (s = [])) as [->|Hs]; [done|].
  assert (REC_SIZE <= length s)%nat as Hle.
  { destruct s as [|x s]; [done|].
    destruct (decide (REC_SIZE <= length (x :: s))%nat) as [|Hn]; [done|].
    rewrite Nat.mod_small in Ha by lia. simpl in Ha. lia. }
  assert (length (take REC_SIZE s) = REC_SIZE) as L
    by (rewrite length_take; lia).
  rewrite <- (take_drop REC_SIZE s), <- app_assoc.
  rewrite (table_records_rec (take REC_SIZE s) (drop REC_SIZE s ++ t)) by done.
  rewrite (table_records_rec (take REC_SIZE s) (drop REC_SIZE s)) by done.
  cbn [app]. f_equal. eapply IH; [|reflexivity|].
  - rewrite length_drop. unfold REC_SIZE in *. lia.
  - rewrite length_drop. rewrite <- Ha.
    replace (length s) with ((length s - REC_SIZE) + 1 * REC_SIZE)%nat at 2 by lia.
    by rewrite Nat.Div0.mod_add.
Qed.

(** X4: a last record cut short (fewer than 5 bytes after whole records) is
    ignored: the file loads as the file without these bytes does. *)
Theorem load_ignores_truncated_record ok w s tail :
  (length s mod REC_SIZE = 0)%nat -> (length tail < REC_SIZE)%nat ->
  ok RB inodes_list = true ->
  files w !! inodes_list = Some (s ++ tail) ->
  let w' := set_files (<[inodes_list := s]> (files w)) w in
  let r := load_inodes_list ok (clear_table w).2 in
  let r' := load_inodes_list ok (clear_table w').2 in
  r.1 = r'.1 /\ inode_table r.2 = inode_table r'.2 /\ out r.2 = out r'.2.
Proof.
  intros Ha Ht Hok Hs. cbv zeta.
  rewrite (load_cleared ok w _ Hok Hs).
  rewrite (load_cleared ok _ s Hok) by apply lookup_insert_eq.
  rewrite table_records_app, (table_records_short tail), app_nil_r by done.
  done.
Qed.

Lemma load_ignores_truncated_record_witness :
  inode_table (load_inodes_list all_ok (clear_table messy_disk).2).2
  = inode_table (load_inodes_list all_ok
       (clear_table (set_files (<[inodes_list := enc_pairs messy_records]>
                                  (files messy_disk)) messy_disk)).2).2.
Proof.
  apply (load_ignores_truncated_record all_ok messy_disk
           (enc_pairs messy_records) [x07; x00]); closed_eval.
Defined.

(** ** Saving *)

Lemma used_from_sorted k t : ascending (used_from k t).
Proof.
  revert k. induction t as [|s t IH]; intros k; cbn [used_from].
  - constructor.
  - destruct (is_used s); cbn [app]; [|apply IH].
    constructor; [apply IH|].
    apply Forall_forall. intros [i c] Hin. cbn.
    apply used_from_bound in Hin. lia.
Qed.

Lemma ascending_NoDup ps : ascending ps -> NoDup ps.*1.
Proof.
  induction 1 as [|p ps _ IH Hp]; cbn [fmap list_fmap]; constructor; [|done].
  rewrite list_elem_of_fmap. intros (q & Hq & Hin).
  rewrite Forall_forall in Hp. specialize (Hp q Hin). lia.
Qed.

Lemma used_pairs_marked ps :
  ascending ps -> forallb valid_mark ps = true -> used_pairs (marked ps) = ps.
Proof.
  intros Hs Hv.
  apply (StronglySorted_unique_strong (fun p q : Z * byte => p.1 < q.1)).
  - intros p q _ _ H1 H2. lia.
  - apply used_from_sorted.
  - exact Hs.
  - apply used_pairs_marks; [by apply ascending_NoDup|].
    apply Forall_forall. intros p Hp. rewrite forallb_forall in Hv.
    by apply Hv, list_elem_of_In.
Qed.

Lemma filter_valid_all ps :
  forallb valid_mark ps = true -> List.filter valid_mark ps = ps.
Proof.
  induction ps as [|p ps IH]; [done|]. cbn [forallb List.filter].
  intros [Hp Hps]%andb_true_iff. by rewrite Hp, IH.
Qed.

(** X5: a table file that lists valid records with strictly ascending
    indexes survives loading and saving byte for byte: after start-up's load,
    [save_inodes_list] writes the very same bytes, so the files of the
    storage root are exactly as before. *)
Theorem load_save_roundtrip ok1 ok2 w ps :
  ascending ps -> forallb valid_mark ps = true ->
  ok1 RB inodes_list = true -> ok2 WB inodes_list = true ->
  files w !! inodes_list = Some (enc_pairs ps) ->
  let w1 := (load_inodes_list ok1 (clear_table w).2).2 in
  let w2 := (save_inodes_list ok2 w1).2 in
  files w2 !! inodes_list = Some (enc_pairs ps)
  /\ files w2 = files w
  /\ out w2 = out w.
Proof.
  intros Hs Hv Hrb Hwb Hf. cbv zeta.
  rewrite (load_cleared ok1 w _ Hrb Hf).
  rewrite <- (app_nil_r (enc_pairs ps)), table_records_enc; cycle 1.
  { apply Forall_forall. intros [i c] Hin. rewrite forallb_forall in Hv.
    apply list_elem_of_In, Hv, valid_mark_inv in Hin as [Hi _].
    cbn. unfold MAX_INODES in Hi. lia. }
  rewrite (table_records_short []) by (cbn; unfold REC_SIZE; lia).
  rewrite !app_nil_r, filter_valid_all by done.
  rewrite save_inodes_list_eq, Hwb.
  cbn [snd set_files files inode_table out].
  rewrite take_ge by (unfold marked; rewrite length_marks;
                      unfold fresh_table; by rewrite length_replicate).
  rewrite used_pairs_marked by done.
  split; [apply lookup_insert_eq|]. split; [by apply insert_id|].
  rewrite flat_map_warning_valid; [apply app_nil_r|].
  apply Forall_forall. intros p Hp. rewrite forallb_forall in Hv.
  by apply Hv, list_elem_of_In.
Qed.

Lemma load_save_roundtrip_witness :
  files (save_inodes_list all_ok
           (load_inodes_list all_ok (clear_table disk0).2).2).2
  = files disk0.
Proof.
  refine (proj1 (proj2 (load_save_roundtrip all_ok all_ok disk0 [(0, ch_d)]
                          _ ltac:(closed_eval) ltac:(closed_eval) ltac:(closed_eval)
                          ltac:(closed_eval)))).
  repeat constructor.
Defined.

(** X6: [save_inodes_list] never changes the inode table nor any file other
    than [inodes_list]; when the table file cannot be opened for writing it
    only prints a diagnostic, and otherwise it prints nothing and writes 5
    bytes for each used slot. *)
Theorem save_touches_only_table_file ok w :
  let w' := (save_inodes_list ok w).2 in
  inode_table w' = inode_table w
  /\ (forall f, f <> inodes_list -> files w' !! f = files w !! f)
  /\ (ok WB inodes_list = false ->
      files w' = files w /\ out w' = out w ++ [Perror "inodes_list"])
  /\ (ok WB inodes_list = true -> table_ok (inode_table w) ->
      out w' = out w
      /\ exists bs, files w' !! inodes_list = Some bs
           /\ length bs
              = (REC_SIZE * length (used_pairs (inode_table w)))%nat).
Proof.
  cbv zeta. rewrite save_inodes_list_eq.
  destruct (ok WB inodes_list); cbn [snd].
  - split; [done|]. split.
    { intros f Hf. cbn [set_files files]. by rewrite lookup_insert_ne. }
    split; [done|]. intros _ Hlen. split; [done|].
    rewrite take_ge by (rewrite Hlen; lia).
    eexists. split; [apply lookup_insert_eq|].
    induction (used_pairs (inode_table w)) as [|[i c] ps IH]; [done|].
    cbn [enc_pairs length]. rewrite length_app. cbn [length].
    rewrite IH. unfold REC_SIZE. cbn [u32_bytes length]. lia.
  - split; [done|]. split; [done|]. split; [done|]. done.
Qed.

Lemma save_touches_only_table_file_witness :
  (save_inodes_list no_create demo_tree).2
  = log (Perror "inodes_list") demo_tree
  /\ exists bs, files (save_inodes_list all_ok demo_tree).2 !! inodes_list
                = Some bs /\ length bs = 15%nat.
Proof.
  pose proof (save_touches_only_table_file no_create demo_tree)
    as (_ & _ & H & _).
  pose proof (save_touches_only_table_file all_ok demo_tree)
    as (_ & _ & _ & H').
  split; [closed_eval|].
  destruct (H' ltac:(closed_eval) ltac:(closed_eval)) as (_ & bs & Hbs & Hl).
  exists bs. split; [done|]. rewrite Hl. closed_eval.
Defined.

(** ** Directory streams *)

Lemma byte_of_Z_of_byte b : byte_of_Z (Z_of_byte b) = b.
Proof.
  unfold byte_of_Z. rewrite Z.mod_small by apply Z_of_byte_range.
  unfold Z_of_byte. rewrite N2Z.id, Byte.of_to_N. reflexivity.
Qed.

Lemma byte_of_Z_mod z b : z mod 256 = Z_of_byte b -> byte_of_Z z = b.
Proof.
  intros H. rewrite <- (byte_of_Z_of_byte b), <- H.
  unfold byte_of_Z. by rewrite Z.mod_mod.
Qed.

Lemma u32_bytes_of_bytes bs : length bs = 4%nat -> u32_bytes (u32_of_bytes bs) = bs.
Proof.
  destruct bs as [|b0 [|b1 [|b2 [|b3 [|? ?]]]]]; try discriminate. intros _.
  pose proof (Z_of_byte_range b0). pose proof (Z_of_byte_range b1).
  pose proof (Z_of_byte_range b2). pose proof (Z_of_byte_range b3).
  unfold u32_bytes, u32_of_bytes.
  repeat f_equal; apply byte_of_Z_mod;
    Z.to_euclidean_division_equations; lia.
Qed.

Lemma enc_dec_ent rec : length rec = ENT_SIZE -> enc_ent (dec_ent rec) = rec.
Proof.
  intros L. unfold enc_ent, dec_ent. cbn [inode name].
  rewrite u32_bytes_of_bytes by (rewrite length_take; unfold ENT_SIZE in L; lia).
  apply take_drop.
Qed.

Lemma dir_entries_encode s :
  exists tail, s = flat_map enc_ent (dir_entries s) ++ tail
               /\ (length tail < ENT_SIZE)%nat.
Proof.
  remember (length s) as n eqn:Hn. revert s Hn.
  induction n as [n IH] using lt_wf_ind. intros s ->.
  destruct (decide (length s < ENT_SIZE)%nat) as [Hlt|Hge].
  - exists s. by rewrite dir_entries_short.
  - assert (length (take ENT_SIZE s) = ENT_SIZE) as L
      by (rewrite length_take; lia).
    destruct (IH (length (drop ENT_SIZE s))
                ltac:(rewrite length_drop; unfold ENT_SIZE, NAME_LEN in *; lia)
                (drop ENT_SIZE s) eq_refl) as (tail & Hs & Ht).
    exists tail. split; [|done].
    rewrite <- (take_drop ENT_SIZE s) at 1 2.
    rewrite dir_entries_rec by done. cbn [flat_map].
    rewrite enc_dec_ent by done. rewrite <- app_assoc. by rewrite <- Hs.
Qed.

Lemma dir_entries_flat es tail :
  Forall wf_ent es -> (length tail < ENT_SIZE)%nat ->
  dir_entries (flat_map enc_ent es ++ tail) = es.
Proof.
  intros Hes Ht. induction Hes as [|e es He _ IH].
  - by apply dir_entries_short.
  - cbn [flat_map]. rewrite <- app_assoc, dir_entries_cons by done.
    by rewrite IH.
Qed.

Lemma dir_entries_length s : length (dir_entries s) = (length s / ENT_SIZE)%nat.
Proof.
  remember (length s) as n eqn:Hn. revert s Hn.
  induction n as [n IH] using lt_wf_ind. intros s ->.
  destruct (decide (length s < ENT_SIZE)%nat) as [Hlt|Hge].
  - rewrite dir_entries_short, Nat.div_small by done. done.
  - assert (length (take ENT_SIZE s) = ENT_SIZE) as L
      by (rewrite length_take; lia).
    rewrite <- (take_drop ENT_SIZE s) at 1.
    rewrite dir_entries_rec by done. cbn [length].
    rewrite (IH (length (drop ENT_SIZE s))
               ltac:(rewrite length_drop; unfold ENT_SIZE, NAME_LEN in *; lia)
               (drop ENT_SIZE s) eq_refl).
    rewrite length_drop.
    replace (length s) with ((length s - ENT_SIZE) + 1 * ENT_SIZE)%nat at 2 by lia.
    rewrite Nat.div_add by done. lia.
Qed.

Lemma aligned_flat es : Forall wf_ent es -> aligned (flat_map enc_ent es).
Proof.
  induction 1 as [|e es He _ IH]; [reflexivity|].
  cbn [flat_map]. apply aligned_app; [|done]. apply aligned_enc_ent, He.
Qed.

(** X7: the records of a directory stream are decoded and encoded without
    loss: writing well-formed entries one after the other, followed by fewer
    than 36 stray bytes, reads back as exactly these entries; and any stream
    is the encoding of the entries read from it followed by fewer than 36
    bytes that no reader sees. *)
Theorem dir_stream_codec :
  (forall es tail,
      Forall wf_ent es -> (length tail < ENT_SIZE)%nat ->
      dir_entries (flat_map enc_ent es ++ tail) = es)
  /\ (forall s,
        exists tail, s = flat_map enc_ent (dir_entries s) ++ tail
                     /\ (length tail < ENT_SIZE)%nat
                     /\ (aligned s <-> tail = []))
  /\ (forall s, length (dir_entries s) = (length s / ENT_SIZE)%nat).
Proof.
  split; [apply dir_entries_flat|]. split; [|apply dir_entries_length].
  intros s. destruct (dir_entries_encode s) as (tail & Hs & Ht).
  exists tail. split; [done|]. split; [done|].
  assert (aligned (flat_map enc_ent (dir_entries s))) as Ha.
  { apply aligned_flat, Forall_forall. intros e. apply dir_entries_wf. }
  unfold aligned in *. rewrite Hs at 1. rewrite length_app.
  split.
  - intros H. rewrite Nat.Div0.add_mod, Ha, Nat.add_0_l, Nat.Div0.mod_mod in H.
    rewrite Nat.mod_small in H by done. by destruct tail.
  - intros ->. cbn [length]. by rewrite Nat.add_0_r.
Qed.

Lemma dir_stream_codec_witness :
  dir_entries twice_a
  = [mkDirEnt 7 (make_name32 (bytes "a")); mkDirEnt 9 (make_name32 (bytes "a"))].
Proof.
  apply (proj1 dir_stream_codec
           [mkDirEnt 7 (make_name32 (bytes "a"));
            mkDirEnt 9 (make_name32 (bytes "a"))] [x01; x02; x03]).
  - repeat constructor; closed_eval.
  - closed_eval.
Defined.

Lemma find_snoc {A} (P : A -> bool) l e :
  find P (l ++ [e])
  = match find P l with
    | Some x => Some x
    | None => if P e then Some e else None
    end.
Proof.
  induction l as [|x l IH]; cbn [app find]; [done|].
  by destruct (P x).
Qed.

Lemma fresh_in_find_None ok w dir nm :
  dir_listing ok w dir ≫= find (named nm) = None <->
  ok RB (fname_of dir) = false \/ fresh_in w dir nm = true.
Proof.
  split.
  - unfold dir_listing, fresh_in, content.
    destruct (ok RB (fname_of dir)); [|by left].
    destruct (files w !! fname_of dir) as [s|]; [|by right].
    cbn [default from_option id fmap option_fmap option_map mbind option_bind].
    intros H. right. apply forallb_forall. intros e He.
    by rewrite (find_none _ _ H e He).
  - intros [H|H]; [|by apply fresh_in_find].
    unfold dir_listing. by rewrite H.
Qed.

(** X8: [dir_find] only reads: the world is as before.  An entry it returns
    is a record of the directory's stream, carries the 32 bytes of the
    encoded name and an inode id below 2^32.  It returns nothing exactly
    when the stream cannot be opened or no whole record of it carries the
    name; a directory whose stream does not exist is searched as empty. *)
Theorem dir_find_sound_complete ok dir nm w :
  (dir_find ok dir nm w).2 = w
  /\ (forall e, (dir_find ok dir nm w).1 = Some e ->
        ok RB (fname_of dir) = true
        /\ e ∈ dir_entries (content (files w) (fname_of dir))
        /\ name e = make_name32 nm
        /\ 0 <= inode e < 4294967296)
  /\ ((dir_find ok dir nm w).1 = None <->
      ok RB (fname_of dir) = false \/ fresh_in w dir nm = true)
  /\ (files w !! fname_of dir = None -> (dir_find ok dir nm w).1 = None).
Proof.
  rewrite dir_find_eq. cbn [fst snd]. split; [done|]. split; [|split].
  - intros e He. pose proof (dir_listing_find_wf _ _ _ _ _ He) as [Hi _].
    unfold dir_listing, content in *.
    destruct (ok RB (fname_of dir)); [|done].
    destruct (files w !! fname_of dir) as [s|]; [|done].
    cbn [default from_option id fmap option_fmap option_map mbind option_bind]
      in *.
    apply find_some in He as [Hin Hn]. split; [done|].
    split; [by apply list_elem_of_In|]. split; [|done].
    by apply bool_decide_eq_true in Hn.
  - apply fresh_in_find_None.
  - intros Hnone. unfold dir_listing. rewrite Hnone.
    by destruct (ok RB (fname_of dir)).
Qed.

Lemma dir_find_sound_complete_witness :
  (dir_find all_ok 0 (bytes "f") demo_tree).1
  = Some (mkDirEnt 2 (make_name32 (bytes "f")))
  /\ (dir_find all_ok 5 (bytes "f") demo_tree).1 = None.
Proof.
  pose proof (dir_find_sound_complete all_ok 5 (bytes "f") demo_tree)
    as (_ & _ & _ & H).
  split; [closed_eval|]. apply H. closed_eval.
Defined.

(** X9: [dir_append] fails without any effect when the stream cannot be
    opened for appending.  Otherwise it returns 1 and adds exactly one
    36-byte record at the end of the stream, touching neither the table, the
    output nor any other file.  On a stream of whole records the lookup
    afterwards obeys: a name that was found before is found as before (an
    older entry is never shadowed, even by an entry of the same name); the
    appended name, when it was not found before, is found with the appended
    inode id; any other name is still not found. *)
Theorem dir_append_lookup ok dir child nm w :
  let old := content (files w) (fname_of dir) in
  let new := mkDirEnt child (make_name32 nm) in
  let r := dir_append ok dir child nm w in
  (ok AB (fname_of dir) = false -> r = (false, w))
  /\ (ok AB (fname_of dir) = true ->
      r.1 = true
      /\ inode_table r.2 = inode_table w /\ out r.2 = out w
      /\ (forall f, f <> fname_of dir -> files r.2 !! f = files w !! f)
      /\ files r.2 !! fname_of dir = Some (old ++ enc_ent new)
      /\ length (enc_ent new) = ENT_SIZE
      /\ (aligned old -> 0 <= child < 4294967296 ->
          forall ok' q, ok' RB (fname_of dir) = true ->
            (dir_find ok' dir q r.2).1
            = match find (named q) (dir_entries old) with
              | Some e => Some e
              | None => if bool_decide (make_name32 nm = make_name32 q)
                        then Some new else None
              end)).
Proof.
  cbv zeta. rewrite dir_append_eq.
  destruct (ok AB (fname_of dir)); (split; [done|]); [intros _|done].
  cbn [fst snd set_files files inode_table out].
  split; [done|]. split; [done|]. split; [done|]. split.
  { intros f Hf. by rewrite lookup_insert_ne. }
  split; [apply lookup_insert_eq|].
  split; [apply enc_ent_length, make_name32_length|].
  intros Ha Hc ok' q Hrb. rewrite dir_find_eq. cbn [fst].
  unfold dir_listing. rewrite Hrb. unfold set_files. cbn [files].
  rewrite lookup_insert_eq.
  cbn [fmap option_fmap option_map mbind option_bind].
  rewrite dir_entries_snoc by (done || (split; [done|apply make_name32_length])).
  rewrite find_snoc. reflexivity.
Qed.

Lemma dir_append_lookup_witness :
  let w' := (dir_append all_ok 0 99 (bytes "a") demo_tree).2 in
  (dir_find all_ok 0 (bytes "a") w').1
  = Some (mkDirEnt 1 (make_name32 (bytes "a")))
  /\ (dir_append no_append 0 99 (bytes "a") demo_tree) = (false, demo_tree).
Proof.
  pose proof (dir_append_lookup all_ok 0 99 (bytes "a") demo_tree) as [_ H].
  destruct (H ltac:(closed_eval)) as (_ & _ & _ & _ & _ & _ & Hl).
  pose proof (dir_append_lookup no_append 0 99 (bytes "a") demo_tree) as [H' _].
  cbv zeta. split; [|by apply H'].
  pose proof (Hl ltac:(closed_eval) ltac:(closed_eval) all_ok (bytes "a")
                ltac:(closed_eval)) as E.
  vm_compute in E. vm_compute. exact E.
Defined.

Lemma c_str_terminated l : (length (c_str (l ++ [x00])) <= length l)%nat.
Proof.
  induction l as [|c l IH]; cbn [app c_str].
  - destruct (decide (x00 = x00)); [done|congruence].
  - destruct (decide (c = x00)); cbn [length]; lia.
Qed.

(** X10: [ls] prints one line per whole record of the directory's stream, in
    stream order, hence [length / 36] lines, and ignores a cut-off last
    record; each line shows at most 32 name bytes.  When the stream cannot
    be opened it prints one diagnostic instead.  In both cases the table and
    the files are as before. *)
Theorem ls_lists_whole_records ok cwd w :
  let w' := (cmd_ls ok cwd w).2 in
  inode_table w' = inode_table w /\ files w' = files w
  /\ (dir_listing ok w cwd = None -> out w' = out w ++ [Perror "ls"])
  /\ (forall s, ok RB (fname_of cwd) = true ->
        files w !! fname_of cwd = Some s ->
        out w' = out w ++ map ls_line (dir_entries s)
        /\ length (map ls_line (dir_entries s)) = (length s / ENT_SIZE)%nat
        /\ Forall (fun e => (length (c_str (name e ++ [x00])) <= NAME_LEN)%nat)
                  (dir_entries s)).
Proof.
  cbv zeta. split; [apply cmd_ls_table|]. split; [apply cmd_ls_files|].
  rewrite cmd_ls_eq. split.
  - by intros ->.
  - intros s Hok Hs. unfold dir_listing. rewrite Hok, Hs.
    cbn [fmap option_fmap option_map snd out set_out]. split; [done|].
    split; [by rewrite length_map, dir_entries_length|].
    apply Forall_forall. intros e [_ Hn]%dir_entries_wf.
    rewrite <- Hn. apply c_str_terminated.
Qed.

Lemma ls_lists_whole_records_witness :
  out (cmd_ls all_ok 4
         (mkWorld fresh_table {[ fname_of 4 := twice_a ]} [])).2
  = [Stdout ("7 a" +:+ nl); Stdout ("9 a" +:+ nl)].
Proof.
  pose proof (ls_lists_whole_records all_ok 4
                (mkWorld fresh_table {[ fname_of 4 := twice_a ]} []))
    as (_ & _ & _ & H).
  destruct (H twice_a ltac:(closed_eval) ltac:(closed_eval)) as (Ho & _).
  rewrite Ho. closed_eval.
Defined.

(** ** File inodes *)

Lemma name_len_buffer L : forall fuel k,
  x00 ∉ L -> (length L <= fuel)%nat ->
  name_len fuel (L ++ replicate k x00) = length L.
Proof.
  induction L as [|c L IH]; intros fuel k Hnul Hlen.
  - cbn [app length]. destruct fuel as [|fuel]; [done|].
    destruct k as [|k]; [done|]. cbn [replicate name_len].
    by destruct (decide (x00 = x00)).
  - apply not_elem_of_cons in Hnul as [Hc HL].
    destruct fuel as [|fuel]; [cbn in Hlen; lia|].
    cbn [app name_len length] in *.
    destruct (decide (c = x00)); [congruence|].
    rewrite IH by (done || lia). done.
Qed.

Lemma file_stream_eq nm : file_stream nm = take NAME_LEN (c_str nm).
Proof.
  unfold file_stream. rewrite make_name32_spec.
  assert (x00 ∉ take NAME_LEN (c_str nm)) as Hnul.
  { intros H. apply (c_str_no_nul nm). by apply (subseteq_take NAME_LEN). }
  rewrite name_len_buffer by (done || rewrite length_take; lia).
  apply take_app_length.
Qed.

(** X11: [create_file_inode] fails without any effect when the stream
    cannot be opened.  Otherwise it replaces whatever the stream held by the
    name cut to its first 32 bytes, without terminator or padding, and
    touches nothing else. *)
Theorem create_file_inode_content ok new nm w :
  let r := create_file_inode ok new nm w in
  (ok WB (fname_of new) = false -> r = (false, w))
  /\ (ok WB (fname_of new) = true ->
      r.1 = true
      /\ files r.2 !! fname_of new = Some (take NAME_LEN (c_str nm))
      /\ (forall f, f <> fname_of new -> files r.2 !! f = files w !! f)
      /\ inode_table r.2 = inode_table w /\ out r.2 = out w
      /\ (x00 ∉ take NAME_LEN (c_str nm))
      /\ (length (take NAME_LEN (c_str nm)) <= NAME_LEN)%nat).
Proof.
  cbv zeta. rewrite create_file_inode_eq.
  destruct (ok WB (fname_of new)); (split; [done|]); [intros _|done].
  cbn [fst snd set_files files inode_table out].
  fold (file_stream nm). rewrite file_stream_eq.
  split; [done|]. split; [apply lookup_insert_eq|]. split.
  { intros f Hf. by rewrite lookup_insert_ne. }
  split; [done|]. split; [done|]. split.
  - intros H. apply (c_str_no_nul nm). by apply (subseteq_take NAME_LEN).
  - rewrite length_take. lia.
Qed.

Lemma create_file_inode_content_witness :
  files (create_file_inode all_ok 2 name40 demo_tree).2 !! fname_of 2
  = Some (take 32 name40).
Proof.
  pose proof (create_file_inode_content all_ok 2 name40 demo_tree) as [_ H].
  destruct (H ltac:(closed_eval)) as (_ & Hf & _). rewrite Hf. closed_eval.
Defined.

(** ** What a successful creation changes *)

Lemma used_pairs_mark t i c :
  0 <= i -> (Z.to_nat i < length t)%nat -> used (slot t i) = 0 ->
  used_pairs (mark_used t (i, c)) ≡ₚ (i, c) :: used_pairs t.
Proof.
  intros Hi Hlt Hfree.
  assert (forall c', (i, c') ∉ used_pairs t) as Hnot.
  { intros c'. rewrite elem_of_used_pairs. intros (_ & s & Hs & Hu & _).
    apply slot_lookup in Hs. rewrite Hs in Hfree. unfold is_used in Hu.
    by rewrite Hfree in Hu. }
  apply NoDup_Permutation.
  - apply (NoDup_fmap_1 fst), NoDup_used_from.
  - constructor; [apply Hnot|]. apply (NoDup_fmap_1 fst), NoDup_used_from.
  - intros [j d]. rewrite elem_of_cons, !elem_of_used_pairs.
    rewrite mark_used_insert. split.
    + intros (Hj & s & Hs & Hu & Hd).
      destruct (decide (j = i)) as [->|Hne].
      * rewrite list_lookup_insert_eq in Hs by done. injection Hs as <-.
        left. cbn in Hd. by subst.
      * rewrite list_lookup_insert_ne in Hs by lia. right. eauto.
    + intros [[= -> ->]|(Hj & s & Hs & Hu & Hd)].
      * split; [done|]. exists (mkInodeInfo 1 c).
        by rewrite list_lookup_insert_eq.
      * split; [done|]. exists s. split; [|done].
        rewrite list_lookup_insert_ne; [done|].
        intros Heq. assert (j = i) as -> by lia.
        apply (Hnot d). rewrite elem_of_used_pairs. eauto.
Qed.

(** X12: a [mkdir] or [touch] that goes through (name not found, a free
    slot [i], both streams opened) prints nothing, marks slot [i] used with
    its type and leaves every other slot as it was, so the used pairs are
    the old ones and [(i, type)]; it writes the new inode's stream, adds
    exactly one record [(i, name)] at the end of the stream of [cwd] and
    changes no other file. *)
Theorem creation_effects ok cwd nm w :
  let t := inode_table w in
  let i := (find_free_inode w).1 in
  table_ok t ->
  0 <= cwd -> used (slot t cwd) <> 0 ->
  (dir_find ok cwd nm w).1 = None ->
  0 <= i ->
  ok WB (fname_of i) = true -> ok AB (fname_of cwd) = true ->
  forall w' c new,
    (w' = (cmd_mkdir ok cwd nm w).2 /\ c = ch_d /\ new = dir_stream i cwd)
    \/ (w' = (cmd_touch ok cwd nm w).2 /\ c = ch_f
        /\ new = take NAME_LEN (c_str nm)) ->
    out w' = out w
    /\ slot (inode_table w') i = mkInodeInfo 1 c
    /\ (forall j, 0 <= j -> j <> i -> slot (inode_table w') j = slot t j)
    /\ used_pairs (inode_table w') ≡ₚ (i, c) :: used_pairs t
    /\ files w' !! fname_of i = Some new
    /\ files w' !! fname_of cwd
       = Some (content (files w) (fname_of cwd)
               ++ enc_ent (mkDirEnt i (make_name32 nm)))
    /\ (forall f, f <> fname_of i -> f <> fname_of cwd ->
                  files w' !! f = files w !! f).
Proof.
  cbv zeta. rewrite find_free_inode_eq, dir_find_eq. cbn [fst].
  intros Hlen Hcwd Hused Hnone Hi Hwb Hab w' c new Hw'.
  destruct (creation_succeeds cwd w Hcwd Hused Hi) as (Hr & Hne & Hlt).
  pose proof (find_free_range (inode_table w)) as Hfree. cbv zeta in Hfree.
  destruct Hfree as [Hfree|[_ Hfree]]; [lia|].
  assert (w' = committed w cwd
            (find_free_loop (Z.to_nat MAX_INODES) 0 (inode_table w)) c new nm)
    as ->.
  { destruct Hw' as [(-> & -> & ->)|(-> & -> & ->)].
    - rewrite cmd_mkdir_eq, Hnone. cbv zeta. rewrite Hlt. cbn [snd].
      by apply created_ok.
    - rewrite cmd_touch_eq, Hnone. cbv zeta. rewrite Hlt. cbn [snd].
      rewrite <- file_stream_eq. by apply created_ok. }
  clear Hw'.
  generalize dependent (find_free_loop (Z.to_nat MAX_INODES) 0 (inode_table w)).
  intros i Hi Hwb Hr Hne _ Hfree.
  assert (Z.to_nat i < length (inode_table w))%nat as Hin
    by (rewrite Hlen; unfold MAX_INODES in *; lia).
  split; [done|]. split; [by apply slot_mark_used_eq|]. split.
  { intros j Hj Hji. cbn [committed inode_table]. apply slot_mark_used_ne. lia. }
  split; [by apply used_pairs_mark|].
  split; [by apply after_creation_new|].
  split; [by apply after_creation_parent|].
  intros f Hf1 Hf2. by apply after_creation_other.
Qed.

Lemma creation_effects_witness :
  used_pairs (inode_table (cmd_touch all_ok 0 (bytes "g") demo_tree).2)
  ≡ₚ (3, ch_f) :: used_pairs (inode_table demo_tree)
  /\ files (cmd_touch all_ok 0 (bytes "g") demo_tree).2 !! fname_of 3
     = Some (bytes "g").
Proof.
  destruct (creation_effects all_ok 0 (bytes "g") demo_tree
              ltac:(closed_eval) ltac:(closed_eval) ltac:(closed_eval) ltac:(closed_eval)
              ltac:(closed_eval) ltac:(closed_eval) ltac:(closed_eval)
              _ ch_f (take NAME_LEN (c_str (bytes "g")))
              (or_intror (conj eq_refl (conj eq_refl eq_refl))))
    as (_ & _ & _ & Hp & Hf & _).
  split; [exact Hp|exact Hf].
Defined.

(** ** How the commands compose *)

Lemma committed_next_free w cwd i c new nm :
  table_ok (inode_table w) ->
  i = find_free_loop (Z.to_nat MAX_INODES) 0 (inode_table w) -> 0 <= i ->
  let r := find_free_loop (Z.to_nat MAX_INODES) 0
             (inode_table (committed w cwd i c new nm)) in
  r = -1 \/ i < r.
Proof.
  intros Hlen Hi Hpos. cbv zeta. cbn [committed inode_table].
  destruct (find_free_loop_spec (Z.to_nat MAX_INODES) 0 (inode_table w)
              ltac:(lia)) as [[Hr _]|(Hr & Hfree & Hall)]; [lia|].
  rewrite <- Hi in Hr, Hfree, Hall.
  destruct (find_free_loop_spec (Z.to_nat MAX_INODES) 0
              (mark_used (inode_table w) (i, c)) ltac:(lia))
    as [[Hr' _]|(Hr' & Hfree' & _)]; [by left|right].
  set (r := find_free_loop _ _ (mark_used _ _)) in *.
  destruct (Z.lt_trichotomy r i) as [Hlt|[Heq|Hgt]]; [|..|done].
  - rewrite slot_mark_used_ne in Hfree' by lia.
    exfalso. by apply (Hall r ltac:(lia)).
  - rewrite Heq, slot_mark_used_eq in Hfree'; [done|].
    rewrite Hlen. unfold MAX_INODES in *.
    rewrite Z2Nat.id in Hr by lia. lia.
Qed.

(** X13: inode ids are handed out in ascending order: right after a [mkdir]
    or [touch] that went through with slot [i], the next free slot is
    beyond [i], or there is none. *)
Theorem allocation_ascends ok cwd nm w :
  let i := (find_free_inode w).1 in
  table_ok (inode_table w) ->
  0 <= cwd -> used (slot (inode_table w) cwd) <> 0 ->
  (dir_find ok cwd nm w).1 = None ->
  0 <= i ->
  ok WB (fname_of i) = true -> ok AB (fname_of cwd) = true ->
  forall w',
    w' = (cmd_mkdir ok cwd nm w).2 \/ w' = (cmd_touch ok cwd nm w).2 ->
    (find_free_inode w').1 = -1 \/ i < (find_free_inode w').1.
Proof.
  cbv zeta. rewrite find_free_inode_eq, dir_find_eq. cbn [fst].
  intros Hlen Hcwd Hused Hnone Hi Hwb Hab w' Hw'.
  destruct (creation_succeeds cwd w Hcwd Hused Hi) as (Hr & Hne & Hlt).
  assert (exists c new, w' = committed w cwd
            (find_free_loop (Z.to_nat MAX_INODES) 0 (inode_table w)) c new nm)
    as (c & new & ->).
  { destruct Hw' as [-> | ->].
    - rewrite cmd_mkdir_eq, Hnone. cbv zeta. rewrite Hlt. cbn [snd].
      rewrite created_ok by done. by eexists _, _.
    - rewrite cmd_touch_eq, Hnone. cbv zeta. rewrite Hlt. cbn [snd].
      rewrite created_ok by done. by eexists _, _. }
  rewrite find_free_inode_eq. cbn [fst].
  by apply committed_next_free.
Qed.

Lemma allocation_ascends_witness :
  (find_free_inode root_only).1 = 1
  /\ 1 < (find_free_inode (cmd_mkdir all_ok 0 (bytes "a") root_only).2).1.
Proof.
  split; [closed_eval|].
  destruct (allocation_ascends all_ok 0 (bytes "a") root_only
              ltac:(closed_eval) ltac:(closed_eval) ltac:(closed_eval)
              ltac:(closed_eval) ltac:(closed_eval) ltac:(closed_eval)
              ltac:(closed_eval) _ (or_introl eq_refl)) as [H|H].
  - vm_compute in H. discriminate H.
  - exact H.
Defined.

Lemma named_dot_dot x : named (bytes ".") (mkDirEnt x (make_name32 (bytes "."))) = true.
Proof. reflexivity. Qed.

Lemma named_dotdot_dot x :
  named (bytes "..") (mkDirEnt x (make_name32 (bytes "."))) = false.
Proof. unfold named. cbn [name]. by apply bool_decide_eq_false. Qed.

Lemma named_dotdot_dotdot x :
  named (bytes "..") (mkDirEnt x (make_name32 (bytes ".."))) = true.
Proof. reflexivity. Qed.

(** X14: the self links of a new directory lead where they should: right
    after a [mkdir] from [cwd] that went through with slot [i], in the new
    directory [cd ..] returns to [cwd] and [cd .] stays in [i], neither
    printing anything. *)
Theorem cd_follows_self_links ok1 ok2 cwd nm w :
  let i := (find_free_inode w).1 in
  table_ok (inode_table w) ->
  cwd_ok cwd w ->
  (dir_find ok1 cwd nm w).1 = None ->
  0 <= i ->
  ok1 WB (fname_of i) = true -> ok1 AB (fname_of cwd) = true ->
  ok2 RB (fname_of i) = true ->
  let w1 := (cmd_mkdir ok1 cwd nm w).2 in
  cmd_cd ok2 i (bytes "..") w1 = (cwd, w1)
  /\ cmd_cd ok2 i (bytes ".") w1 = (i, w1).
Proof.
  cbv zeta. rewrite find_free_inode_eq, dir_find_eq. cbn [fst].
  intros Hlen (Hc & Hcu & Hct) Hnone Hi Hwb Hab Hrb.
  destruct (creation_succeeds cwd w ltac:(lia) Hcu Hi) as (Hr & Hne & Hlt).
  rewrite cmd_mkdir_eq, Hnone. cbv zeta. rewrite Hlt. cbn [snd].
  rewrite created_ok by done.
  generalize dependent (find_free_loop (Z.to_nat MAX_INODES) 0 (inode_table w)).
  intros i Hi Hwb Hrb Hr Hne _.
  pose proof (after_creation_new w cwd i ch_d (dir_stream i cwd) nm
                ltac:(lia) Hr Hne) as Hnew.
  assert (dir_listing ok2 (committed w cwd i ch_d (dir_stream i cwd) nm) i
          = Some [mkDirEnt i (make_name32 (bytes "."));
                  mkDirEnt cwd (make_name32 (bytes ".."))]) as Hls.
  { unfold dir_listing. rewrite Hrb, Hnew.
    cbn [fmap option_fmap option_map].
    rewrite dir_entries_dir_stream by (unfold MAX_INODES in *; lia). done. }
  rewrite !cmd_cd_eq, Hls. cbn [mbind option_bind find].
  rewrite named_dotdot_dot, named_dotdot_dotdot, named_dot_dot.
  cbv zeta. cbn [inode].
  rewrite (after_creation_slot w cwd i ch_d (dir_stream i cwd) nm Hr Hlen).
  replace (slot (inode_table (committed w cwd i ch_d (dir_stream i cwd) nm)) cwd)
    with (slot (inode_table w) cwd)
    by (symmetry; apply slot_mark_used_ne; lia).
  rewrite Hct. cbn [used type].
  destruct (Z.leb_spec MAX_INODES cwd); [lia|].
  destruct (Z.leb_spec MAX_INODES i); [lia|].
  destruct (Z.eqb_spec (used (slot (inode_table w) cwd)) 0); [done|].
  done.
Qed.

Lemma cd_follows_self_links_witness :
  cmd_cd all_ok 1 (bytes "..") after_mkdir_a = (0, after_mkdir_a)
  /\ cmd_cd all_ok 1 (bytes ".") after_mkdir_a = (1, after_mkdir_a).
Proof.
  exact (cd_follows_self_links all_ok all_ok 0 (bytes "a") root_only
           ltac:(closed_eval)
           ltac:(clear; repeat split; closed_eval)
           ltac:(closed_eval) ltac:(closed_eval) ltac:(closed_eval)
           ltac:(closed_eval) ltac:(closed_eval)).
Defined.

(** X15: a name created by [touch] is not a directory: right after a
    [touch] that went through, [cd] to that name prints
    "cd: not a directory" and leaves cwd where it was. *)
Theorem cd_into_file_refused ok1 ok2 cwd nm w :
  let i := (find_free_inode w).1 in
  table_ok (inode_table w) ->
  0 <= cwd -> used (slot (inode_table w) cwd) <> 0 ->
  aligned (content (files w) (fname_of cwd)) ->
  fresh_in w cwd nm = true ->
  0 <= i ->
  ok1 WB (fname_of i) = true -> ok1 AB (fname_of cwd) = true ->
  ok2 RB (fname_of cwd) = true ->
  let w1 := (cmd_touch ok1 cwd nm w).2 in
  cmd_cd ok2 cwd nm w1
  = (cwd, mkWorld (inode_table w1) (files w1)
                  (out w1 ++ [Stderr ("cd: not a directory" +:+ nl)])).
Proof.
  cbv zeta. rewrite find_free_inode_eq. cbn [fst].
  intros Hlen Hcwd Hused Ha Hfresh Hi Hwb Hab Hrb.
  destruct (creation_succeeds cwd w Hcwd Hused Hi) as (Hr & Hne & Hlt).
  rewrite cmd_touch_eq, (fresh_in_find _ _ _ _ Hfresh). cbv zeta.
  rewrite Hlt. cbn [snd]. rewrite created_ok by done.
  generalize dependent (find_free_loop (Z.to_nat MAX_INODES) 0 (inode_table w)).
  intros i Hi Hwb Hr Hne _.
  rewrite cmd_cd_eq.
  rewrite (after_creation_find w cwd i ch_f (file_stream nm) nm Hcwd Hr Hne ok2)
    by done.
  cbv zeta. cbn [inode].
  rewrite (after_creation_slot w cwd i ch_f (file_stream nm) nm Hr Hlen).
  cbn [used type]. destruct (MAX_INODES <=? i); reflexivity.
Qed.

Lemma cd_into_file_refused_witness :
  (cmd_cd all_ok 0 (bytes "f") demo_tree).1 = 0
  /\ out (cmd_cd all_ok 0 (bytes "f") demo_tree).2
     = [Stderr ("cd: not a directory" +:+ nl)].
Proof.
  pose proof (cd_into_file_refused all_ok all_ok 0 (bytes "f") after_mkdir_a
                ltac:(closed_eval) ltac:(closed_eval) ltac:(closed_eval)
                ltac:(closed_eval) ltac:(closed_eval) ltac:(closed_eval)
                ltac:(closed_eval) ltac:(closed_eval) ltac:(closed_eval)) as E.
  change ((cmd_touch all_ok 0 (bytes "f") after_mkdir_a).2) with demo_tree in E.
  rewrite E. split; reflexivity.
Defined.

(** ** What a session keeps *)

Lemma rollback_typed t i : table_typed t -> table_typed (rollback t i).
Proof.
  intros H. unfold rollback. apply Forall_alter; [done|].
  intros s _ _. split; [done|by left].
Qed.

Lemma created_typed ok w cwd i c new nm :
  valid_mark (i, c) = true ->
  table_typed (inode_table w) ->
  table_typed (inode_table (created ok w cwd i c new nm)).
Proof.
  intros Hv Ht. pose proof (mark_used_typed _ _ Hv Ht) as Hm.
  unfold created.
  destruct (ok WB (fname_of i)); [destruct (ok AB (fname_of cwd))|];
    cbn [inode_table]; [done|by apply rollback_typed..].
Qed.

Lemma found_free_valid t c :
  (c = ch_d \/ c = ch_f) ->
  (find_free_loop (Z.to_nat MAX_INODES) 0 t <? 0) = false ->
  valid_mark (find_free_loop (Z.to_nat MAX_INODES) 0 t, c) = true.
Proof.
  intros Hc Hlt. pose proof (find_free_range t) as Hr. cbv zeta in Hr.
  apply Z.ltb_ge in Hlt. destruct Hr as [Hr|[Hr _]]; [lia|].
  unfold valid_mark, valid_type. cbn [fst snd].
  rewrite !andb_true_iff, orb_true_iff, !bool_decide_eq_true.
  repeat split; [lia|lia|done].
Qed.

Section Typed.

Variable ok : mode -> string -> bool.

Lemma cmd_mkdir_typed cwd nm w :
  table_typed (inode_table w) -> table_typed (inode_table (cmd_mkdir ok cwd nm w).2).
Proof.
  intros Ht. rewrite cmd_mkdir_eq.
  destruct (dir_listing ok w cwd ≫= find (named nm)); [done|]. cbv zeta.
  destruct (_ <? 0) eqn:E; [done|]. cbn [snd].
  apply created_typed; [|done]. apply found_free_valid; [by left|done].
Qed.

Lemma cmd_touch_typed cwd nm w :
  table_typed (inode_table w) -> table_typed (inode_table (cmd_touch ok cwd nm w).2).
Proof.
  intros Ht. rewrite cmd_touch_eq.
  destruct (dir_listing ok w cwd ≫= find (named nm)); [done|]. cbv zeta.
  destruct (_ <? 0) eqn:E; [done|]. cbn [snd].
  apply created_typed; [|done]. apply found_free_valid; [by right|done].
Qed.

Lemma exec_line_typed line cwd w :
  table_typed (inode_table w) ->
  table_typed (inode_table (exec_line ok line cwd w).2).
Proof.
  intros Ht. exec_cases; try exact Ht.
  - by rewrite cmd_ls_table.
  - by rewrite cmd_cd_table.
  - by apply cmd_mkdir_typed.
  - by apply cmd_touch_typed.
  - by rewrite save_inodes_list_table.
Qed.

Lemma exec_line_keeps_used line cwd w :
  keeps_used w (exec_line ok line cwd w).2.
Proof.
  exec_cases;
    try match goal with
        | |- keeps_used ?w ?w => apply keeps_used_refl
        | |- keeps_used _ (eprint _ _).2 => apply keeps_used_table; reflexivity
        end.
  - apply keeps_used_table, cmd_ls_table.
  - apply keeps_used_table, cmd_cd_table.
  - apply cmd_mkdir_keeps_used.
  - apply cmd_touch_keeps_used.
  - apply keeps_used_table, save_inodes_list_table.
Qed.

End Typed.

Lemma start_state ok w0 w1 :
  load_inodes_list ok (clear_table w0).2 = (true, w1) ->
  exists s, w1 = mkWorld (marked (List.filter valid_mark (table_records s)))
                         (files w0)
                         (out w0 ++ flat_map load_warning (table_records s))
            /\ ok RB inodes_list = true
            /\ files w0 !! inodes_list = Some s.
Proof.
  intros H. destruct (ok RB inodes_list) eqn:Hok; cycle 1.
  { rewrite load_failed in H by (by left). discriminate H. }
  destruct (files w0 !! inodes_list) as [s|] eqn:Hs; cycle 1.
  { rewrite load_failed in H by (by right). discriminate H. }
  rewrite (load_cleared ok w0 s Hok Hs) in H. injection H as <-.
  by exists s.
Qed.

(** X16: in every state of a session the inode table has its 1024 slots and
    each slot is free or has [used = 1] with type ['d'] or ['f'], whatever
    the table file held at start-up: the type of an inode is always one of
    the two tags. *)
Theorem session_table_typed w0 cwd w :
  reachable w0 cwd w ->
  table_ok (inode_table w)
  /\ typed_table (inode_table w) = true
  /\ (forall j, used (slot (inode_table w) j) = 0
                \/ (used (slot (inode_table w) j) = 1
                    /\ (type (slot (inode_table w) j) = ch_d
                        \/ type (slot (inode_table w) j) = ch_f))).
Proof.
  intros H.
  assert (table_ok (inode_table w) /\ table_typed (inode_table w)) as [Hl Ht].
  { induction H as [ok w1 Hload Hroot|
      ok line cwd w fl cwd' w' Hr [IHl IHt] Hstep|ok cwd w Hr IH].
    - apply start_state in Hload as (s & -> & _ & _). cbn [inode_table]. split.
      + unfold table_ok, marked. rewrite length_marks. apply length_replicate.
      + apply marks_typed_any; [apply filter_valid_Forall|apply fresh_table_typed].
    - pose proof (exec_line_table_ok ok line cwd w IHl) as H1.
      pose proof (exec_line_typed ok line cwd w IHt) as H2.
      by rewrite Hstep in H1, H2.
    - by rewrite save_inodes_list_table. }
  split; [done|]. split; [by apply typed_table_Forall|].
  intros j. unfold slot.
  destruct (inode_table w !! Z.to_nat j) as [s|] eqn:E; [|by left].
  cbn [default from_option id]. unfold table_typed in Ht.
  rewrite Forall_forall in Ht.
  destruct (Ht s (list_elem_of_lookup_2 _ _ _ E)) as [Hty [Hu|Hu]]; [by left|].
  right. split; [done|]. unfold slot_typed, is_used, valid_type in Hty.
  rewrite Hu in Hty. cbn in Hty.
  apply orb_true_iff in Hty as [Hd|Hf]; [left|right];
    by apply bool_decide_eq_true in Hd || apply bool_decide_eq_true in Hf.
Qed.

Lemma session_table_typed_witness :
  table_ok (inode_table in_a) /\ typed_table (inode_table in_a) = true.
Proof.
  assert (reachable disk0 1 in_a) as H.
  { refine (reach_line disk0 all_ok (line "cd a") 0 in_root Continue 1 in_a _ _).
    - refine (reach_line disk0 all_ok (line "mkdir a") 0 booted Continue 0
                in_root _ _).
      + refine (reach_start disk0 all_ok booted _ _); closed_eval.
      + closed_eval.
    - closed_eval. }
  destruct (session_table_typed disk0 1 in_a H) as (H1 & H2 & _).
  by split.
Defined.

(** ** Nothing is ever removed *)

Lemma extends_same w w' :
  inode_table w' = inode_table w -> files w' = files w -> extends w w'.
Proof.
  intros Ht Hf. split; [by apply keeps_used_table|]. rewrite Hf. by split.
Qed.

Lemma extends_trans w1 w2 w3 : extends w1 w2 -> extends w2 w3 -> extends w1 w3.
Proof.
  intros (K1 & F1 & P1) (K2 & F2 & P2). split; [|split].
  - intros j Hj Hu. rewrite <- (K1 j Hj Hu). apply K2; [done|].
    by rewrite (K1 j Hj Hu).
  - intros f Hf. by apply F2, F1.
  - intros j Hj Hu. etrans; [by apply P1|]. apply P2; [done|].
    by rewrite (K1 j Hj Hu).
Qed.

Lemma created_extends ok w cwd i c new nm :
  0 <= i -> used (slot (inode_table w) i) = 0 ->
  extends w (created ok w cwd i c new nm).
Proof.
  intros Hi Hfree. split; [by apply created_keeps_used|].
  unfold created.
  destruct (ok WB (fname_of i)); [destruct (ok AB (fname_of cwd))|];
    cbn [files]; (split; [intros f Hf|intros j Hj Hu]); try done.
  - unfold appended. rewrite !lookup_insert_is_Some.
    destruct (decide (fname_of cwd = f)); [by left|right; split; [done|]].
    destruct (decide (fname_of i = f)); [by left|by right].
  - assert (fname_of i <> fname_of j) as Hne.
    { intros H. apply fname_of_inj in H; congruence. }
    unfold appended. destruct (decide (fname_of cwd = fname_of j)) as [E|E].
    + rewrite E, content_insert_eq, content_insert_ne by done.
      by apply prefix_app_r.
    + by rewrite !content_insert_ne.
  - rewrite lookup_insert_is_Some.
    destruct (decide (fname_of i = f)); [by left|by right].
  - rewrite content_insert_ne; [done|].
    intros H. apply fname_of_inj in H; congruence.
Qed.

Section Extends.

Variable ok : mode -> string -> bool.

Lemma cmd_mkdir_extends cwd nm w : extends w (cmd_mkdir ok cwd nm w).2.
Proof.
  rewrite cmd_mkdir_eq.
  destruct (dir_listing ok w cwd ≫= find (named nm));
    [by apply extends_same|].
  cbv zeta. pose proof (find_free_range (inode_table w)) as Hr. cbv zeta in Hr.
  destruct (Z.ltb_spec (find_free_loop (Z.to_nat MAX_INODES) 0 (inode_table w)) 0);
    [by apply extends_same|].
  destruct Hr as [Hr|[Hr Hfree]]; [lia|].
  apply created_extends; [lia|done].
Qed.

Lemma cmd_touch_extends cwd nm w : extends w (cmd_touch ok cwd nm w).2.
Proof.
  rewrite cmd_touch_eq.
  destruct (dir_listing ok w cwd ≫= find (named nm));
    [by apply extends_same|].
  cbv zeta. pose proof (find_free_range (inode_table w)) as Hr. cbv zeta in Hr.
  destruct (Z.ltb_spec (find_free_loop (Z.to_nat MAX_INODES) 0 (inode_table w)) 0);
    [by apply extends_same|].
  destruct Hr as [Hr|[Hr Hfree]]; [lia|].
  apply created_extends; [lia|done].
Qed.

Lemma save_inodes_list_extends w : extends w (save_inodes_list ok w).2.
Proof.
  split; [apply keeps_used_table, save_inodes_list_table|].
  rewrite save_inodes_list_eq. destruct (ok WB inodes_list); [|done].
  cbn [snd files set_files]. split.
  - intros f Hf. rewrite lookup_insert_is_Some.
    destruct (decide (inodes_list = f)); [by left|by right].
  - intros j _ _. rewrite content_insert_ne; [done|].
    intros H. by apply (fname_of_not_table j).
Qed.

Lemma exec_line_extends line cwd w : extends w (exec_line ok line cwd w).2.
Proof.
  exec_cases;
    try match goal with
        | |- extends ?w ?w => by apply extends_same
        | |- extends _ (eprint _ _).2 => by apply extends_same
        end.
  - apply extends_same; [apply cmd_ls_table|apply cmd_ls_files].
  - apply extends_same; [apply cmd_cd_table|apply cmd_cd_files].
  - apply cmd_mkdir_extends.
  - apply cmd_touch_extends.
  - apply save_inodes_list_extends.
Qed.

End Extends.

(** X17: a session never frees or retypes an inode and never removes or
    shortens what it stored: from any state in which [main] runs its loop to
    the state in which the loop ends, every used slot is kept as it is,
    every file is still there, and the stream of every used inode is the old
    stream with, at most, bytes added at its end. *)
Theorem session_only_extends env lines :
  forall k cwd w, extends w (main_loop env k lines cwd w).2.
Proof.
  induction lines as [|l lines IH]; intros k cwd w; cbn [main_loop].
  - apply save_inodes_list_extends.
  - rewrite bind_eq.
    pose proof (exec_line_extends (env k) l cwd w) as H.
    destruct (exec_line (env k) l cwd w) as [[[|] cwd'] w'] eqn:E;
      cbn [fst snd] in *.
    + eapply extends_trans; [exact H|apply IH].
    + exact H.
Qed.

(** ** [main] *)

Lemma main_eq env isd chd argv lines w :
  main env isd chd argv lines w =
  match argv with
  | [prog; root] =>
      if isd root then
        if chd root then
          let r := load_inodes_list (env O) (clear_table w).2 in
          if r.1 then
            if (used (slot (inode_table r.2) 0) =? 0)
               || negb (bool_decide (type (slot (inode_table r.2) 0) = ch_d))
            then (1, log (Stderr ("inode 0 is not a directory" +:+ nl)) r.2)
            else (0, (main_loop env 1%nat lines 0 r.2).2)
          else (1, r.2)
        else (1, log (Perror "chdir") w)
      else (1, log (Stderr ("Not a directory: "
                            +:+ string_of_list_byte (c_str root) +:+ nl)) w)
  | _ => (1, log (Stderr ("Usage: " +:+ string_of_list_byte (c_str (hd [] argv))
                          +:+ " <fs_directory>" +:+ nl)) w)
  end.
Proof.
  unfold main.
  destruct argv as [|prog [|root [|extra argv]]]; try reflexivity.
  destruct (isd root); [|reflexivity]. destruct (chd root); [|reflexivity].
  cbn [negb]. rewrite !bind_eq. cbv zeta.
  destruct (load_inodes_list (env O) (clear_table w).2) as [loaded w1].
  cbn [fst snd]. destruct loaded; [|reflexivity]. cbn [negb].
  rewrite bind_eq.
  change (get_slot 0 w1) with (slot (inode_table w1) 0, w1). cbn [fst snd].
  destruct (_ || _); [reflexivity|].
  rewrite bind_eq. reflexivity.
Qed.

Lemma marked_last ps i c :
  last_valid ps i c -> slot (marked (List.filter valid_mark ps)) i = mkInodeInfo 1 c.
Proof.
  intros (pre & post & -> & Hv & Hpost).
  rewrite List.filter_app. cbn [List.filter]. rewrite Hv. unfold marked.
  rewrite foldl_app. cbn [foldl].
  pose proof Hv as [Hi _]%valid_mark_inv.
  rewrite marks_slot_other;
    [|lia|by apply filter_not_in_fst|apply filter_valid_Forall].
  apply slot_mark_used_eq. rewrite length_marks.
  unfold fresh_table. rewrite length_replicate. unfold MAX_INODES in *. lia.
Qed.

Lemma last_marked ps i c :
  0 <= i ->
  slot (marked (List.filter valid_mark ps)) i = mkInodeInfo 1 c ->
  last_valid ps i c.
Proof.
  intros Hi. induction ps as [|q ps IH] using rev_ind; intros H.
  - by rewrite slot_fresh_table in H.
  - rewrite List.filter_app in H. cbn [List.filter] in H.
    destruct (valid_mark q) eqn:Hq; cycle 1.
    { rewrite app_nil_r in H. destruct (IH H) as (pre & post & -> & Hv & Hpost).
      exists pre, (post ++ [q]). rewrite <- app_assoc. split; [done|].
      split; [done|]. apply Forall_app. split; [done|].
      constructor; [by right|constructor]. }
    unfold marked in H. rewrite foldl_app in H. cbn [foldl] in H.
    destruct q as [j d]. pose proof Hq as [Hj _]%valid_mark_inv.
    destruct (decide (j = i)) as [->|Hne].
    + rewrite slot_mark_used_eq in H; cycle 1.
      { rewrite length_marks. unfold fresh_table. rewrite length_replicate.
        unfold MAX_INODES in *. lia. }
      injection H as ->. exists ps, []. by repeat split.
    + rewrite slot_mark_used_ne in H by lia.
      destruct (IH H) as (pre & post & -> & Hv & Hpost).
      exists pre, (post ++ [(j, d)]). rewrite <- app_assoc. split; [done|].
      split; [done|]. apply Forall_app. split; [done|].
      constructor; [by left|constructor].
Qed.

Lemma root_test s :
  (used s =? 0) || negb (bool_decide (type s = ch_d)) = false
  <-> used s <> 0 /\ type s = ch_d.
Proof.
  rewrite orb_false_iff, Z.eqb_neq, negb_false_iff, bool_decide_eq_true. done.
Qed.

Lemma load_warnings_diagnostic ps :
  Forall (fun e => is_diagnostic e = true) (flat_map load_warning ps).
Proof.
  induction ps as [|p ps IH]; [constructor|].
  cbn [flat_map]. apply Forall_app. split; [|done].
  unfold load_warning. destruct (MAX_INODES <=? p.1); [by repeat constructor|].
  destruct (negb (valid_type p.2)); by repeat constructor.
Qed.

(** X18: [main] returns 0 exactly when it was given one argument, the
    argument names a directory it can enter, the table file is there and can
    be opened, and the last record of the table file for slot 0 that passes
    the tests of the loader has type ['d']; the lines read afterwards have no
    bearing on the status. *)
Theorem main_succeeds_iff env is_directory chdir argv lines w :
  (main env is_directory chdir argv lines w).1 = 0
  <-> exists prog root s,
        argv = [prog; root]
        /\ is_directory root = true /\ chdir root = true
        /\ env O RB inodes_list = true /\ files w !! inodes_list = Some s
        /\ last_valid (table_records s) 0 ch_d.
Proof.
  rewrite main_eq. split.
  - destruct argv as [|prog [|root [|extra argv]]]; try discriminate.
    destruct (is_directory root) eqn:Hdir; [|discriminate].
    destruct (chdir root) eqn:Hch; [|discriminate]. cbv zeta.
    destruct (load_inodes_list (env O) (clear_table w).2) as [loaded w1] eqn:E.
    cbn [fst snd]. destruct loaded; [|discriminate].
    destruct (_ || _) eqn:Hroot; [discriminate|]. intros _.
    apply start_state in E as (s & -> & Hok & Hs). cbn [inode_table] in Hroot.
    exists prog, root, s. do 5 (split; [done|]).
    apply root_test in Hroot as [Hu Hd]. apply last_marked; [done|].
    pose proof (marks_typed_any (List.filter valid_mark (table_records s))
                  fresh_table (filter_valid_Forall _) fresh_table_typed) as Ht.
    fold (marked (List.filter valid_mark (table_records s))) in Ht.
    unfold slot in *.
    destruct (marked _ !! Z.to_nat 0) as [x|] eqn:Ex; [|done].
    cbn [default from_option id] in *.
    unfold table_typed in Ht. rewrite Forall_forall in Ht.
    destruct (Ht x (list_elem_of_lookup_2 _ _ _ Ex)) as [_ [Hx|Hx]]; [done|].
    destruct x as [u t]. cbn in *. by subst.
  - intros (prog & root & s & -> & -> & -> & Hok & Hs & Hlast). cbv zeta.
    rewrite (load_cleared (env O) w s Hok Hs). cbn [fst snd inode_table].
    rewrite (marked_last _ _ _ Hlast). reflexivity.
Qed.

Lemma main_succeeds_iff_witness :
  (main (fun _ => all_ok) (fun _ => true) (fun _ => true)
     [bytes "fs_emulator"; bytes "fs"] [line "mkdir a"; line "exit"]
     messy_disk).1 = 0.
Proof.
  apply main_succeeds_iff.
  exists (bytes "fs_emulator"), (bytes "fs"), messy_file.
  repeat split; try closed_eval.
  exists [], [(5000, ch_d); (3, ch_f); (3, ch_d); (3, x78)].
  split; [closed_eval|]. split; [closed_eval|].
  repeat (constructor; [left; closed_eval|]). constructor.
Defined.

(** X19: when [main] does not return 0 it returns 1, it has written nothing
    to the storage, and what it printed is diagnostics only, at least one. *)
Theorem main_failure_untouched env is_directory chdir argv lines w :
  (main env is_directory chdir argv lines w).1 <> 0 ->
  (main env is_directory chdir argv lines w).1 = 1
  /\ files (main env is_directory chdir argv lines w).2 = files w
  /\ exists es, out (main env is_directory chdir argv lines w).2 = out w ++ es
       /\ es <> [] /\ Forall (fun e => is_diagnostic e = true) es.
Proof.
  rewrite main_eq.
  assert (forall e, is_diagnostic e = true ->
            exists es, out (log e w) = out w ++ es /\ es <> []
                       /\ Forall (fun e => is_diagnostic e = true) es) as Hlog.
  { intros e He. exists [e]. split; [done|]. split; [done|].
    by repeat constructor. }
  destruct argv as [|prog [|root [|extra argv]]];
    try (intros _; split; [done|]; split; [done|]; by apply Hlog).
  destruct (is_directory root);
    [|intros _; split; [done|]; split; [done|]; by apply Hlog].
  destruct (chdir root);
    [|intros _; split; [done|]; split; [done|]; by apply Hlog].
  cbv zeta.
  destruct (env O RB inodes_list) eqn:Hok; cycle 1.
  { rewrite load_failed by (by left). cbn [fst snd]. intros _.
    split; [done|]. split; [done|]. by apply Hlog. }
  destruct (files w !! inodes_list) as [s|] eqn:Hs; cycle 1.
  { rewrite load_failed by (by right). cbn [fst snd]. intros _.
    split; [done|]. split; [done|]. by apply Hlog. }
  rewrite (load_cleared (env O) w s Hok Hs). cbn [fst snd inode_table].
  destruct (_ || _); [|done]. intros _.
  split; [done|]. split; [done|].
  exists (flat_map load_warning (table_records s)
          ++ [Stderr ("inode 0 is not a directory" +:+ nl)]).
  split; [by rewrite app_assoc|]. split; [by destruct (flat_map _ _)|].
  apply Forall_app. split; [apply load_warnings_diagnostic|by repeat constructor].
Qed.

Lemma main_failure_untouched_witness :
  let r := main (fun _ => all_ok) (fun _ => true) (fun _ => true)
             [bytes "fs_emulator"; bytes "fs"] [line "mkdir a"] bad_root
  in r.1 = 1 /\ files r.2 = files bad_root.
Proof.
  pose proof (main_failure_untouched (fun _ => all_ok) (fun _ => true)
                (fun _ => true) [bytes "fs_emulator"; bytes "fs"]
                [line "mkdir a"] bad_root
                ltac:(closed_eval)) as (H1 & H2 & _).
  split; [exact H1|exact H2].
Defined.

(** ** Command lines *)

Lemma strtok_all_shape s : forall cur,
  Forall (fun c => is_delim c = false) cur ->
  Forall (fun t => t <> [] /\ Forall (fun c => is_delim c = false) t)
         (strtok_all s cur)
  /\ concat (strtok_all s cur)
     = cur ++ List.filter (fun c => negb (is_delim c)) s.
Proof.
  induction s as [|c s IH]; intros cur Hcur; cbn [strtok_all List.filter].
  - rewrite app_nil_r. destruct cur as [|x cur]; [by split|].
    split; [constructor; [by split|constructor]|]. cbn [concat]. apply app_nil_r.
  - destruct (is_delim c) eqn:Hc; cbn [negb].
    + destruct (IH [] ltac:(constructor)) as [H1 H2].
      destruct cur as [|x cur]; [done|]. split.
      * constructor; [by split|done].
      * cbn [concat]. by rewrite H2.
    + destruct (IH (cur ++ [c])) as [H1 H2].
      { apply Forall_app. split; [done|]. by repeat constructor. }
      split; [done|]. by rewrite H2, <- app_assoc.
Qed.

(** X20: the tokens [strtok] cuts a line into are never empty and hold no
    blank, and put end to end they are the line with its blanks taken out:
    the tokenizer drops blanks and nothing else. *)
Theorem strtok_all_tokens s :
  Forall (fun t => t <> [] /\ Forall (fun c => is_delim c = false) t)
         (strtok_all s [])
  /\ concat (strtok_all s []) = List.filter (fun c => negb (is_delim c)) s.
Proof. apply (strtok_all_shape s []). constructor. Qed.

Lemma strtok_blanks p s :
  blanks p = true -> strtok_all (p ++ s) [] = strtok_all s [].
Proof.
  induction p as [|d p IH]; [done|]. cbn [blanks forallb app strtok_all].
  intros [-> Hp]%andb_true_iff. by apply IH.
Qed.

Lemma strtok_blanks_nil p : blanks p = true -> strtok_all p [] = [].
Proof.
  intros H. rewrite <- (app_nil_r p). by rewrite strtok_blanks.
Qed.

Lemma word_char_inv c :
  word_char c = true -> is_delim c = false /\ c <> ch_nl /\ c <> x00.
Proof.
  unfold word_char. rewrite !andb_true_iff, !negb_true_iff.
  rewrite !bool_decide_eq_false. tauto.
Qed.

Lemma strtok_word t s : forall cur,
  forallb word_char t = true -> strtok_all (t ++ s) cur = strtok_all s (cur ++ t).
Proof.
  induction t as [|c t IH]; intros cur; [by rewrite app_nil_r|].
  cbn [forallb app strtok_all].
  intros [[-> _]%word_char_inv Ht]%andb_true_iff.
  rewrite IH by done. by rewrite <- app_assoc.
Qed.

Lemma strtok_gap p s x cur :
  gap p = true -> strtok_all (p ++ s) (x :: cur) = (x :: cur) :: strtok_all s [].
Proof.
  unfold gap. intros [Hne Hp]%andb_true_iff.
  destruct p as [|d p]; [done|]. cbn [blanks forallb] in Hp.
  apply andb_true_iff in Hp as [Hd Hp]. cbn [app strtok_all]. rewrite Hd.
  by rewrite strtok_blanks.
Qed.

Lemma strtok_more more : forall x cur pz,
  Forall (fun pt : list byte * list byte =>
            gap pt.1 = true /\ word pt.2 = true) more ->
  blanks pz = true ->
  strtok_all (flat_map (fun pt => pt.1 ++ pt.2) more ++ pz) (x :: cur)
  = (x :: cur) :: map snd more.
Proof.
  induction more as [|[p t] more IH]; intros x cur pz Hm Hpz.
  - cbn [flat_map app map]. destruct pz as [|d pz]; [done|].
    cbn [blanks forallb] in Hpz. apply andb_true_iff in Hpz as [Hd Hpz].
    cbn [strtok_all]. rewrite Hd. by rewrite strtok_blanks_nil.
  - apply Forall_cons in Hm as [[Hp Ht] Hm]. cbn [fst snd] in *.
    cbn [flat_map map fst snd]. rewrite <- !app_assoc.
    rewrite strtok_gap by done. f_equal.
    unfold word in Ht. apply andb_true_iff in Ht as [Hne Ht].
    rewrite strtok_word by done. cbn [app].
    destruct t as [|y t]; [done|]. by apply IH.
Qed.

Lemma blanks_plain p :
  blanks p = true -> Forall (fun c => c <> ch_nl /\ c <> x00) p.
Proof.
  induction p as [|d p IH]; [constructor|]. cbn [blanks forallb].
  intros [Hd Hp]%andb_true_iff. constructor; [|by apply IH].
  unfold is_delim in Hd. apply orb_true_iff in Hd.
  rewrite !bool_decide_eq_true in Hd. by destruct Hd as [-> | ->].
Qed.

Lemma word_plain t :
  forallb word_char t = true -> Forall (fun c => c <> ch_nl /\ c <> x00) t.
Proof.
  induction t as [|c t IH]; [constructor|]. cbn [forallb].
  intros [Hc Ht]%andb_true_iff. constructor; [|by apply IH].
  by apply word_char_inv in Hc as (_ & ? & ?).
Qed.

Lemma cut_line l tail :
  Forall (fun c => c <> ch_nl /\ c <> x00) l ->
  cut_newline (c_str (l ++ ch_nl :: tail)) = l.
Proof.
  induction 1 as [|c l [Hnl Hnul] _ IH]; cbn [app c_str cut_newline].
  - destruct (decide (ch_nl = x00)) as [E|_]; [discriminate E|].
    cbn [cut_newline]. by destruct (decide (ch_nl = ch_nl)).
  - destruct (decide (c = x00)); [done|]. cbn [cut_newline].
    destruct (decide (c = ch_nl)); [done|]. by rewrite IH.
Qed.

Lemma spaced_plain p0 t1 more pz :
  blanks p0 = true -> word t1 = true ->
  Forall (fun pt : list byte * list byte =>
            gap pt.1 = true /\ word pt.2 = true) more ->
  blanks pz = true ->
  Forall (fun c => c <> ch_nl /\ c <> x00) (spaced p0 t1 more pz).
Proof.
  intros H0 [_ H1]%andb_true_iff Hm Hz. unfold spaced.
  rewrite !Forall_app. split; [by apply blanks_plain|].
  split; [by apply word_plain|]. split; [|by apply blanks_plain].
  induction Hm as [|[p t] more [[_ Hp]%andb_true_iff [_ Ht]%andb_true_iff] _ IH];
    [constructor|].
  cbn [flat_map fst snd] in *. rewrite !Forall_app.
  split; [split|done]; [by apply blanks_plain|by apply word_plain].
Qed.

Lemma tokens_spaced p0 t1 more pz tail :
  blanks p0 = true -> word t1 = true ->
  Forall (fun pt : list byte * list byte =>
            gap pt.1 = true /\ word pt.2 = true) more ->
  blanks pz = true ->
  tokens (spaced p0 t1 more pz ++ ch_nl :: tail) = t1 :: map snd more.
Proof.
  intros H0 H1 Hm Hz. unfold tokens.
  rewrite cut_line by by apply spaced_plain.
  unfold spaced. rewrite strtok_blanks by done.
  apply andb_true_iff in H1 as [Hne H1]. rewrite strtok_word by done.
  cbn [app]. destruct t1 as [|x t1]; [done|]. by apply strtok_more.
Qed.

(** X21: on a line of words set apart by blanks, with any blanks before the
    first and after the last word, the tokens are the words, in order; what
    follows the first newline is not looked at. *)
Theorem spaced_line_tokens p0 t1 more pz tail :
  blanks p0 = true -> word t1 = true ->
  Forall (fun pt : list byte * list byte =>
            gap pt.1 = true /\ word pt.2 = true) more ->
  blanks pz = true ->
  strtok_all (cut_newline (c_str (spaced p0 t1 more pz ++ ch_nl :: tail))) []
  = t1 :: map snd more.
Proof. apply tokens_spaced. Qed.

Lemma spaced_line_tokens_witness :
  strtok_all (cut_newline (c_str
    (spaced (bytes "  ") (bytes "mkdir") [(bytes "   ", bytes "a")]
       [ch_tab] ++ ch_nl :: bytes "ls"))) []
  = [bytes "mkdir"; bytes "a"].
Proof.
  apply (spaced_line_tokens (bytes "  ") (bytes "mkdir")
           [(bytes "   ", bytes "a")] [ch_tab] (bytes "ls")); try closed_eval.
  constructor; [split; closed_eval|constructor].
Defined.

Section Dispatch.

Variable ok : mode -> string -> bool.

Lemma exec_line_tokens line cwd w :
  exec_line ok line cwd w =
  match tokens line with
  | [] => ((Continue, cwd), w)
  | [c] =>
      if bool_decide (c = bytes "ls") then ((Continue, cwd), (cmd_ls ok cwd w).2)
      else if bool_decide (c = bytes "cd")
              || bool_decide (c = bytes "mkdir")
              || bool_decide (c = bytes "touch")
      then ((Continue, cwd), log (Stderr ("Invalid command" +:+ nl)) w)
      else if bool_decide (c = bytes "exit")
      then ((Break, cwd), (save_inodes_list ok w).2)
      else ((Continue, cwd), log (Stderr ("Invalid command" +:+ nl)) w)
  | [c; a] =>
      if bool_decide (c = bytes "ls")
      then ((Continue, cwd), log (Stderr ("Invalid command" +:+ nl)) w)
      else if bool_decide (c = bytes "cd")
      then ((Continue, (cmd_cd ok cwd a w).1), (cmd_cd ok cwd a w).2)
      else if bool_decide (c = bytes "mkdir")
      then ((Continue, cwd), (cmd_mkdir ok cwd a w).2)
      else if bool_decide (c = bytes "touch")
      then ((Continue, cwd), (cmd_touch ok cwd a w).2)
      else ((Continue, cwd), log (Stderr ("Invalid command" +:+ nl)) w)
  | _ => ((Continue, cwd), log (Stderr ("Invalid command" +:+ nl)) w)
  end.
Proof.
  unfold tokens.
  exec_cases; cbn [orb]; reflexivity.
Qed.

End Dispatch.

(** ** Dispatch *)

(** X22: blanks before, between and after the words of a command have no
    effect, nor has anything after the newline: [mkdir], [touch] and [cd]
    followed by one word run the command on that word, [ls] alone lists the
    directory, and [exit] alone saves the table and leaves the loop. *)
Theorem spaced_command_runs ok p0 p1 arg pz tail cwd w :
  blanks p0 = true -> gap p1 = true -> word arg = true -> blanks pz = true ->
  exec_line ok (spaced p0 (bytes "mkdir") [(p1, arg)] pz ++ ch_nl :: tail) cwd w
  = ((Continue, cwd), (cmd_mkdir ok cwd arg w).2)
  /\ exec_line ok (spaced p0 (bytes "touch") [(p1, arg)] pz ++ ch_nl :: tail) cwd w
     = ((Continue, cwd), (cmd_touch ok cwd arg w).2)
  /\ exec_line ok (spaced p0 (bytes "cd") [(p1, arg)] pz ++ ch_nl :: tail) cwd w
     = ((Continue, (cmd_cd ok cwd arg w).1), (cmd_cd ok cwd arg w).2)
  /\ exec_line ok (spaced p0 (bytes "ls") [] pz ++ ch_nl :: tail) cwd w
     = ((Continue, cwd), (cmd_ls ok cwd w).2)
  /\ exec_line ok (spaced p0 (bytes "exit") [] pz ++ ch_nl :: tail) cwd w
     = ((Break, cwd), (save_inodes_list ok w).2).
Proof.
  intros H0 H1 Ha Hz.
  assert (Forall (fun pt : list byte * list byte =>
                    gap pt.1 = true /\ word pt.2 = true) [(p1, arg)]) as Hm.
  { constructor; [by split|constructor]. }
  assert (Forall (fun pt : list byte * list byte =>
                    gap pt.1 = true /\ word pt.2 = true) []) as Hn
    by constructor.
  rewrite !exec_line_tokens.
  rewrite (tokens_spaced p0 (bytes "mkdir") [(p1, arg)] pz tail H0 eq_refl Hm Hz).
  rewrite (tokens_spaced p0 (bytes "touch") [(p1, arg)] pz tail H0 eq_refl Hm Hz).
  rewrite (tokens_spaced p0 (bytes "cd") [(p1, arg)] pz tail H0 eq_refl Hm Hz).
  rewrite (tokens_spaced p0 (bytes "ls") [] pz tail H0 eq_refl Hn Hz).
  rewrite (tokens_spaced p0 (bytes "exit") [] pz tail H0 eq_refl Hn Hz).
  cbn [map snd]. by repeat split.
Qed.

Lemma spaced_command_runs_witness :
  exec_line all_ok
    (spaced [ch_tab] (bytes "mkdir") [(bytes "  ", bytes "a")] (bytes " ")
     ++ ch_nl :: bytes "junk") 0 root_only
  = ((Continue, 0), after_mkdir_a).
Proof.
  exact (proj1 (spaced_command_runs all_ok [ch_tab] (bytes "  ") (bytes "a")
                  (bytes " ") (bytes "junk") 0 root_only
                  eq_refl eq_refl eq_refl eq_refl)).
Defined.

(** X23: a line whose tokens are none of [ls], [exit], [cd x], [mkdir x],
    [touch x] -- an unknown word, a missing argument, an argument too many --
    prints "Invalid command", changes nothing else and does not leave the
    loop. *)
Theorem ill_formed_line_rejected ok line cwd w :
  well_formed (tokens line) = false ->
  exec_line ok line cwd w
  = ((Continue, cwd), log (Stderr ("Invalid command" +:+ nl)) w).
Proof.
  rewrite exec_line_tokens. unfold well_formed.
  destruct (tokens line) as [|c [|a [|b ts]]]; [done| | |done].
  - intros [H1 H2]%orb_false_iff. rewrite H1, H2. by destruct (_ || _).
  - intros [[H1 H2]%orb_false_iff H3]%orb_false_iff. rewrite H1, H2, H3.
    by destruct (bool_decide (c = bytes "ls")).
Qed.

Lemma ill_formed_line_rejected_witness :
  exec_line all_ok (line "exit now") 0 root_only
  = ((Continue, 0), log (Stderr ("Invalid command" +:+ nl)) root_only).
Proof.
  apply (ill_formed_line_rejected all_ok (line "exit now") 0 root_only).
  closed_eval.
Defined.

Lemma main_loop_exit env l rest lines : forall k cwd w,
  tokens l = [bytes "exit"] ->
  main_loop env k (lines ++ l :: rest) cwd w = main_loop env k lines cwd w.
Proof.
  induction lines as [|a lines IH]; intros k cwd w Hl;
    cbn [app main_loop]; rewrite bind_eq.
  - rewrite exec_line_tokens, Hl. cbn [fst snd]. unfold ret.
    by destruct (save_inodes_list (env k) w) as [[] w'].
  - rewrite bind_eq. destruct (exec_line (env k) a cwd w).1 as [[|] cwd'];
      [by apply IH|done].
Qed.

(** X24: end of input and [exit] are the same thing: a session in which a
    line [exit] is read ends as the session whose input stops just before
    that line, and the lines after [exit] are never run. *)
Theorem exit_is_end_of_input env is_directory chdir argv lines l rest w :
  tokens l = [bytes "exit"] ->
  main env is_directory chdir argv (lines ++ l :: rest) w
  = main env is_directory chdir argv lines w.
Proof.
  intros Hl. rewrite !main_eq.
  destruct argv as [|prog [|root [|extra argv]]]; try reflexivity.
  cbv zeta. by rewrite main_loop_exit.
Qed.

Lemma exit_is_end_of_input_witness :
  main (fun _ => all_ok) (fun _ => true) (fun _ => true)
    [bytes "fs_emulator"; bytes "fs"]
    ([line "mkdir a"] ++ line " exit " :: [line "touch b"]) disk0
  = main (fun _ => all_ok) (fun _ => true) (fun _ => true)
      [bytes "fs_emulator"; bytes "fs"] [line "mkdir a"] disk0.
Proof.
  apply (exit_is_end_of_input (fun _ => all_ok) (fun _ => true)
           (fun _ => true) [bytes "fs_emulator"; bytes "fs"]
           [line "mkdir a"] (line " exit ") [line "touch b"] disk0).
  closed_eval.
Defined.

(** ** Names and their buffers *)

Lemma c_str_app_nuls a n : x00 ∉ a -> c_str (a ++ replicate n x00) = a.
Proof.
  induction a as [|c a IH]; cbn [app c_str].
  - intros _. destruct n as [|n]; [done|]. cbn [replicate c_str].
    by destruct (decide (x00 = x00)).
  - rewrite not_elem_of_cons. intros [Hc Ha].
    destruct (decide (c = x00)); [congruence|]. by rewrite IH.
Qed.

Lemma c_str_make_name32 s : c_str (make_name32 s) = take NAME_LEN (c_str s).
Proof.
  rewrite make_name32_spec. apply c_str_app_nuls.
  intros H. apply (c_str_no_nul s). by apply (subseteq_take NAME_LEN).
Qed.

(** X25: the string held by the buffer of a name is the name cut to 32
    bytes, so two names have the same buffer -- and are the same name for
    [dir_find] -- exactly when they agree on their first 32 bytes; names of
    at most 32 bytes never collide. *)
Theorem name_buffer_injective n1 n2 :
  c_str (make_name32 n1) = take NAME_LEN (c_str n1)
  /\ (make_name32 n1 = make_name32 n2
      <-> take NAME_LEN (c_str n1) = take NAME_LEN (c_str n2))
  /\ ((length (c_str n1) <= NAME_LEN)%nat ->
      (length (c_str n2) <= NAME_LEN)%nat ->
      make_name32 n1 = make_name32 n2 -> c_str n1 = c_str n2).
Proof.
  assert (make_name32 n1 = make_name32 n2
          <-> take NAME_LEN (c_str n1) = take NAME_LEN (c_str n2)) as Hiff.
  { split.
    - intros H. by rewrite <- !c_str_make_name32, H.
    - intros H. rewrite !make_name32_spec, H. do 2 f_equal.
      apply (f_equal length) in H. rewrite !length_take in H. lia. }
  split; [apply c_str_make_name32|]. split; [done|].
  intros H1 H2 H%Hiff. by rewrite !take_ge in H by done.
Qed.
